(** * Capture-and-replay pipeline of gartic-phone-extended

    A shallow embedding of the three components of the Timelapse module
    and of its IO collaborator:

    - [Protocol]  (createProtocolParser): Socket.IO frame decoding,
    - [Recorder]  (createRecorder): interception of WebSocket.send and
      the capture session,
    - [Player]    (createPlayer): the frame loop, seek, speed,
    - [IO]        (createIO): the export object and its import.

    Modelling conventions.
    - A JavaScript number is a double: a rational ([Fin]), an infinity
      or [NaN].  Every arithmetic operation of the code rounds its exact
      result to the nearest double, a tie going to the even significand
      ([Double.round]).  The two zeros are one: no expression of the
      code tells them apart (every divisor is a non-zero constant or a
      positive length).
    - A number the page or the browser passes to the player or to the
      gesture handler (a speed, a progress, a clock reading, a pointer
      position) is finite, and is given as the rational it is.
    - Values produced by [JSON.parse] are the inductive [jsval]; a
      property that is absent ([undefined]) is [None].
    - Builtins that are not code of the repository ([JSON.parse], the
      numeric coercion of strings, arrays and objects) are Section
      variables; [RefJSON.parse] is a reference instance used to run the
      model on concrete frames.
    - The text of an exported file is not modelled character by
      character: [JSON_image] is what [JSON.parse] reads back from the
      text [JSON.stringify] writes of a value (NaN and the infinities
      as null), and a theorem about a file names what its text is read
      back as.
    - An exception is an explicit [Throw] completion, so that every
      try/catch of the source is visible in the model.
    - Readings of [Date.now()], [performance.now()] and of the frame
      timestamp are arguments of the call that takes them; the random
      suffix of a session id is an argument too.
    - The recorder's session objects live in a store and are handled
      by reference, since [stopRecording] writes to the object that
      [startRecording] and [getCurrentSession] handed out.
    - A registered callback is known by whether it returns or throws;
      the calls made to it are logged.  A callback that calls back into
      the component is outside the model, and so is a native [send]
      that throws.
    - The canvas is the log of what reached its 2-D context.
    - [console] output and the debug flag have no effect on the state
      and are left out. *)

From Stdlib Require Import String Ascii List ZArith QArith Qround Bool Lia.
From Stdlib Require Import Numbers.DecimalString Sorting.Sorted.
Import ListNotations.

Local Open Scope Z_scope.
Set Warnings "-register-all".

(* ================================================================== *)
(** ** JavaScript values *)
(* ================================================================== *)

Inductive number : Type :=
| Fin (q : Q)
| Inf (negative : bool)
| NaN.

(** Binary64 arithmetic: 53 significant bits, the leading bit of a
    normal number at an exponent from -1022 to 1023, subnormal numbers
    in steps of 2^-1074 below. *)
Module Double.

Local Open Scope Q_scope.

(** [2^e] *)
Definition pow2 (e : Z) : Q :=
  if (0 <=? e)%Z then inject_Z (2 ^ e) else 1 # Z.to_pos (2 ^ (- e)).

(** The exponent of the leading bit of a positive [q]: the greatest
    [e] with [2^e <= q]. *)
Definition ilog2 (q : Q) : Z :=
  let e := (Z.log2 (Qnum q) - Z.log2 (Zpos (Qden q)))%Z in
  if Qle_bool (pow2 e) q then e else (e - 1)%Z.

(** The nearest integer, a tie going to the even one. *)
Definition nearest_even (x : Q) : Z :=
  let f := Qfloor x in
  match Qcompare (x - inject_Z f) (1 # 2) with
  | Lt => f
  | Gt => (f + 1)%Z
  | Eq => if Z.even f then f else (f + 1)%Z
  end.

(** The spacing of the doubles at a positive [q]. *)
Definition ulp (q : Q) : Q := pow2 (Z.max (ilog2 q - 52) (-1074)).

(** The multiple of [ulp q] nearest to a positive [q]. *)
Definition nearest (q : Q) : Q :=
  let u := ulp q in Qred (inject_Z (nearest_even (q / u)) * u).

(** Rounding to 53 bits, before the test for overflow. *)
Definition rnd (q : Q) : Q :=
  match Qnum q with
  | Z0 => 0
  | Zpos _ => nearest q
  | Zneg _ => - nearest (- q)
  end.

(** [2^1024], where the doubles end. *)
Definition overflow : Q := Eval vm_compute in pow2 1024.

(** The double that an operation with the exact result [q] returns. *)
Definition round (q : Q) : number :=
  let r := rnd q in
  if Qle_bool overflow r then Inf false
  else if Qle_bool r (- overflow) then Inf true
  else Fin r.

(** [q] is a double. *)
Definition is_double (q : Q) : Prop := round q = Fin q.

Definition negative (q : Q) : bool := negb (Qle_bool 0 q).

(** [-a] *)
Definition opp (a : number) : number :=
  match a with
  | Fin x => Fin (- x)
  | Inf s => Inf (negb s)
  | NaN => NaN
  end.

(** [a + b] *)
Definition add (a b : number) : number :=
  match a, b with
  | Fin x, Fin y => round (x + y)
  | Fin _, Inf s => Inf s
  | Inf s, Fin _ => Inf s
  | Inf s, Inf t => if Bool.eqb s t then Inf s else NaN
  | _, _ => NaN
  end.

(** [a - b] *)
Definition sub (a b : number) : number := add a (opp b).

(** [a * b] *)
Definition mul (a b : number) : number :=
  match a, b with
  | Fin x, Fin y => round (x * y)
  | Fin x, Inf s => if Qeq_bool x 0 then NaN else Inf (xorb s (negative x))
  | Inf s, Fin y => if Qeq_bool y 0 then NaN else Inf (xorb s (negative y))
  | Inf s, Inf t => Inf (xorb s t)
  | _, _ => NaN
  end.

(** [a / b]; a zero divisor is the positive zero. *)
Definition div (a b : number) : number :=
  match a, b with
  | Fin x, Fin y =>
      if Qeq_bool y 0 then
        if Qeq_bool x 0 then NaN else Inf (negative x)
      else round (x / y)
  | Fin _, Inf _ => Fin 0
  | Inf s, Fin y => Inf (xorb s (negative y))
  | _, _ => NaN
  end.

(** [a <= b] *)
Definition le (a b : number) : bool :=
  match a, b with
  | NaN, _ => false
  | _, NaN => false
  | Inf true, _ => true
  | _, Inf false => true
  | Fin x, Fin y => Qle_bool x y
  | _, _ => false
  end.

(** [a >= b] *)
Definition ge (a b : number) : bool := le b a.

End Double.

Inductive jsval : Type :=
| JNull
| JBool (b : bool)
| JNum (n : number)
| JStr (s : string)
| JArr (elems : list jsval)
| JObj (props : list (string * jsval)).

Definition jnum (z : Z) : jsval := JNum (Fin (inject_Z z)).

(** Own-property lookup.  [JSON.parse] keeps the last of several
    members with one key, so the lookup returns the last binding. *)
Fixpoint lookup (k : string) (props : list (string * jsval)) : option jsval :=
  match props with
  | [] => None
  | (k', v) :: rest =>
      match lookup k rest with
      | Some w => Some w
      | None => if String.eqb k k' then Some v else None
      end
  end.

(** [v.k] for the data keys the decoder reads (none of them is a
    property of a primitive wrapper or of Array.prototype). *)
Definition get_prop (v : jsval) (k : string) : option jsval :=
  match v with
  | JObj props => lookup k props
  | _ => None
  end.

(** ToBoolean. *)
Definition truthy (v : jsval) : bool :=
  match v with
  | JNull => false
  | JBool b => b
  | JNum (Fin q) => negb (Qeq_bool q 0)
  | JNum (Inf _) => true
  | JNum NaN => false
  | JStr s => negb (String.eqb s "")
  | JArr _ => true
  | JObj _ => true
  end.

(** [a || b] where [a] may be [undefined]. *)
Definition js_or (a : option jsval) (b : jsval) : jsval :=
  match a with
  | Some v => if truthy v then v else b
  | None => b
  end.

(** [a || b] where [b] may be [undefined] as well. *)
Definition js_or_u (a b : option jsval) : option jsval :=
  match a with
  | Some v => if truthy v then a else b
  | None => b
  end.

(** [n * 100] *)
Definition times100 (n : number) : number := Double.mul n (Fin 100).

(** ToNumber; [ext] is the builtin coercion of strings, arrays and
    objects. *)
Definition ToNumber (ext : jsval -> number) (v : jsval) : number :=
  match v with
  | JNull => Fin 0
  | JBool true => Fin 1
  | JBool false => Fin 0
  | JNum n => n
  | _ => ext v
  end.

(** [Math.max(a, b)] *)
Definition Math_max (a b : number) : number :=
  match a, b with
  | NaN, _ => NaN
  | _, NaN => NaN
  | _, _ => if Double.le a b then b else a
  end.

(** [Math.floor(a)] *)
Definition Math_floor (a : number) : number :=
  match a with
  | Fin q => Fin (inject_Z (Qfloor q))
  | _ => a
  end.

(** The number of rounds of [for (let i = 0; i < bound && ...; i++)]
    when the second condition allows [cap] of them at most: the
    indices below the bound. *)
Definition iterations (bound : number) (cap : nat) : nat :=
  match bound with
  | Fin q => Z.to_nat (Qceiling q)
  | Inf false => cap
  | _ => O
  end.

(** [a.length] as a number.  An array has at most 2^32 - 1 elements; a
    longer list stands for no array, and its length reads as that
    bound. *)
Definition array_length {A : Type} (a : list A) : Q :=
  inject_Z (Z.min (Z.of_nat (List.length a)) 4294967295).

(** What [JSON.parse] reads back from the text that [JSON.stringify]
    writes of a value: [NaN] and the infinities are written as [null],
    every other value comes back as it is.  (A list of members stands
    for the object [JSON.parse] made of it.) *)
Fixpoint JSON_image (v : jsval) : jsval :=
  match v with
  | JNum (Fin _) => v
  | JNum _ => JNull
  | JArr elems => JArr (map JSON_image elems)
  | JObj props =>
      JObj (map (fun kv : string * jsval =>
                  let (k, x) := kv in (k, JSON_image x)) props)
  | _ => v
  end.

(** No number in the value is [NaN] or infinite. *)
Fixpoint finite_value (v : jsval) : bool :=
  match v with
  | JNum (Fin _) => true
  | JNum _ => false
  | JArr elems => forallb finite_value elems
  | JObj props =>
      forallb (fun kv : string * jsval => let (_, x) := kv in finite_value x)
              props
  | _ => true
  end.

(** Completions: a call either returns or throws. *)
Inductive completion (A : Type) : Type :=
| Normal (a : A)
| Throw (e : string).
Arguments Normal {A} a.
Arguments Throw {A} e.

Definition bind {A B} (c : completion A) (k : A -> completion B) : completion B :=
  match c with
  | Normal a => k a
  | Throw e => Throw e
  end.

(** [try { c } catch (error) { h error }] *)
Definition try_catch {A} (c : completion A) (h : string -> completion A) : completion A :=
  match c with
  | Normal a => Normal a
  | Throw e => h e
  end.

Declare Scope js_scope.
Delimit Scope js_scope with js.
Notation "x <- c ;; k" := (bind c (fun x => k))
  (at level 61, c at next level, right associativity) : js_scope.

(* ================================================================== *)
(** ** String primitives used by the decoder *)
(* ================================================================== *)

Module Str.

Local Open Scope string_scope.

Definition is_digit (c : ascii) : bool :=
  let n := nat_of_ascii c in (48 <=? n)%nat && (n <=? 57)%nat.

(** [parseInt(c, 10)] for a digit character. *)
Definition digit_val (c : ascii) : Z := Z.of_nat (nat_of_ascii c) - 48.

(** [/^[0-9]/.test(s)] *)
Definition starts_with_digit (s : string) : bool :=
  match s with
  | String c _ => is_digit c
  | EmptyString => false
  end.

(** [s.startsWith(c)] for a one-character needle. *)
Definition starts_with_char (c : ascii) (s : string) : bool :=
  match s with
  | String d _ => Ascii.eqb c d
  | EmptyString => false
  end.

(** [s.substring(n)] *)
Fixpoint drop (n : nat) (s : string) : string :=
  match n, s with
  | O, _ => s
  | S m, String _ r => drop m r
  | S _, EmptyString => EmptyString
  end.

(** [s.substring(0, n)] *)
Fixpoint take (n : nat) (s : string) : string :=
  match n, s with
  | O, _ => EmptyString
  | S m, String c r => String c (take m r)
  | S _, EmptyString => EmptyString
  end.

(** [s.indexOf(c)]; [None] stands for -1. *)
Fixpoint indexOf (c : ascii) (s : string) : option nat :=
  match s with
  | EmptyString => None
  | String d r =>
      if Ascii.eqb c d then Some O
      else match indexOf c r with
           | Some i => Some (S i)
           | None => None
           end
  end.

(** The longest prefix of digits and what follows it. *)
Fixpoint span_digits (s : string) : string * string :=
  match s with
  | String c r =>
      if is_digit c then let (d, t) := span_digits r in (String c d, t)
      else (EmptyString, s)
  | EmptyString => (EmptyString, EmptyString)
  end.

(** [parseInt(ds, 10)] for a string of digits, most significant first. *)
Fixpoint digits_val (acc : Z) (ds : string) : Z :=
  match ds with
  | String c r => digits_val (10 * acc + digit_val c) r
  | EmptyString => acc
  end.

(** [s.match(/^(\d+)(?=[,])/)]: the digits matched, when the longest run
    of leading digits is not empty and a comma follows it. *)
Definition match_id (s : string) : option string :=
  let (ds, rest) := span_digits s in
  match ds with
  | EmptyString => None
  | _ => if starts_with_char "," rest then Some ds else None
  end.

Definition of_Z (z : Z) : string := NilEmpty.string_of_int (Z.to_int z).

End Str.

(* ================================================================== *)
(** ** A reference JSON reader *)
(* ================================================================== *)

(** A reader for JSON texts without exponents and without [\u] escapes;
    on those texts it returns what [JSON.parse] returns, and [None]
    where [JSON.parse] throws a SyntaxError.  It instantiates the
    [JSON_parse] variable of the sections below on concrete frames. *)
Module RefJSON.

Local Open Scope string_scope.

Definition dquote : ascii := "034"%char.
Definition backslash : ascii := "092"%char.

Definition is_ws (c : ascii) : bool :=
  let n := nat_of_ascii c in
  (n =? 32)%nat || (n =? 9)%nat || (n =? 10)%nat || (n =? 13)%nat.

Fixpoint skip_ws (s : string) : string :=
  match s with
  | String c r => if is_ws c then skip_ws r else s
  | EmptyString => s
  end.

Definition unescape (c : ascii) : option ascii :=
  if Ascii.eqb c dquote then Some dquote
  else if Ascii.eqb c backslash then Some backslash
  else if Ascii.eqb c "/" then Some "/"%char
  else if Ascii.eqb c "n" then Some "010"%char
  else if Ascii.eqb c "t" then Some "009"%char
  else if Ascii.eqb c "r" then Some "013"%char
  else if Ascii.eqb c "b" then Some "008"%char
  else if Ascii.eqb c "f" then Some "012"%char
  else None.

(** The characters of a string literal after its opening quote. *)
Fixpoint read_chars (s : string) : option (string * string) :=
  match s with
  | EmptyString => None
  | String c r =>
      if Ascii.eqb c dquote then Some (EmptyString, r)
      else if Ascii.eqb c backslash then
        match r with
        | String e r' =>
            match unescape e, read_chars r' with
            | Some ch, Some (str, rest) => Some (String ch str, rest)
            | _, _ => None
            end
        | EmptyString => None
        end
      else if (nat_of_ascii c <? 32)%nat then None
      else match read_chars r with
           | Some (str, rest) => Some (String c str, rest)
           | None => None
           end
  end.

Definition pow10 (n : nat) : positive := Pos.pow 10 (Pos.of_nat n).

(** [-? int frac?]; an exponent is outside the fragment. *)
Definition read_number (s : string) : option (Q * string) :=
  let (neg, s1) :=
    match s with
    | String "-" r => (true, r)
    | _ => (false, s)
    end in
  let (ip, s2) := Str.span_digits s1 in
  let leading_zero :=
    match ip with
    | String "0" (String _ _) => true
    | _ => false
    end in
  match ip with
  | EmptyString => None
  | _ =>
      if leading_zero then None
      else
        let (fp, s3) :=
          match s2 with
          | String "." r => let (d, t) := Str.span_digits r in (Some d, t)
          | _ => (None, s2)
          end in
        let has_exp :=
          match s3 with
          | String c _ => Ascii.eqb c "e" || Ascii.eqb c "E"
          | EmptyString => false
          end in
        match fp with
        | Some EmptyString => None
        | _ =>
            if has_exp then None
            else
              let fd := match fp with Some d => d | None => EmptyString end in
              let k := String.length fd in
              let mant := Str.digits_val (Str.digits_val 0 ip) fd in
              let q := match k with
                       | O => inject_Z mant
                       | _ => Qred (mant # pow10 k)
                       end in
              Some (if neg then Qopp q else q, s3)
        end
  end.

Definition read_literal (lit : string) (v : jsval) (s : string) : option (jsval * string) :=
  if String.prefix lit s then Some (v, Str.drop (String.length lit) s) else None.

Fixpoint read_value (fuel : nat) (s : string) : option (jsval * string) :=
  match fuel with
  | O => None
  | S f =>
      match skip_ws s with
      | EmptyString => None
      | String c r as t =>
          if Ascii.eqb c "[" then
            match skip_ws r with
            | String "]" r' => Some (JArr [], r')
            | _ => match read_elems f r with
                   | Some (vs, rest) => Some (JArr vs, rest)
                   | None => None
                   end
            end
          else if Ascii.eqb c "{" then
            match skip_ws r with
            | String "}" r' => Some (JObj [], r')
            | _ => match read_members f r with
                   | Some (ms, rest) => Some (JObj ms, rest)
                   | None => None
                   end
            end
          else if Ascii.eqb c dquote then
            match read_chars r with
            | Some (str, rest) => Some (JStr str, rest)
            | None => None
            end
          else if Ascii.eqb c "t" then read_literal "true" (JBool true) t
          else if Ascii.eqb c "f" then read_literal "false" (JBool false) t
          else if Ascii.eqb c "n" then read_literal "null" JNull t
          else match read_number t with
               | Some (q, rest) => Some (JNum (Double.round q), rest)
               | None => None
               end
      end
  end
with read_elems (fuel : nat) (s : string) : option (list jsval * string) :=
  match fuel with
  | O => None
  | S f =>
      match read_value f s with
      | Some (v, rest) =>
          match skip_ws rest with
          | String "," r =>
              match read_elems f r with
              | Some (vs, rest') => Some (v :: vs, rest')
              | None => None
              end
          | String "]" r => Some ([v], r)
          | _ => None
          end
      | None => None
      end
  end
with read_members (fuel : nat) (s : string) : option (list (string * jsval) * string) :=
  match fuel with
  | O => None
  | S f =>
      match skip_ws s with
      | String c r =>
          if Ascii.eqb c dquote then
            match read_chars r with
            | Some (k, rest) =>
                match skip_ws rest with
                | String ":" r1 =>
                    match read_value f r1 with
                    | Some (v, rest1) =>
                        match skip_ws rest1 with
                        | String "," r2 =>
                            match read_members f r2 with
                            | Some (ms, rest2) => Some ((k, v) :: ms, rest2)
                            | None => None
                            end
                        | String "}" r2 => Some ([(k, v)], r2)
                        | _ => None
                        end
                    | None => None
                    end
                | _ => None
                end
            | None => None
            end
          else None
      | EmptyString => None
      end
  end.

Definition parse (s : string) : option jsval :=
  match read_value (2 * String.length s + 2) s with
  | Some (v, rest) =>
      match skip_ws rest with
      | EmptyString => Some v
      | _ => None
      end
  | None => None
  end.

(** No coercion of strings, arrays or objects is exercised by the
    concrete frames; this instance answers [NaN] for all of them. *)
Definition ToNumber_ext (_ : jsval) : number := NaN.

(** Frames are written with an apostrophe in place of each double quote. *)
Fixpoint js (s : string) : string :=
  match s with
  | String c r => String (if Ascii.eqb c "'" then dquote else c) (js r)
  | EmptyString => EmptyString
  end.

End RefJSON.

(* ================================================================== *)
(** ** Protocol: createProtocolParser *)
(* ================================================================== *)

Module Protocol.

Local Open Scope string_scope.

(** Engine.IO packet types. *)
Definition PACKET_MESSAGE : Z := 4.

(** Socket.IO message types. *)
Definition MESSAGE_EVENT : Z := 2.

Definition DRAWING_EVENTS : list string :=
  ["draw"; "clear"; "undo"; "line"; "stroke"; "path"].

Record SocketPacket : Type := mkPacket {
  pk_type : Z;
  pk_namespace : string;
  pk_data : jsval;
  pk_id : option Z
}.

(** The object built by [_normalizeDrawingData]. *)
Record NormalizedData : Type := mkNormalized {
  nd_type : string;
  nd_x : jsval;
  nd_y : jsval;
  nd_size : jsval;
  nd_color : jsval;
  nd_opacity : jsval;
  nd_prevX : jsval;
  nd_prevY : jsval;
  nd_action : option string
}.

Record DrawingEvent : Type := mkEvent {
  ev_type : string;
  ev_data : NormalizedData;
  ev_timestamp : Z
}.

(** [if (src !== undefined) field = src;] run for each source in
    statement order on a field that starts at [init]. *)
Definition overrides (init : jsval) (srcs : list (option jsval)) : jsval :=
  fold_left (fun cur src => match src with Some v => v | None => cur end)
            srcs init.

(** [DRAWING_EVENTS.includes(v)] *)
Definition includes_event (v : jsval) : bool :=
  match v with
  | JStr s => existsb (String.eqb s) DRAWING_EVENTS
  | _ => false
  end.

Section WithBuiltins.

Variable JSON_parse : string -> option jsval.
Variable ToNumber_ext : jsval -> number.

(** [JSON.parse(s)] as a completion: it throws on a malformed text. *)
Definition JSON_parse_c (s : string) : completion jsval :=
  match JSON_parse s with
  | Some v => Normal v
  | None => Throw "SyntaxError"
  end.

(** [v * 100] *)
Definition mul100 (v : jsval) : jsval :=
  JNum (times100 (ToNumber ToNumber_ext v)).

Definition _parseSocketPacket (rawPacket : string)
  : completion (option SocketPacket) :=
  try_catch
    (let packetStr := rawPacket in
     (* Engine.IO type: the first digit *)
     let '(engineType, packetStr) :=
       match packetStr with
       | String c rest =>
           if Str.is_digit c then (Some (Str.digit_val c), rest)
           else (None, packetStr)
       | EmptyString => (None, packetStr)
       end in
     let not_message :=
       match engineType with
       | Some t => negb (t =? PACKET_MESSAGE)%Z
       | None => false
       end in
     if not_message then Normal None
     else if negb (Str.starts_with_digit packetStr) then
       (* no message type: plain JSON *)
       (data <- JSON_parse_c packetStr ;;
        Normal (Some (mkPacket MESSAGE_EVENT "/" data None)))%js
     else
       let messageType :=
         match packetStr with
         | String c _ => Str.digit_val c
         | EmptyString => 0%Z
         end in
       let packetStr := Str.drop 1 packetStr in
       (* namespace *)
       let '(namespace, packetStr) :=
         if Str.starts_with_char "/" packetStr then
           match Str.indexOf "," packetStr with
           | Some namespaceEnd =>
               (Str.take namespaceEnd packetStr,
                Str.drop (namespaceEnd + 1) packetStr)
           | None => ("/", packetStr)
           end
         else ("/", packetStr) in
       (* ack id *)
       let '(id, packetStr) :=
         match Str.match_id packetStr with
         | Some ds =>
             (Some (Str.digits_val 0 ds),
              Str.drop (String.length ds) packetStr)
         | None => (None, packetStr)
         end in
       (* payload: kept as a string when it is not JSON *)
       (data <- try_catch (JSON_parse_c packetStr)
                          (fun _ => Normal (JStr packetStr)) ;;
        Normal (Some (mkPacket messageType namespace data id)))%js)
    (fun _ => Normal None).

Definition _isDrawingEvent (packet : SocketPacket) : bool :=
  if negb (pk_type packet =? MESSAGE_EVENT)%Z then false
  else
    match pk_data packet with
    | JArr (eventName :: _) => includes_event eventName
    | _ => false
    end.

Definition _normalizeDrawingData (eventType : string) (rawData : jsval)
  : NormalizedData :=
  let raw := get_prop rawData in
  {| nd_type := eventType;
     nd_x := overrides (jnum 0) [raw "x"];
     nd_y := overrides (jnum 0) [raw "y"];
     nd_prevX := overrides JNull [raw "prevX"; raw "px"];
     nd_prevY := overrides JNull [raw "prevY"; raw "py"];
     nd_size := overrides (jnum 5) [raw "size"; raw "width"; raw "thickness"];
     nd_color := overrides (JStr "#000000") [raw "color"; raw "c"];
     nd_opacity :=
       overrides (jnum 100)
         (map (option_map mul100) [raw "opacity"; raw "alpha"; raw "a"]);
     nd_action :=
       if String.eqb eventType "clear" || String.eqb eventType "undo"
       then Some eventType else None |}.

Definition _extractDrawingData (now : Z) (packet : SocketPacket)
  : option DrawingEvent :=
  if negb (_isDrawingEvent packet) then None
  else
    match pk_data packet with
    | JArr (JStr eventName :: args) =>
        let eventData := js_or (nth_error args 0) (JObj []) in
        let normalizedData := _normalizeDrawingData eventName eventData in
        Some (mkEvent eventName normalizedData now)
    | _ => None
    end.

(** [parse(rawPacket)]; [now] is the reading of [Date.now()]. *)
Definition parse (now : Z) (rawPacket : string)
  : completion (option DrawingEvent) :=
  (packet <- _parseSocketPacket rawPacket ;;
   match packet with
   | None => Normal None
   | Some p => Normal (_extractDrawingData now p)
   end)%js.

Definition isPing (rawPacket : string) : bool :=
  Str.starts_with_char "2" rawPacket.

Definition isMessage (rawPacket : string) : bool :=
  if Str.starts_with_char "4" rawPacket then true
  else if Str.starts_with_char "2" rawPacket then
    Str.starts_with_char "[" (Str.drop 1 rawPacket)
  else false.

End WithBuiltins.

End Protocol.


(* ================================================================== *)
(** ** Session data *)
(* ================================================================== *)

(** A stroke point as [_convertToStrokePoint] builds it.  [prevX],
    [prevY] and [action] are properties that only one of the two shapes
    has: [None] is an absent property. *)
Record StrokePoint : Type := mkPoint {
  sp_type : string;
  sp_x : jsval;
  sp_y : jsval;
  sp_prevX : option jsval;
  sp_prevY : option jsval;
  sp_size : jsval;
  sp_color : jsval;
  sp_opacity : jsval;
  sp_time : Z;
  sp_action : option string
}.

Record RecordingSession : Type := mkSession {
  id : string;
  startTime : Z;
  endTime : Z;
  strokes : list StrokePoint;
  metadata : jsval
}.

(* ================================================================== *)
(** ** Recorder: createRecorder *)
(* ================================================================== *)

Module Recorder.

Local Open Scope string_scope.

(** What [WebSocket.prototype.send] can hold. *)
Inductive send_fn : Type :=
| NativeSend
| InterceptedSend.

(** The argument of [send]: a string or binary data. *)
Inductive frame : Type :=
| Text (s : string)
| Binary (bytes : list Byte.byte).

Record DataNotification : Type := mkNotification {
  dn_type : string;
  dn_data : StrokePoint;
  dn_session : string
}.

(** A data callback: [true] when the call returns, [false] when it
    throws. *)
Definition callback : Type := DataNotification -> bool.

(** Session objects live in a store and are handled by reference:
    [startRecording] and [getCurrentSession] hand out the live object,
    [stopRecording] writes to it and returns a copy. *)
Definition ref : Type := nat.

Record state : Type := mkState {
  isRecording : bool;
  currentSession : option ref;
  strokeBuffer : list StrokePoint;
  originalSend : option send_fn;
  onDataCallback : option callback;
  (* the environment of the closure *)
  heap : list RecordingSession;
  WebSocket_send : send_fn;
  transport : list frame;
  notified : list DataNotification
}.

Definition initial : state :=
  mkState false None [] None None [] NativeSend [] [].

Definition deref (st : state) (r : ref) : option RecordingSession :=
  nth_error (heap st) r.

Fixpoint store (r : ref) (s : RecordingSession) (h : list RecordingSession)
  : list RecordingSession :=
  match h, r with
  | [], _ => []
  | _ :: t, O => s :: t
  | x :: t, S r' => x :: store r' s t
  end.

(** The native [send]: the frame reaches the socket. *)
Definition native_send (data : frame) (st : state) : state :=
  mkState (isRecording st) (currentSession st) (strokeBuffer st)
          (originalSend st) (onDataCallback st) (heap st)
          (WebSocket_send st) (transport st ++ [data]) (notified st).

Definition _generateSessionId (now : Z) (rnd : string) : string :=
  "rec_" ++ Str.of_Z now ++ "_" ++ rnd.

Definition _convertToStrokePoint (drawingEvent : Protocol.DrawingEvent)
  : option StrokePoint :=
  (* [drawingEvent] and [drawingEvent.data] are objects: both truthy *)
  let data := Protocol.ev_data drawingEvent in
  let type := Protocol.ev_type drawingEvent in
  if String.eqb type "clear" || String.eqb type "undo" then
    Some {| sp_type := type;
            sp_x := jnum 0;
            sp_y := jnum 0;
            sp_prevX := None;
            sp_prevY := None;
            sp_size := jnum 0;
            sp_color := JStr "#000000";
            sp_opacity := jnum 0;
            sp_time := Protocol.ev_timestamp drawingEvent;
            sp_action := Some type |}
  else
    Some {| sp_type := "line";
            sp_x := js_or (Some (Protocol.nd_x data)) (jnum 0);
            sp_y := js_or (Some (Protocol.nd_y data)) (jnum 0);
            (* [data.px] and [data.py] are undefined: the normalized
               object has no such property *)
            sp_prevX :=
              Some (js_or (js_or_u (Some (Protocol.nd_prevX data)) None) JNull);
            sp_prevY :=
              Some (js_or (js_or_u (Some (Protocol.nd_prevY data)) None) JNull);
            sp_size := js_or (Some (Protocol.nd_size data)) (jnum 5);
            sp_color := js_or (Some (Protocol.nd_color data)) (JStr "#000000");
            sp_opacity := js_or (Some (Protocol.nd_opacity data)) (jnum 100);
            sp_time := Protocol.ev_timestamp drawingEvent;
            sp_action := None |}.

Section WithBuiltins.

Variable JSON_parse : string -> option jsval.
Variable ToNumber_ext : jsval -> number.

(** [originalSend.call(this, data)] *)
Definition call_originalSend (data : frame) (st : state)
  : completion unit * state :=
  match originalSend st with
  | Some NativeSend => (Normal tt, native_send data st)
  | Some InterceptedSend => (Throw "RangeError", st)
  | None => (Throw "TypeError", st)
  end.

Definition push_stroke (p : StrokePoint) (st : state) : state :=
  mkState (isRecording st) (currentSession st) (strokeBuffer st ++ [p])
          (originalSend st) (onDataCallback st) (heap st)
          (WebSocket_send st) (transport st) (notified st).

Definition notify (n : DataNotification) (st : state) : state :=
  mkState (isRecording st) (currentSession st) (strokeBuffer st)
          (originalSend st) (onDataCallback st) (heap st)
          (WebSocket_send st) (transport st) (notified st ++ [n]).

(** The body of the [try] block of [_interceptedSend]. *)
Definition process_frame (now : Z) (data : frame) (session : RecordingSession)
    (st : state) : completion unit * state :=
  match data with
  | Binary _ => (Normal tt, st)
  | Text s =>
      match Protocol.parse JSON_parse ToNumber_ext now s with
      | Throw e => (Throw e, st)
      | Normal None => (Normal tt, st)
      | Normal (Some drawingEvent) =>
          match _convertToStrokePoint drawingEvent with
          | None => (Normal tt, st)
          | Some strokePoint =>
              let st1 := push_stroke strokePoint st in
              match onDataCallback st1 with
              | None => (Normal tt, st1)
              | Some cb =>
                  let n := mkNotification "stroke" strokePoint (id session) in
                  if cb n then (Normal tt, notify n st1)
                  else (Throw "callback", notify n st1)
              end
          end
      end
  end.

Definition _interceptedSend (now : Z) (data : frame) (st : state)
  : completion unit * state :=
  match call_originalSend data st with
  | (Throw e, st1) => (Throw e, st1)
  | (Normal _, st1) =>
      match isRecording st1, currentSession st1 with
      | true, Some r =>
          match deref st1 r with
          | Some session =>
              (* try { ... } catch (error) { console.error(...) } *)
              let (_, st2) := process_frame now data session st1 in
              (Normal tt, st2)
          | None => (Normal tt, st1)
          end
      | _, _ => (Normal tt, st1)
      end
  end.

Definition _patchWebSocket (st : state) : state :=
  match originalSend st with
  | Some _ => st
  | None =>
      mkState (isRecording st) (currentSession st) (strokeBuffer st)
              (Some (WebSocket_send st)) (onDataCallback st) (heap st)
              InterceptedSend (transport st) (notified st)
  end.

Definition _unpatchWebSocket (st : state) : state :=
  match originalSend st with
  | None => st
  | Some f =>
      mkState (isRecording st) (currentSession st) (strokeBuffer st)
              None (onDataCallback st) (heap st)
              f (transport st) (notified st)
  end.

Definition stopRecording (now : Z) (st : state) : option ref * state :=
  match isRecording st, currentSession st with
  | true, Some r =>
      match deref st r with
      | Some cur =>
          let endTime := now in
          let finalized :=
            mkSession (id cur) (startTime cur) endTime (strokeBuffer st)
                      (metadata cur) in
          let h := store r finalized (heap st) in
          (* completedSession = { ...currentSession } *)
          let completedSession := List.length h in
          (Some completedSession,
           mkState false None [] (originalSend st) (onDataCallback st)
                   (h ++ [finalized]) (WebSocket_send st) (transport st)
                   (notified st))
      | None => (None, st)
      end
  | _, _ => (None, st)
  end.

(** [t_stop], [t_id] and [t_start] are the readings of [Date.now()] in
    the implied stop, in the id and in [startTime]; [rnd] is the random
    suffix of the id. *)
Definition startRecording (t_stop t_id t_start : Z) (rnd : string) (st : state)
  : ref * state :=
  let st := if isRecording st then snd (stopRecording t_stop st) else st in
  let st := _patchWebSocket st in
  let sessionId := _generateSessionId t_id rnd in
  let session :=
    mkSession sessionId t_start 0 []
      (JObj [("version", JStr "1.0"); ("source", JStr "gartic-phone-extension")]) in
  let r := List.length (heap st) in
  (r, mkState true (Some r) [] (originalSend st) (onDataCallback st)
              (heap st ++ [session]) (WebSocket_send st) (transport st)
              (notified st)).

Definition isActive (st : state) : bool := isRecording st.

Definition getCurrentSession (st : state) : option ref := currentSession st.

Definition getStrokeCount (st : state) : nat := List.length (strokeBuffer st).

Definition setOnDataCallback (cb : option callback) (st : state) : state :=
  mkState (isRecording st) (currentSession st) (strokeBuffer st)
          (originalSend st) cb (heap st)
          (WebSocket_send st) (transport st) (notified st).

Definition _clearBuffer (st : state) : state :=
  mkState (isRecording st) (currentSession st) []
          (originalSend st) (onDataCallback st) (heap st)
          (WebSocket_send st) (transport st) (notified st).

Definition init (st : state) : state := _patchWebSocket st.

Definition destroy (now : Z) (st : state) : state :=
  let st := if isRecording st then snd (stopRecording now st) else st in
  let st := _unpatchWebSocket st in
  let st := _clearBuffer st in
  setOnDataCallback None st.

(** The host application calls [socket.send(data)]: the call goes to
    whatever [WebSocket.prototype.send] holds. *)
Definition host_send (now : Z) (data : frame) (st : state)
  : completion unit * state :=
  match WebSocket_send st with
  | NativeSend => (Normal tt, native_send data st)
  | InterceptedSend => _interceptedSend now data st
  end.

(** The calls the page can make, with the clock readings they take. *)
Inductive op : Type :=
| OpInit
| OpStart (t_stop t_id t_start : Z) (rnd : string)
| OpStop (now : Z)
| OpSend (now : Z) (data : frame)
| OpSetCallback (cb : option callback)
| OpDestroy (now : Z).

Definition step (st : state) (o : op) : state :=
  match o with
  | OpInit => init st
  | OpStart a b c rnd => snd (startRecording a b c rnd st)
  | OpStop now => snd (stopRecording now st)
  | OpSend now data => snd (host_send now data st)
  | OpSetCallback cb => setOnDataCallback cb st
  | OpDestroy now => destroy now st
  end.

Definition run (st : state) (ops : list op) : state := fold_left step ops st.

Definition op_times (o : op) : list Z :=
  match o with
  | OpInit => []
  | OpStart a b c _ => [a; b; c]
  | OpStop now => [now]
  | OpSend now _ => [now]
  | OpSetCallback _ => []
  | OpDestroy now => [now]
  end.

(** The stroke point a frame contributes while recording, if any. *)
Definition point_of_frame (now : Z) (data : frame) : option StrokePoint :=
  match data with
  | Binary _ => None
  | Text s =>
      match Protocol.parse JSON_parse ToNumber_ext now s with
      | Normal (Some ev) => _convertToStrokePoint ev
      | _ => None
      end
  end.

(** The points a sequence of sends contributes, in the order sent. *)
Definition captured (frames : list (Z * frame)) : list StrokePoint :=
  flat_map (fun tf =>
              match point_of_frame (fst tf) (snd tf) with
              | Some p => [p]
              | None => []
              end) frames.

Definition sends (frames : list (Z * frame)) : list op :=
  map (fun tf => OpSend (fst tf) (snd tf)) frames.

End WithBuiltins.

End Recorder.


(* ================================================================== *)
(** ** Player: createPlayer *)
(* ================================================================== *)

Module Player.

Local Open Scope string_scope.
Local Open Scope Q_scope.

(** What reaches the 2-D context.  [Dot] stands for the calls of the
    branch without predecessor ([arc], [fill]), [Line] for those of the
    branch with one ([moveTo], [lineTo], [stroke]); style and alpha are
    those of the point drawn, and what the context computes from them
    (the alpha [opacity / 100], the radius [size / 2]) is not part of
    the log. *)
Inductive canvas_op : Type :=
| Clear
| Dot (point : StrokePoint)
| Line (prevPoint point : StrokePoint).

(** The canvas element, known by the two numbers [_createCanvas] is
    called with; what the element makes of them when they are assigned
    to its [width] and [height] is the browser's. *)
Record Canvas : Type := mkCanvas {
  width : number;
  height : number
}.

Record StateChange : Type := mkStateChange {
  sc_state : string;
  sc_progress : Q;
  sc_currentStroke : nat;
  sc_totalStrokes : nat
}.

Record state : Type := mkState {
  speed : Q;                       (* playerConfig.speed *)
  loop : bool;                     (* playerConfig.loop *)
  currentSession : option RecordingSession;
  canvas : option Canvas;          (* [ctx] is set together with it *)
  isPlaying : bool;
  isPaused : bool;
  currentStrokeIndex : nat;
  animationFrameId : nat;
  lastFrameTime : Q;
  onStateChangeCallback : bool;    (* a callback is registered *)
  onCompleteCallback : bool;
  (* the environment of the closure *)
  drawn : list canvas_op;          (* context calls, oldest first *)
  pending : list nat;              (* frames requested and not cancelled *)
  next_frame : nat;                (* the id the next request returns *)
  state_changes : list StateChange;
  completions : nat
}.

(** [createPlayer(config)] with [DEFAULT_CONFIG] for what is not given. *)
Definition create (cfg_speed : option Q) (cfg_loop : option bool) : state :=
  mkState (match cfg_speed with Some s => s | None => 50 end)
          (match cfg_loop with Some l => l | None => false end)
          None None false false 0%nat 0%nat 0 false false [] [] 1%nat [] 0%nat.

Section Setters.
Variable st : state.

Definition set_speed (v : Q) : state :=
  mkState v (loop st) (currentSession st) (canvas st) (isPlaying st)
    (isPaused st) (currentStrokeIndex st) (animationFrameId st)
    (lastFrameTime st) (onStateChangeCallback st) (onCompleteCallback st)
    (drawn st) (pending st) (next_frame st) (state_changes st) (completions st).

Definition set_session (v : option RecordingSession) : state :=
  mkState (speed st) (loop st) v (canvas st) (isPlaying st)
    (isPaused st) (currentStrokeIndex st) (animationFrameId st)
    (lastFrameTime st) (onStateChangeCallback st) (onCompleteCallback st)
    (drawn st) (pending st) (next_frame st) (state_changes st) (completions st).

Definition set_canvas (v : option Canvas) : state :=
  mkState (speed st) (loop st) (currentSession st) v (isPlaying st)
    (isPaused st) (currentStrokeIndex st) (animationFrameId st)
    (lastFrameTime st) (onStateChangeCallback st) (onCompleteCallback st)
    (drawn st) (pending st) (next_frame st) (state_changes st) (completions st).

Definition set_flags (playing paused : bool) : state :=
  mkState (speed st) (loop st) (currentSession st) (canvas st) playing
    paused (currentStrokeIndex st) (animationFrameId st)
    (lastFrameTime st) (onStateChangeCallback st) (onCompleteCallback st)
    (drawn st) (pending st) (next_frame st) (state_changes st) (completions st).

Definition set_index (v : nat) : state :=
  mkState (speed st) (loop st) (currentSession st) (canvas st) (isPlaying st)
    (isPaused st) v (animationFrameId st)
    (lastFrameTime st) (onStateChangeCallback st) (onCompleteCallback st)
    (drawn st) (pending st) (next_frame st) (state_changes st) (completions st).

Definition set_lastFrameTime (v : Q) : state :=
  mkState (speed st) (loop st) (currentSession st) (canvas st) (isPlaying st)
    (isPaused st) (currentStrokeIndex st) (animationFrameId st)
    v (onStateChangeCallback st) (onCompleteCallback st)
    (drawn st) (pending st) (next_frame st) (state_changes st) (completions st).

Definition set_callbacks (onState onComplete : bool) : state :=
  mkState (speed st) (loop st) (currentSession st) (canvas st) (isPlaying st)
    (isPaused st) (currentStrokeIndex st) (animationFrameId st)
    (lastFrameTime st) onState onComplete
    (drawn st) (pending st) (next_frame st) (state_changes st) (completions st).

(** One more call on the context. *)
Definition emit (o : canvas_op) : state :=
  mkState (speed st) (loop st) (currentSession st) (canvas st) (isPlaying st)
    (isPaused st) (currentStrokeIndex st) (animationFrameId st)
    (lastFrameTime st) (onStateChangeCallback st) (onCompleteCallback st)
    (drawn st ++ [o]) (pending st) (next_frame st) (state_changes st)
    (completions st).

(** [animationFrameId = requestAnimationFrame(_animationLoop)] *)
Definition requestAnimationFrame : state :=
  mkState (speed st) (loop st) (currentSession st) (canvas st) (isPlaying st)
    (isPaused st) (currentStrokeIndex st) (next_frame st)
    (lastFrameTime st) (onStateChangeCallback st) (onCompleteCallback st)
    (drawn st) (pending st ++ [next_frame st]) (S (next_frame st))
    (state_changes st) (completions st).

(** [cancelAnimationFrame(animationFrameId)] *)
Definition cancelAnimationFrame : state :=
  mkState (speed st) (loop st) (currentSession st) (canvas st) (isPlaying st)
    (isPaused st) (currentStrokeIndex st) (animationFrameId st)
    (lastFrameTime st) (onStateChangeCallback st) (onCompleteCallback st)
    (drawn st)
    (filter (fun i => negb (Nat.eqb i (animationFrameId st))) (pending st))
    (next_frame st) (state_changes st) (completions st).

Definition log_change (c : StateChange) : state :=
  mkState (speed st) (loop st) (currentSession st) (canvas st) (isPlaying st)
    (isPaused st) (currentStrokeIndex st) (animationFrameId st)
    (lastFrameTime st) (onStateChangeCallback st) (onCompleteCallback st)
    (drawn st) (pending st) (next_frame st) (state_changes st ++ [c])
    (completions st).

Definition log_completion : state :=
  mkState (speed st) (loop st) (currentSession st) (canvas st) (isPlaying st)
    (isPaused st) (currentStrokeIndex st) (animationFrameId st)
    (lastFrameTime st) (onStateChangeCallback st) (onCompleteCallback st)
    (drawn st) (pending st) (next_frame st) (state_changes st)
    (S (completions st)).

(** The environment takes a requested frame off the queue to run it. *)
Definition take_frame : state :=
  mkState (speed st) (loop st) (currentSession st) (canvas st) (isPlaying st)
    (isPaused st) (currentStrokeIndex st) (animationFrameId st)
    (lastFrameTime st) (onStateChangeCallback st) (onCompleteCallback st)
    (drawn st) (tl (pending st)) (next_frame st) (state_changes st)
    (completions st).

End Setters.

Definition _clearCanvas (st : state) : state :=
  match canvas st with
  | Some _ => emit st Clear
  | None => st
  end.

Definition _drawPoint (point : StrokePoint) (prevPoint : option StrokePoint)
    (st : state) : state :=
  match canvas st with
  | None => st
  | Some _ =>
      match prevPoint with
      | Some prev => emit st (Line prev point)
      | None => emit st (Dot point)
      end
  end.

Definition _calculateStrokesPerFrame (st : state) (deltaTime : number)
  : number :=
  let speed := Fin (speed st) in
  if Double.ge speed (Fin 100) then
    Math_floor (Double.mul (Double.sub speed (Fin 99)) (Fin 10))
  else
    let baseStrokesPerMs := Double.div (Fin 1) (Fin 16) in
    let strokesPerMs :=
      Double.mul baseStrokesPerMs (Double.div speed (Fin 50)) in
    Math_max (Fin 1) (Math_floor (Double.mul strokesPerMs deltaTime)).

(** The quotient of two counts is rounded; it is too small to
    overflow. *)
Definition getProgress (st : state) : Q :=
  match currentSession st with
  | None => 0
  | Some session =>
      match List.length (strokes session) with
      | O => 0
      | n =>
          Double.rnd (inject_Z (Z.of_nat (currentStrokeIndex st))
                      / inject_Z (Z.of_nat n))
      end
  end.

Definition _notifyStateChange (name : string) (st : state) : state :=
  if onStateChangeCallback st then
    log_change st
      (mkStateChange name (getProgress st) (currentStrokeIndex st)
         (match currentSession st with
          | Some session => List.length (strokes session)
          | None => O
          end))
  else st.

(** [play()]; [now] is the reading of [performance.now()]. *)
Definition play (now : Q) (st : state) : bool * state :=
  match currentSession st with
  | None => (false, st)
  | Some _ =>
      if isPlaying st && negb (isPaused st) then (false, st)
      else
        let st := set_flags st true false in
        let st := set_lastFrameTime st now in
        let st := requestAnimationFrame st in
        (true, _notifyStateChange "playing" st)
  end.

Definition _onComplete (now : Q) (st : state) : state :=
  let st := set_flags st false false in
  let st := cancelAnimationFrame st in
  if loop st then snd (play now st)
  else
    let st := if onCompleteCallback st then log_completion st else st in
    _notifyStateChange "completed" st.

(** The [for] loop of [_animationLoop]: [budget] iterations are left. *)
Fixpoint draw_strokes (budget : nat) (session : RecordingSession)
    (prevPoint : option StrokePoint) (st : state) : state :=
  match budget with
  | O => st
  | S budget' =>
      match nth_error (strokes session) (currentStrokeIndex st) with
      | Some point =>
          let st := _drawPoint point prevPoint st in
          let st := set_index st (S (currentStrokeIndex st)) in
          draw_strokes budget' session (Some point) st
      | None => st
      end
  end.

(** [_animationLoop(timestamp)]; [now] is read only when the loop
    option restarts the playback. *)
Definition _animationLoop (timestamp now : Q) (st : state) : state :=
  if negb (isPlaying st) || isPaused st then st
  else
    let deltaTime := Double.sub (Fin timestamp) (Fin (lastFrameTime st)) in
    let st := set_lastFrameTime st timestamp in
    match currentSession st with
    | None => _onComplete now st
    | Some session =>
        if (List.length (strokes session) <=? currentStrokeIndex st)%nat
        then _onComplete now st
        else
          let strokesToDraw := _calculateStrokesPerFrame st deltaTime in
          let prevPoint := None in
          let rounds :=
            iterations strokesToDraw (List.length (strokes session)) in
          let st := draw_strokes rounds session prevPoint st in
          requestAnimationFrame st
    end.

Section WithBuiltins.

Variable ToNumber_ext : jsval -> number.

(** [n + 100] *)
Definition plus100 (n : number) : number := Double.add n (Fin 100).

Definition loadSession (session : option RecordingSession) (st : state)
  : bool * state :=
  match session with
  | None => (false, st)
  | Some s =>
      match strokes s with
      | [] => (false, st)
      | _ =>
          let st := set_session st (Some s) in
          let st := set_index st 0%nat in
          let st :=
            match canvas st with
            | Some _ => st
            | None =>
                let maxX :=
                  fold_left (fun m stroke =>
                               Math_max m (ToNumber ToNumber_ext (sp_x stroke)))
                            (strokes s) (Fin 0) in
                let maxY :=
                  fold_left (fun m stroke =>
                               Math_max m (ToNumber ToNumber_ext (sp_y stroke)))
                            (strokes s) (Fin 0) in
                set_canvas st (Some (mkCanvas (plus100 maxX) (plus100 maxY)))
            end in
          (true, st)
      end
  end.

End WithBuiltins.

Definition pause (st : state) : bool * state :=
  if negb (isPlaying st) || isPaused st then (false, st)
  else
    let st := set_flags st (isPlaying st) true in
    let st := cancelAnimationFrame st in
    (true, _notifyStateChange "paused" st).

Definition resume (now : Q) (st : state) : bool * state :=
  if negb (isPlaying st) || negb (isPaused st) then (false, st)
  else
    let st := set_flags st (isPlaying st) false in
    let st := set_lastFrameTime st now in
    let st := requestAnimationFrame st in
    (true, _notifyStateChange "playing" st).

Definition stop (st : state) : bool * state :=
  if negb (isPlaying st) then (false, st)
  else
    let st := set_flags st false false in
    let st := cancelAnimationFrame st in
    let st := set_index st 0%nat in
    let st := _clearCanvas st in
    (true, _notifyStateChange "stopped" st).

Definition Qclamp (lo hi x : Q) : Q :=
  let m := if Qle_bool hi x then hi else x in     (* Math.min(hi, x) *)
  if Qle_bool m lo then lo else m.                (* Math.max(lo, m) *)

(** The [for] loop of [seek]: [i] is the loop variable, [n] the number
    of iterations left. *)
Fixpoint redraw (n i : nat) (session : RecordingSession)
    (prevPoint : option StrokePoint) (st : state) : state :=
  match n with
  | O => st
  | S n' =>
      match nth_error (strokes session) i with
      | Some point =>
          redraw n' (S i) session (Some point) (_drawPoint point prevPoint st)
      | None => st          (* not reached: the target is at most the length *)
      end
  end.

(** [seek(progress)].  The product is rounded; it is at most the
    length and does not overflow. *)
Definition seek (progress : Q) (st : state) : bool * state :=
  match currentSession st with
  | None => (false, st)
  | Some session =>
      let progress := Qclamp 0 1 progress in
      let targetIndex :=
        Z.to_nat
          (Qfloor (Double.rnd (progress * array_length (strokes session)))) in
      let st := _clearCanvas st in
      let st := redraw targetIndex 0%nat session None st in
      let st := set_index st targetIndex in
      (true, _notifyStateChange "seeked" st)
  end.

Definition setSpeed (v : Q) (st : state) : state :=
  set_speed st (Qclamp 1 200 v).

Definition getSpeed (st : state) : Q := speed st.

Definition isPlayingActive (st : state) : bool :=
  isPlaying st && negb (isPaused st).

Definition isPlaybackPaused (st : state) : bool := isPaused st.

Definition setOnStateChange (registered : bool) (st : state) : state :=
  set_callbacks st registered (onCompleteCallback st).

Definition setOnComplete (registered : bool) (st : state) : state :=
  set_callbacks st (onStateChangeCallback st) registered.

Definition destroy (st : state) : state :=
  let st := snd (stop st) in
  let st := set_canvas st None in
  let st := set_callbacks st false false in
  set_session st None.

(** The environment runs a requested frame. *)
Definition frame (timestamp now : Q) (st : state) : state :=
  match pending st with
  | [] => st
  | _ :: _ => _animationLoop timestamp now (take_frame st)
  end.

(** The chain the spec asks of a replay: the first stroke is a dot,
    every later one a segment from its predecessor. *)
Fixpoint chain_from (prevPoint : option StrokePoint) (l : list StrokePoint)
  : list canvas_op :=
  match l with
  | [] => []
  | point :: rest =>
      match prevPoint with
      | Some prev => Line prev point :: chain_from (Some point) rest
      | None => Dot point :: chain_from (Some point) rest
      end
  end.

Definition chain (l : list StrokePoint) : list canvas_op := chain_from None l.

(** A run of context calls. *)
Definition emits (st : state) (ops : list canvas_op) : state :=
  fold_left emit ops st.

(** What is on the surface: the calls since the last [clearRect]. *)
Fixpoint visible_from (acc : list canvas_op) (log : list canvas_op)
  : list canvas_op :=
  match log with
  | [] => acc
  | Clear :: rest => visible_from [] rest
  | o :: rest => visible_from (acc ++ [o]) rest
  end.

Definition visible (st : state) : list canvas_op := visible_from [] (drawn st).

(** The calls of the page and the frames the environment runs. *)
Inductive op : Type :=
| OpLoad (session : option RecordingSession)
| OpPlay (now : Q)
| OpPause
| OpResume (now : Q)
| OpStop
| OpSeek (progress : Q)
| OpSetSpeed (v : Q)
| OpFrame (timestamp now : Q)
| OpSetOnStateChange (registered : bool)
| OpSetOnComplete (registered : bool)
| OpDestroy.

Section Runs.

Variable ToNumber_ext : jsval -> number.

Definition step (st : state) (o : op) : state :=
  match o with
  | OpLoad session => snd (loadSession ToNumber_ext session st)
  | OpPlay now => snd (play now st)
  | OpPause => snd (pause st)
  | OpResume now => snd (resume now st)
  | OpStop => snd (stop st)
  | OpSeek progress => snd (seek progress st)
  | OpSetSpeed v => setSpeed v st
  | OpFrame timestamp now => frame timestamp now st
  | OpSetOnStateChange b => setOnStateChange b st
  | OpSetOnComplete b => setOnComplete b st
  | OpDestroy => destroy st
  end.

Definition run (st : state) (ops : list op) : state := fold_left step ops st.

End Runs.

(** A loaded session has a surface to draw on. *)
Definition has_surface (st : state) : Prop :=
  currentSession st <> None -> canvas st <> None.

End Player.

(* ================================================================== *)
(** ** IO: createIO *)
(* ================================================================== *)

Module IO.

Local Open Scope string_scope.

Definition FILE_EXTENSION : string := ".json".
Definition MIME_TYPE_JSON : string := "application/json".

Record SessionSummary : Type := mkSummary {
  ss_id : string;
  ss_startTime : Z;
  ss_endTime : Z;
  ss_duration : Z;
  ss_strokesCount : nat
}.

(** The object [exportRecording] builds. *)
Record ExportData : Type := mkExport {
  ed_version : string;
  ed_format : string;
  ed_session : SessionSummary;
  ed_strokes : list StrokePoint;
  ed_metadata : jsval
}.

(** What [importRecording] reads of a parsed file: every property may
    be absent. *)
Record ImportSummary : Type := mkImportSummary {
  is_id : option string;
  is_startTime : option Z;
  is_endTime : option Z
}.

Record ImportData : Type := mkImport {
  im_format : option string;
  im_session : option ImportSummary;
  im_strokes : option (list StrokePoint);
  im_metadata : option jsval
}.

(** The property reads of the import on an object that holds the
    values of the export object themselves.  The import does not get
    that object but the text written of it, and reads what
    [read_back] below gives; the two agree when no number of the
    session is [NaN] or infinite. *)
Definition as_import (d : ExportData) : ImportData :=
  mkImport (Some (ed_format d))
           (Some (mkImportSummary (Some (ss_id (ed_session d)))
                                  (Some (ss_startTime (ed_session d)))
                                  (Some (ss_endTime (ed_session d)))))
           (Some (ed_strokes d))
           (Some (ed_metadata d)).

(** [const exportData = { ... }] in [exportRecording]. *)
Definition exportData (session : RecordingSession) : ExportData :=
  mkExport "1.0" "gartic-timelapse"
           (mkSummary (id session) (startTime session) (endTime session)
                      (endTime session - startTime session)
                      (List.length (strokes session)))
           (strokes session)
           (js_or (Some (metadata session)) (JObj [])).

(** A stroke point as it comes back from the file. *)
Definition point_image (p : StrokePoint) : StrokePoint :=
  mkPoint (sp_type p) (JSON_image (sp_x p)) (JSON_image (sp_y p))
          (option_map JSON_image (sp_prevX p))
          (option_map JSON_image (sp_prevY p))
          (JSON_image (sp_size p)) (JSON_image (sp_color p))
          (JSON_image (sp_opacity p)) (sp_time p) (sp_action p).

Definition finite_point (p : StrokePoint) : bool :=
  finite_value (sp_x p) && finite_value (sp_y p)
  && match sp_prevX p with Some v => finite_value v | None => true end
  && match sp_prevY p with Some v => finite_value v | None => true end
  && finite_value (sp_size p) && finite_value (sp_color p)
  && finite_value (sp_opacity p).

(** What [JSON.parse] makes of the text that
    [JSON.stringify(exportData, null, 2)] wrote into the Blob, under
    the property reads of the import. *)
Definition read_back (d : ExportData) : ImportData :=
  mkImport (Some (ed_format d))
           (Some (mkImportSummary (Some (ss_id (ed_session d)))
                                  (Some (ss_startTime (ed_session d)))
                                  (Some (ss_endTime (ed_session d)))))
           (Some (map point_image (ed_strokes d)))
           (Some (JSON_image (ed_metadata d))).

Record Download : Type := mkDownload {
  dl_filename : string;
  dl_content : ExportData      (* the Blob holds its JSON text *)
}.

(** [exportRecording(session)]; [fileName] is what [_generateFileName]
    makes of the date and the id.  The result is the boolean returned
    and the download started. *)
Definition exportRecording (fileName : string) (session : option RecordingSession)
  : bool * option Download :=
  match session with
  | None => (false, None)
  | Some s =>
      (true, Some (mkDownload (fileName ++ FILE_EXTENSION) (exportData s)))
  end.

(** [a?.f || d] on strings and numbers. *)
Definition str_or (a : option string) (d : string) : string :=
  match a with
  | Some v => if String.eqb v "" then d else v
  | None => d
  end.

Definition num_or (a : option Z) (d : Z) : Z :=
  match a with
  | Some v => if (v =? 0)%Z then d else v
  | None => d
  end.

(** The session object built in [reader.onload] from the parsed data;
    [now] is the reading of [Date.now()]. *)
Definition import_session (now : Z) (data : ImportData) : RecordingSession :=
  let sess_id := match im_session data with Some s => is_id s | None => None end in
  let sess_start := match im_session data with Some s => is_startTime s | None => None end in
  let sess_end := match im_session data with Some s => is_endTime s | None => None end in
  mkSession (str_or sess_id ("imported_" ++ Str.of_Z now))
            (num_or sess_start 0)
            (num_or sess_end 0)
            (match im_strokes data with Some l => l | None => [] end)
            (js_or (im_metadata data) (JObj [])).

Record File : Type := mkFile {
  file_type : string;
  file_name : string;
  file_text : string
}.

Inductive promise (A : Type) : Type :=
| Resolved (a : A)
| Rejected (e : string).
Arguments Resolved {A} a.
Arguments Rejected {A} e.

Fixpoint ends_with (suffix s : string) : bool :=
  String.eqb suffix s ||
  match s with
  | String _ r => ends_with suffix r
  | EmptyString => false
  end.

Section WithBuiltins.

(** [JSON.parse] of the file text, seen through the property reads of
    the import; [None] when it throws. *)
Variable parse_data : string -> option ImportData.

Definition importRecording (now : Z) (file : option File)
  : promise RecordingSession :=
  match file with
  | None => Rejected "[IO] No file provided for import"
  | Some f =>
      if negb (String.eqb (file_type f) MIME_TYPE_JSON)
         && negb (ends_with FILE_EXTENSION (file_name f))
      then Rejected "[IO] Invalid file type. Expected JSON file."
      else
        match parse_data (file_text f) with
        | Some data => Resolved (import_session now data)
        | None => Rejected "SyntaxError"
        end
  end.

End WithBuiltins.

End IO.

(* ================================================================== *)
(** ** The stroke point in the words of the specification *)
(* ================================================================== *)

(** The first of the sources that is present. *)
Fixpoint first_present (srcs : list (option jsval)) : option jsval :=
  match srcs with
  | [] => None
  | Some v :: _ => Some v
  | None :: rest => first_present rest
  end.

(** The last of the sources that is present. *)
Definition last_present (srcs : list (option jsval)) : option jsval :=
  first_present (rev srcs).

Definition or_default (a : option jsval) (d : jsval) : jsval :=
  match a with
  | Some v => v
  | None => d
  end.

Section SpecWords.

Variable ToNumber_ext : jsval -> number.

(** Section 4.1 step 7 read literally: the first alias that is present
    wins, a present zero is kept. *)
Definition spec_StrokePoint (args : jsval) (now : Z) : StrokePoint :=
  let raw := get_prop args in
  {| sp_type := "line";
     sp_x := or_default (raw "x"%string) (jnum 0);
     sp_y := or_default (raw "y"%string) (jnum 0);
     sp_prevX := Some (or_default (first_present [raw "prevX"; raw "px"]%string) JNull);
     sp_prevY := Some (or_default (first_present [raw "prevY"; raw "py"]%string) JNull);
     sp_size := or_default (first_present [raw "size"; raw "width"; raw "thickness"]%string) (jnum 5);
     sp_color := or_default (first_present [raw "color"; raw "c"]%string) (JStr "#000000");
     sp_opacity :=
       or_default
         (option_map (Protocol.mul100 ToNumber_ext)
            (first_present [raw "opacity"; raw "alpha"; raw "a"]%string))
         (jnum 100);
     sp_time := now;
     sp_action := None |}.

End SpecWords.

(** The marker stored for [clear] and [undo]. *)
Definition marker (name : string) (now : Z) : StrokePoint :=
  {| sp_type := name; sp_x := jnum 0; sp_y := jnum 0;
     sp_prevX := None; sp_prevY := None;
     sp_size := jnum 0; sp_color := JStr "#000000"; sp_opacity := jnum 0;
     sp_time := now; sp_action := Some name |}.

(** Two values that are the same number, or the same value. *)
Definition same_value (a b : jsval) : Prop :=
  match a, b with
  | JNum (Fin x), JNum (Fin y) => x == y
  | _, _ => a = b
  end.

(** How a field of the stored point follows the source selected for
    it: the default when no source is present, the source when it is
    present and truthy. *)
Definition takes (field : jsval) (sel : option jsval) (default : jsval) : Prop :=
  match sel with
  | None => field = default
  | Some v => truthy v = true -> field = v
  end.

(** The same for the opacity: the number selected times 100, the
    product being the double that the multiplication returns, when
    that is not zero. *)
Definition takes_scaled (field : jsval) (sel : option jsval) : Prop :=
  match sel with
  | None => field = jnum 100
  | Some v =>
      forall n, v = JNum n ->
                let scaled := JNum (Double.mul n (Fin 100)) in
                truthy scaled = true -> field = scaled
  end.

(** The same for a coordinate: the number given, 0 when none is. *)
Definition takes_number (field : jsval) (src : option jsval) : Prop :=
  match src with
  | None => field = jnum 0
  | Some v => forall q, v = JNum (Fin q) -> same_value field v
  end.

(** The point stored for draw, line, stroke and path with payload
    [args]: the last alias present is the source of each field. *)
Definition line_point (args : list (string * jsval)) (now : Z)
    (p : StrokePoint) : Prop :=
  let raw := fun k => lookup k args in
  sp_type p = "line"%string /\
  sp_time p = now /\
  sp_action p = None /\
  takes_number (sp_x p) (raw "x"%string) /\
  takes_number (sp_y p) (raw "y"%string) /\
  (exists v, sp_prevX p = Some v /\
             takes v (last_present [raw "prevX"; raw "px"]%string) JNull) /\
  (exists v, sp_prevY p = Some v /\
             takes v (last_present [raw "prevY"; raw "py"]%string) JNull) /\
  takes (sp_size p)
        (last_present [raw "size"; raw "width"; raw "thickness"]%string)
        (jnum 5) /\
  takes (sp_color p) (last_present [raw "color"; raw "c"]%string)
        (JStr "#000000") /\
  takes_scaled (sp_opacity p)
               (last_present [raw "opacity"; raw "alpha"; raw "a"]%string).

(** The number of strokes of a tick in the words of the specification:
    the formula, over the reals. *)
Definition spec_strokes_per_tick (s : Z) (deltaTime : Q) : Z :=
  if (100 <=? s)%Z then Qfloor ((inject_Z s - 99) * 10)
  else Z.max 1 (Qfloor ((1 / 16) * (inject_Z s / 50) * deltaTime)).

(** The target of a seek in the words of the specification: the floor
    of the product, over the reals. *)
Definition spec_targetIndex (p : Q) (n : nat) : nat :=
  Z.to_nat (Qfloor (Player.Qclamp 0 1 p * inject_Z (Z.of_nat n))).

Definition is_marker_event (name : string) : bool :=
  String.eqb name "clear" || String.eqb name "undo".

(** The file passes the type check of [importRecording]. *)
Definition file_type_ok (file : IO.File) : bool :=
  String.eqb (IO.file_type file) IO.MIME_TYPE_JSON
  || IO.ends_with IO.FILE_EXTENSION (IO.file_name file).

(** Frames of the examples. *)
Module Frames.

Definition scenario : string :=
  RefJSON.js "42['draw',{'x':10,'y':20,'px':5,'py':5,'size':3,'color':'#ff0000','alpha':0.5}]".

Definition two_sizes : string :=
  RefJSON.js "42['draw',{'x':1,'y':2,'size':3,'width':4}]".
Definition two_sizes_args : jsval :=
  JObj [("x", jnum 1); ("y", jnum 2); ("size", jnum 3); ("width", jnum 4)]%string.

Definition zero_opacity : string :=
  RefJSON.js "42['draw',{'x':1,'y':2,'opacity':0}]".
Definition zero_opacity_args : jsval :=
  JObj [("x", jnum 1); ("y", jnum 2); ("opacity", jnum 0)]%string.

Definition clear_at : string :=
  RefJSON.js "42['clear',{'x':1,'y':2}]".
Definition clear_at_args : jsval :=
  JObj [("x", jnum 1); ("y", jnum 2)]%string.

Definition second : string :=
  RefJSON.js "42['line',{'x':30,'y':40,'prevX':10,'prevY':20}]".

(** A draw frame with the alpha 0.07, and the double that literal is. *)
Definition faint : string :=
  RefJSON.js "42['draw',{'x':1,'y':2,'alpha':0.07}]".
Definition seven_hundredths : Q := 1261007895663739 # 18014398509481984.

Definition ping : string := "2"%string.

(** Three points of one stroke and the session that holds them. *)
Definition p0 : StrokePoint :=
  mkPoint "line" (jnum 10) (jnum 10) (Some JNull) (Some JNull)
          (jnum 5) (JStr "#000000") (jnum 100) 1 None.
Definition p1 : StrokePoint :=
  mkPoint "line" (jnum 20) (jnum 15) (Some (jnum 10)) (Some (jnum 10))
          (jnum 5) (JStr "#000000") (jnum 100) 2 None.
Definition p2 : StrokePoint :=
  mkPoint "line" (jnum 30) (jnum 25) (Some (jnum 20)) (Some (jnum 15))
          (jnum 5) (JStr "#000000") (jnum 100) 3 None.

Definition three : RecordingSession :=
  mkSession "rec_1_three" 0 4 [p0; p1; p2] (JObj []).

(** A draw frame whose x is a 1 followed by 400 zeros. *)
Fixpoint zeros (n : nat) : string :=
  match n with
  | O => EmptyString
  | S k => String "0" (zeros k)
  end.

Definition huge_x : string :=
  RefJSON.js ("42['draw',{'x':1" ++ zeros 400 ++ ",'y':2}]").

(** Start, that frame, stop. *)
Definition huge_calls : list Recorder.op :=
  [Recorder.OpInit; Recorder.OpStart 100 100 100 "k3x9q1z7a";
   Recorder.OpSend 101 (Recorder.Text huge_x); Recorder.OpStop 105].

(** Sessions of ten and of forty points. *)
Definition ten : RecordingSession :=
  mkSession "rec_1_ten" 0 4 (repeat p0 10) (JObj []).
Definition forty : RecordingSession :=
  mkSession "rec_1_forty" 0 4 (repeat p0 40) (JObj []).

(** The double nearest to 0.7. *)
Definition seven_tenths : Q := 3152519739159347 # 4503599627370496.

(** Load, play at the default speed 50, three frames 16 ms apart. *)
Definition playback : list Player.op :=
  [Player.OpLoad (Some three); Player.OpPlay 0;
   Player.OpFrame 16 16; Player.OpFrame 32 32; Player.OpFrame 48 48]%Q.

(** A data callback that throws. *)
Definition throwing : Recorder.callback := fun _ => false.

(** Two draw frames, with a ping and a binary frame among them. *)
Definition two_draws : list (Z * Recorder.frame) :=
  [(101, Recorder.Text scenario); (102, Recorder.Text ping);
   (103, Recorder.Text second); (104, Recorder.Binary [])].

Definition session_calls : list Recorder.op :=
  Recorder.OpInit
    :: Recorder.OpSetCallback (Some throwing)
    :: Recorder.OpStart 100 100 100 "k3x9q1z7a"
    :: Recorder.sends two_draws.

End Frames.

(* ================================================================== *)
(** ** Invariants of the recorder *)
(* ================================================================== *)

(** The interception is either absent or installed over the native
    [send]. *)
Definition patched (st : Recorder.state) : Prop :=
  (Recorder.originalSend st = None /\
   Recorder.WebSocket_send st = Recorder.NativeSend) \/
  (Recorder.originalSend st = Some Recorder.NativeSend /\
   Recorder.WebSocket_send st = Recorder.InterceptedSend).

(** While recording there is a live session, not yet finalized, whose
    start time is one of the clock readings [ts] taken so far. *)
Definition live_session (st : Recorder.state) (ts : list Z) : Prop :=
  if Recorder.isRecording st then
    exists r s,
      Recorder.currentSession st = Some r /\
      Recorder.deref st r = Some s /\
      strokes s = [] /\ endTime s = 0 /\ In (startTime s) ts /\
      Recorder.WebSocket_send st = Recorder.InterceptedSend
  else
    Recorder.currentSession st = None /\ Recorder.strokeBuffer st = [].

Definition recorder_inv (st : Recorder.state) (ts : list Z) : Prop :=
  patched st /\ live_session st ts.

(** The clock readings of a sequence of calls, in order. *)
Definition times (ops : list Recorder.op) : list Z :=
  flat_map Recorder.op_times ops.

Definition opt_list {A} (o : option A) : list A :=
  match o with
  | Some a => [a]
  | None => []
  end.

(* ================================================================== *)
(** ** PlayerUI: the handlers that drive the player *)
(* ================================================================== *)

(** Of [createPlayerUI] the handlers that call the player and the IO
    module; the DOM they also touch is left out. *)
Module PlayerUI.

(** [_handlePlayPause()] *)
Definition _handlePlayPause (now : Q) (player : Player.state) : Player.state :=
  if Player.isPlayingActive player then snd (Player.pause player)
  else snd (Player.play now player).

(** [_handleSaveJSON()]: the download started, if any. *)
Definition _handleSaveJSON (fileName : string) (player : Player.state)
  : option IO.Download :=
  match Player.currentSession player with
  | None => None
  | Some session => snd (IO.exportRecording fileName (Some session))
  end.

Section WithBuiltins.

Variable ToNumber_ext : jsval -> number.
Variable parse_data : string -> option IO.ImportData.

(** What follows [await io.importRecording(file)] in both file
    handlers: [if (session && player) { loadSession; play }], with the
    rejection caught. *)
Definition load_and_play (import_now : Z) (play_now : Q) (file : IO.File)
    (player : Player.state) : Player.state :=
  match IO.importRecording parse_data import_now (Some file) with
  | IO.Resolved session =>
      let player := snd (Player.loadSession ToNumber_ext (Some session) player) in
      snd (Player.play play_now player)
  | IO.Rejected _ => player
  end.

(** [_handleOpenFile()]; [selected] is the file [io.selectFile]
    resolves to, [None] when it rejects. *)
Definition _handleOpenFile (import_now : Z) (play_now : Q)
    (selected : option IO.File) (player : Player.state) : Player.state :=
  match selected with
  | None => player
  | Some file => load_and_play import_now play_now file player
  end.

(** [_handleDrop(e)]; [files] is [e.dataTransfer.files]. *)
Definition _handleDrop (import_now : Z) (play_now : Q) (files : list IO.File)
    (player : Player.state) : Player.state :=
  match files with
  | [] => player
  | file :: _ =>
      if negb (String.eqb (IO.file_type file) "application/json")
         && negb (IO.ends_with ".json" (IO.file_name file))
      then player
      else load_and_play import_now play_now file player
  end.

End WithBuiltins.

End PlayerUI.

(* ================================================================== *)
(** ** Timelapse: createTimelapseModule *)
(* ================================================================== *)

(** The module that owns the recorder and the player: it starts and
    stops the recording with the phases of the game and plays the
    recording on a middle click in the album.  What it does to the
    page (image wrappers, buttons, listeners) is left out. *)
Module Timelapse.

(** The results of [_detectPhase()]. *)
Inductive phase : Type :=
| Lobby
| Game
| Album
| Unknown.

Definition phase_eqb (a b : phase) : bool :=
  match a, b with
  | Lobby, Lobby | Game, Game | Album, Album | Unknown, Unknown => true
  | _, _ => false
  end.

(** [newPhase !== currentPhase], where [currentPhase] may be null. *)
Definition differs (newPhase : phase) (currentPhase : option phase) : bool :=
  match currentPhase with
  | Some p => negb (phase_eqb newPhase p)
  | None => true
  end.

(** The clock readings and the random suffix a phase change may use. *)
Record readings : Type := mkReadings {
  r_stop : Z;          (* Date.now() in stopRecording *)
  r_restart : Z;       (* Date.now() in the stop implied by a start *)
  r_id : Z;
  r_start : Z;
  r_rnd : string
}.

(** [world] holds the variables of the recorder closure last created
    together with the page it patches; [recorder] tells whether the
    module's variable is set. *)
Record state : Type := mkState {
  isEnabled : bool;
  recorder : bool;
  world : Recorder.state;
  player : option Player.state;
  observing : bool;
  currentPhase : option phase
}.

Definition initial : state :=
  mkState false false Recorder.initial None false None.

(** [createRecorder()]: fresh closure variables on the same page. *)
Definition createRecorder (w : Recorder.state) : Recorder.state :=
  Recorder.mkState false None [] None None (Recorder.heap w)
    (Recorder.WebSocket_send w) (Recorder.transport w) (Recorder.notified w).

Definition set_world (st : state) (w : Recorder.state) : state :=
  mkState (isEnabled st) (recorder st) w (player st) (observing st)
          (currentPhase st).

Definition _onGamePhaseStart (t : readings) (st : state) : state :=
  if recorder st then
    set_world st
      (snd (Recorder.startRecording (r_restart t) (r_id t) (r_start t)
              (r_rnd t) (world st)))
  else st.

Definition _onGamePhaseEnd (t : readings) (st : state) : state :=
  if recorder st then
    set_world st (snd (Recorder.stopRecording (r_stop t) (world st)))
  else st.

Definition _handlePhaseChange (t : readings) (newPhase : phase)
    (oldPhase : option phase) (st : state) : state :=
  let st :=
    match oldPhase with
    | Some Game => _onGamePhaseEnd t st
    | _ => st                       (* album: the image maps are cleared *)
    end in
  let st :=
    match newPhase with
    | Game => _onGamePhaseStart t st
    | _ => st                       (* album: image handlers are set up *)
    end in
  mkState (isEnabled st) (recorder st) (world st) (player st) (observing st)
          (Some newPhase).

(** The callback of the phase observer; [detected] is what
    [_detectPhase()] returns. *)
Definition on_mutation (t : readings) (detected : phase) (st : state) : state :=
  if negb (observing st) then st
  else if differs detected (currentPhase st)
          && negb (phase_eqb detected Unknown)
  then _handlePhaseChange t detected (currentPhase st) st
  else st.

Definition init (t : readings) (initialPhase : phase) (st : state) : state :=
  if isEnabled st then st
  else
    let w := Recorder.init (createRecorder (world st)) in
    let st := mkState (isEnabled st) true w (Some (Player.create None None))
                      true (currentPhase st) in
    let st :=
      if negb (phase_eqb initialPhase Unknown)
      then _handlePhaseChange t initialPhase None st
      else st in
    mkState true (recorder st) (world st) (player st) (observing st)
            (currentPhase st).

Definition destroy (now : Z) (st : state) : state :=
  if negb (isEnabled st) then st
  else
    let w := if recorder st then Recorder.destroy now (world st)
             else world st in
    (* player.destroy(); recorder = null; player = null;
       currentPhase = null *)
    mkState false false w None false None.

Section WithBuiltins.

Variable JSON_parse : string -> option jsval.
Variable ToNumber_ext : jsval -> number.

(** [_handleImageMMB(image, wrapper)]: [Some] of the new state when
    the player is started, [None] when the handler returns early. *)
Definition _handleImageMMB (now : Q) (st : state) : option state :=
  let lastSession :=
    if recorder st then
      match Recorder.getCurrentSession (world st) with
      | Some r => Recorder.deref (world st) r
      | None => None
      end
    else None in
  match lastSession with
  | None => None
  | Some session =>
      match strokes session with
      | [] => None
      | _ =>
          let p := match player st with
                   | Some p => p
                   | None => Player.create None None
                   end in
          let p := snd (Player.loadSession ToNumber_ext (Some session) p) in
          let p := Player.setOnStateChange true p in      (* ui.mount(wrapper) *)
          let p := snd (Player.play now p) in
          Some (mkState (isEnabled st) (recorder st) (world st) (Some p)
                        (observing st) (currentPhase st))
      end
  end.

(** What happens to the module.  The handlers of the player UI are
    not among the events: they are attached by [ui.mount], which only
    [_handleImageMMB] calls, after its guard. *)
Inductive event : Type :=
| EvInit (t : readings) (initialPhase : phase)
| EvMutation (t : readings) (detected : phase)
| EvSend (now : Z) (data : Recorder.frame)
| EvMiddleClick (now : Q)
| EvDestroy (now : Z).

Definition step (st : state) (e : event) : state :=
  match e with
  | EvInit t p => init t p st
  | EvMutation t p => on_mutation t p st
  | EvSend now data =>
      set_world st
        (snd (Recorder.host_send JSON_parse ToNumber_ext now data (world st)))
  | EvMiddleClick now =>
      match _handleImageMMB now st with
      | Some st' => st'
      | None => st
      end
  | EvDestroy now => destroy now st
  end.

Definition run (st : state) (es : list event) : state := fold_left step es st.

End WithBuiltins.

End Timelapse.

(* ================================================================== *)
(** ** ModulesManager: the manager with the Timelapse module registered *)
(* ================================================================== *)

(** The module object of Timelapse has [isEnabled] as an accessor with
    a getter only: a read gives the variable of the closure, and an
    assignment [module.isEnabled = v] throws a TypeError in strict
    code (the code of an ES module) and is ignored elsewhere.
    [strict] tells which. *)
Module ModulesManager.

(** The body of the [forEach] of [initAll] at the Timelapse entry. *)
Definition initAll (t : Timelapse.readings) (detected : Timelapse.phase)
    (st : Timelapse.state) : Timelapse.state :=
  if negb (Timelapse.isEnabled st) then st      (* disabled: skipped *)
  else Timelapse.init t detected st.

Definition destroyAll (now : Z) (st : Timelapse.state) : Timelapse.state :=
  Timelapse.destroy now st.

(** [enableModule('Timelapse')] *)
Definition enableModule (strict : bool) (t : Timelapse.readings)
    (detected : Timelapse.phase) (st : Timelapse.state)
  : completion bool * Timelapse.state :=
  if negb (Timelapse.isEnabled st) then
    (* module.isEnabled = true *)
    if strict then (Throw "TypeError", st)
    else (Normal true, Timelapse.init t detected st)
  else (Normal true, st).

(** [disableModule('Timelapse')] *)
Definition disableModule (strict : bool) (now : Z) (st : Timelapse.state)
  : completion bool * Timelapse.state :=
  if Timelapse.isEnabled st then
    (* module.isEnabled = false *)
    if strict then (Throw "TypeError", st)
    else (Normal true, Timelapse.destroy now st)
  else (Normal true, st).

(** What happens once the module is registered: calls of the manager,
    by the entry point and by the settings window, and what the page
    does. *)
Inductive event : Type :=
| InitAll (t : Timelapse.readings) (detected : Timelapse.phase)
| DestroyAll (now : Z)
| EnableModule (t : Timelapse.readings) (detected : Timelapse.phase)
| DisableModule (now : Z)
| Mutation (t : Timelapse.readings) (detected : Timelapse.phase)
| Send (now : Z) (data : Recorder.frame)
| MiddleClick (now : Q).

Section WithBuiltins.

Variable JSON_parse : string -> option jsval.
Variable ToNumber_ext : jsval -> number.
Variable strict : bool.

Definition step (st : Timelapse.state) (e : event) : Timelapse.state :=
  match e with
  | InitAll t p => initAll t p st
  | DestroyAll now => destroyAll now st
  | EnableModule t p => snd (enableModule strict t p st)
  | DisableModule now => snd (disableModule strict now st)
  | Mutation t p =>
      Timelapse.step JSON_parse ToNumber_ext st (Timelapse.EvMutation t p)
  | Send now data =>
      Timelapse.step JSON_parse ToNumber_ext st (Timelapse.EvSend now data)
  | MiddleClick now =>
      Timelapse.step JSON_parse ToNumber_ext st (Timelapse.EvMiddleClick now)
  end.

Definition run (st : Timelapse.state) (es : list event) : Timelapse.state :=
  fold_left step es st.

End WithBuiltins.

(** The frames the page sends, in order. *)
Definition sent (es : list event) : list Recorder.frame :=
  flat_map (fun e => match e with Send _ data => [data] | _ => [] end) es.

End ModulesManager.

(* ================================================================== *)
(** ** GestureHandler: createGestureHandler *)
(* ================================================================== *)

Module Gesture.

Local Open Scope Q_scope.

Record MouseEvent : Type := mkMouse {
  button : Z;
  clientX : Q;
  clientY : Q
}.

(** The state object of the machine; [_getStateObject()] copies it.
    The positions are those of mouse events; the values and the
    sensitivity are what the caller passes, and the deltas and the
    current value are computed. *)
Record GestureState : Type := mkGesture {
  isActive : bool;
  isPrepared : bool;
  startX : Q;
  startY : Q;
  currentX : Q;
  currentY : Q;
  startValue : number;
  currentValue : number;
  deltaX : number;
  deltaY : number;
  triggerKey : option string;
  sensitivity : number;
  axis : string
}.

Record Config : Type := mkConfig {
  triggerKeys : list string;       (* a Set: no key twice *)
  defaultSensitivity : number;
  defaultAxis : string
}.

(** A call of one of the three callbacks, with the copy it receives. *)
Inductive call : Type :=
| OnStart (s : GestureState)
| OnUpdate (s : GestureState)
| OnEnd (s : GestureState).

(** [returns c] tells whether the callback called returns; otherwise
    it throws, and so does the method that called it. *)
Record handler : Type := mkHandler {
  config : Config;
  state : GestureState;
  returns : call -> bool;
  calls : list call                (* oldest first *)
}.

Definition has (key : string) (keys : list string) : bool :=
  existsb (String.eqb key) keys.

(** [createGestureHandler({ onStart, onUpdate, onEnd })] with three
    functions. *)
Definition create (callbacks : call -> bool) : handler :=
  let cfg := mkConfig ["Control"; "Shift"; "Alt"]%string (Fin 1) "x" in
  mkHandler cfg
    (mkGesture false false 0 0 0 0 (Fin 0) (Fin 0) (Fin 0) (Fin 0) None
               (defaultSensitivity cfg) (defaultAxis cfg))
    callbacks [].

Definition _calculateValue (s : GestureState) (delta : number) : number :=
  Double.add (startValue s) (Double.mul delta (sensitivity s)).

(** [_resetState()] *)
Definition _resetState (h : handler) : handler :=
  mkHandler (config h)
    (mkGesture false false 0 0 0 0 (Fin 0) (Fin 0) (Fin 0) (Fin 0) None
               (defaultSensitivity (config h)) (defaultAxis (config h)))
    (returns h) (calls h).

Definition set_state (h : handler) (s : GestureState) : handler :=
  mkHandler (config h) s (returns h) (calls h).

Definition set_config (h : handler) (c : Config) : handler :=
  mkHandler c (state h) (returns h) (calls h).

(** A callback is called with a copy of the state. *)
Definition emit (h : handler) (c : call) : completion unit * handler :=
  let h' := mkHandler (config h) (state h) (returns h) (calls h ++ [c]) in
  if returns h c then (Normal tt, h') else (Throw "callback", h').

Definition with_active (s : GestureState) (b : bool) : GestureState :=
  mkGesture b (isPrepared s) (startX s) (startY s) (currentX s) (currentY s)
            (startValue s) (currentValue s) (deltaX s) (deltaY s)
            (triggerKey s) (sensitivity s) (axis s).

Definition with_prepared (s : GestureState) (b : bool) (key : option string)
  : GestureState :=
  mkGesture (isActive s) b (startX s) (startY s) (currentX s) (currentY s)
            (startValue s) (currentValue s) (deltaX s) (deltaY s)
            key (sensitivity s) (axis s).

Definition handleKeyDown (key : string) (h : handler)
  : completion bool * handler :=
  if has key (triggerKeys (config h)) && negb (isActive (state h)) then
    (Normal true, set_state h (with_prepared (state h) true (Some key)))
  else (Normal false, h).

(** [handleMouseDown(event, initialValue, sensitivity, axis)]; an
    argument left out is [None] and takes its default. *)
Definition handleMouseDown (event : MouseEvent) (initialValue : option number)
    (sens : option number) (ax : option string) (h : handler)
  : completion bool * handler :=
  let initialValue :=
    match initialValue with Some v => v | None => Fin 0 end in
  let sens := match sens with
              | Some v => v
              | None => defaultSensitivity (config h)
              end in
  let ax := match ax with Some a => a | None => defaultAxis (config h) end in
  let s := state h in
  if (button event =? 0)%Z && isPrepared s && negb (isActive s) then
    let s' :=
      mkGesture true false (clientX event) (clientY event)
                (clientX event) (clientY event) initialValue initialValue
                (Fin 0) (Fin 0) (triggerKey s) sens ax in
    let h := set_state h s' in
    match emit h (OnStart (state h)) with
    | (Normal _, h) => (Normal true, h)
    | (Throw e, h) => (Throw e, h)
    end
  else (Normal false, h).

Definition handleMouseMove (event : MouseEvent) (h : handler)
  : completion bool * handler :=
  let s := state h in
  if negb (isActive s) then (Normal false, h)
  else
    let dX := Double.sub (Fin (clientX event)) (Fin (startX s)) in
    let dY := Double.sub (Fin (clientY event)) (Fin (startY s)) in
    let delta := if String.eqb (axis s) "x" then dX else dY in
    let s' :=
      mkGesture (isActive s) (isPrepared s) (startX s) (startY s)
                (clientX event) (clientY event) (startValue s)
                (_calculateValue s delta) dX dY (triggerKey s)
                (sensitivity s) (axis s) in
    let h := set_state h s' in
    match emit h (OnUpdate (state h)) with
    | (Normal _, h) => (Normal true, h)
    | (Throw e, h) => (Throw e, h)
    end.

(** The end of an active gesture: [isActive = false; onEnd(...);
    _resetState(); return true]. *)
Definition finish (h : handler) : completion bool * handler :=
  let h := set_state h (with_active (state h) false) in
  match emit h (OnEnd (state h)) with
  | (Normal _, h) => (Normal true, _resetState h)
  | (Throw e, h) => (Throw e, h)
  end.

Definition handleMouseUp (h : handler) : completion bool * handler :=
  if isActive (state h) then finish h else (Normal false, h).

Definition handleKeyUp (key : string) (h : handler)
  : completion bool * handler :=
  if has key (triggerKeys (config h)) then
    if isActive (state h) then finish h
    else if isPrepared (state h) then
      (Normal true, set_state h (with_prepared (state h) false None))
    else (Normal false, h)
  else (Normal false, h).

(** [addTriggerKey(key)]: only a non-empty string is added. *)
Definition addTriggerKey (key : jsval) (h : handler) : handler :=
  match key with
  | JStr k =>
      if String.eqb k "" then h
      else if has k (triggerKeys (config h)) then h
      else set_config h (mkConfig (triggerKeys (config h) ++ [k])
                                  (defaultSensitivity (config h))
                                  (defaultAxis (config h)))
  | _ => h
  end.

Definition removeTriggerKey (key : string) (h : handler) : handler :=
  set_config h (mkConfig (filter (fun k => negb (String.eqb key k))
                                 (triggerKeys (config h)))
                         (defaultSensitivity (config h))
                         (defaultAxis (config h))).

Definition forceEnd (h : handler) : completion bool * handler :=
  let s := state h in
  if isActive s || isPrepared s then
    let wasActive := isActive s in
    let h := set_state h (with_prepared (with_active s false) false
                                         (triggerKey s)) in
    if wasActive then
      match emit h (OnEnd (state h)) with
      | (Normal _, h) => (Normal true, _resetState h)
      | (Throw e, h) => (Throw e, h)
      end
    else (Normal true, _resetState h)
  else (Normal false, h).

(** [setDefaultSensitivity(sensitivity)]: only a number that is not
    NaN is taken. *)
Definition setDefaultSensitivity (v : jsval) (h : handler) : handler :=
  match v with
  | JNum NaN => h
  | JNum n =>
      set_config h (mkConfig (triggerKeys (config h)) n (defaultAxis (config h)))
  | _ => h
  end.

Definition setDefaultAxis (a : string) (h : handler) : handler :=
  if String.eqb a "x" || String.eqb a "y" then
    set_config h (mkConfig (triggerKeys (config h))
                           (defaultSensitivity (config h)) a)
  else h.

(** The calls a page can make; a call that throws leaves the state as
    it is at the throw. *)
Inductive op : Type :=
| KeyDown (key : string)
| MouseDown (event : MouseEvent) (initialValue sens : option number)
            (ax : option string)
| MouseMove (event : MouseEvent)
| MouseUp
| KeyUp (key : string)
| AddTriggerKey (key : jsval)
| RemoveTriggerKey (key : string)
| ForceEnd
| SetDefaultSensitivity (v : jsval)
| SetDefaultAxis (a : string).

Definition step (h : handler) (o : op) : handler :=
  match o with
  | KeyDown k => snd (handleKeyDown k h)
  | MouseDown e v s a => snd (handleMouseDown e v s a h)
  | MouseMove e => snd (handleMouseMove e h)
  | MouseUp => snd (handleMouseUp h)
  | KeyUp k => snd (handleKeyUp k h)
  | AddTriggerKey k => addTriggerKey k h
  | RemoveTriggerKey k => removeTriggerKey k h
  | ForceEnd => snd (forceEnd h)
  | SetDefaultSensitivity v => setDefaultSensitivity v h
  | SetDefaultAxis a => setDefaultAxis a h
  end.

Definition run (h : handler) (ops : list op) : handler := fold_left step ops h.

(** A log of callback calls is well bracketed when every [OnStart] is
    closed by one [OnEnd] before the next, and [OnUpdate] and [OnEnd]
    come only inside; [open] tells whether a gesture is open. *)
Fixpoint bracketed (open : bool) (log : list call) : option bool :=
  match log with
  | [] => Some open
  | OnStart _ :: rest => if open then None else bracketed true rest
  | OnUpdate _ :: rest => if open then bracketed true rest else None
  | OnEnd _ :: rest => if open then bracketed false rest else None
  end.

End Gesture.

(* ================================================================== *)
(** ** Shapes and orders used in the statements below *)
(* ================================================================== *)

(** The two shapes [_convertToStrokePoint] produces. *)
Definition well_formed_point (p : StrokePoint) : Prop :=
  (sp_type p = "line"%string /\ sp_action p = None /\
   sp_prevX p <> None /\ sp_prevY p <> None) \/
  ((sp_type p = "clear"%string \/ sp_type p = "undo"%string) /\
   p = marker (sp_type p) (sp_time p)).

(** The stroke point a canvas call draws. *)
Definition target (o : Player.canvas_op) : option StrokePoint :=
  match o with
  | Player.Clear => None
  | Player.Dot p => Some p
  | Player.Line _ p => Some p
  end.

Definition targets (log : list Player.canvas_op) : list StrokePoint :=
  flat_map (fun o => opt_list (target o)) log.

(** The calls that keep the session loaded: everything but
    [loadSession] and [destroy]. *)
Definition keeps_session (o : Player.op) : bool :=
  match o with
  | Player.OpLoad _ | Player.OpDestroy => false
  | _ => true
  end.


(** Every point carries one of the clock readings [ts]. *)
Definition stamped (ts : list Z) (l : list StrokePoint) : Prop :=
  Forall (fun p => In (sp_time p) ts) l.

Definition in_time_order (l : list StrokePoint) : Prop :=
  StronglySorted Z.le (map sp_time l).

(** Every stroke of the session lies between its start and its end. *)
Definition within (s : RecordingSession) : Prop :=
  Forall (fun p => startTime s <= sp_time p <= endTime s)%Z (strokes s).

(** The notification the data callback receives for a point. *)
Definition stroke_notification (s : RecordingSession) (p : StrokePoint)
  : Recorder.DataNotification :=
  Recorder.mkNotification "stroke" p (id s).

(** The session object [stopRecording] leaves behind. *)
Definition finalized (s : RecordingSession) (now : Z)
    (buffer : list StrokePoint) : RecordingSession :=
  mkSession (id s) (startTime s) now buffer (metadata s).


(** What every session object of the recorder satisfies. *)
Definition session_shape (s : RecordingSession) : Prop :=
  Forall well_formed_point (strokes s) /\
  id s <> ""%string /\
  truthy (metadata s) = true.

Definition shape_inv (st : Recorder.state) : Prop :=
  Forall well_formed_point (Recorder.strokeBuffer st) /\
  Forall session_shape (Recorder.heap st).

(** The buffered points are in the order of the clock, carry readings
    taken so far and none is older than the live session; so are the
    strokes of every session object. *)
Definition timeline_inv (st : Recorder.state) (ts : list Z) : Prop :=
  in_time_order (Recorder.strokeBuffer st) /\
  stamped ts (Recorder.strokeBuffer st) /\
  (forall r s,
     Recorder.currentSession st = Some r -> Recorder.deref st r = Some s ->
     Forall (fun p => startTime s <= sp_time p)%Z (Recorder.strokeBuffer st)) /\
  Forall (fun s => in_time_order (strokes s) /\ within s) (Recorder.heap st).


(** The phase is the game phase. *)
Definition is_game (p : option Timelapse.phase) : bool :=
  match p with
  | Some Timelapse.Game => true
  | _ => false
  end.

(** No session is loaded into the player of the module. *)
Definition player_unloaded (p : option Player.state) : Prop :=
  match p with
  | Some p => Player.currentSession p = None
  | None => True
  end.

(** What holds of the module between two events. *)
Definition module_inv (st : Timelapse.state) : Prop :=
  (exists ts, recorder_inv (Timelapse.world st) ts) /\
  Timelapse.recorder st = Timelapse.isEnabled st /\
  Timelapse.observing st = Timelapse.isEnabled st /\
  Recorder.WebSocket_send (Timelapse.world st) =
    (if Timelapse.isEnabled st then Recorder.InterceptedSend
     else Recorder.NativeSend) /\
  Recorder.isRecording (Timelapse.world st)
    = is_game (Timelapse.currentPhase st) /\
  (Timelapse.isEnabled st = false -> Timelapse.currentPhase st = None) /\
  player_unloaded (Timelapse.player st).


(** The part of the player state that controls the animation. *)
Definition control (st : Player.state) : bool * bool * nat * list nat :=
  (Player.isPlaying st, Player.isPaused st, Player.animationFrameId st,
   Player.pending st).

(** One frame is requested while the player is playing, and none
    otherwise. *)
Definition scheduled (st : Player.state) : Prop :=
  Player.pending st =
    if Player.isPlayingActive st then [Player.animationFrameId st] else [].

(** The cursor is within the session. *)
Definition cursor_ok (st : Player.state) : Prop :=
  match Player.currentSession st with
  | Some session =>
      (Player.currentStrokeIndex st <= List.length (strokes session))%nat
  | None => True
  end.

(** The frames the environment runs, as calls. *)
Definition frames (l : list (Q * Q)) : list Player.op :=
  map (fun tn => Player.OpFrame (fst tn) (snd tn)) l.

(** The player has replayed its session to the end and the loop
    option is on. *)
Definition at_end_looping (st : Player.state) : Prop :=
  Player.loop st = true /\
  Player.isPlayingActive st = true /\
  Player.pending st <> [] /\
  exists session,
    Player.currentSession st = Some session /\
    (List.length (strokes session) <= Player.currentStrokeIndex st)%nat.


(** The calls that keep the canvas: everything but [destroy]. *)
Definition keeps_canvas (o : Player.op) : bool :=
  match o with
  | Player.OpDestroy => false
  | _ => true
  end.


(** The surface shows the strokes before the cursor, in order. *)
Definition shows (st : Player.state) (session : RecordingSession) : Prop :=
  Player.currentSession st = Some session /\
  Player.canvas st <> None /\
  targets (Player.visible st)
    = firstn (Player.currentStrokeIndex st) (strokes session).


(** What the copy handed to a callback looks like. *)
Definition call_ok (c : Gesture.call) : Prop :=
  match c with
  | Gesture.OnStart s | Gesture.OnUpdate s =>
      Gesture.isActive s = true /\ Gesture.isPrepared s = false /\
      Gesture.triggerKey s <> None
  | Gesture.OnEnd s =>
      Gesture.isActive s = false /\ Gesture.isPrepared s = false
  end.

(** No coordinate is left over from a gesture. *)
Definition cleared (s : Gesture.GestureState) : Prop :=
  Gesture.startX s = 0%Q /\ Gesture.startY s = 0%Q /\
  Gesture.currentX s = 0%Q /\ Gesture.currentY s = 0%Q /\
  Gesture.startValue s = Fin 0 /\ Gesture.currentValue s = Fin 0 /\
  Gesture.deltaX s = Fin 0 /\ Gesture.deltaY s = Fin 0.

Definition gesture_inv (h : Gesture.handler) : Prop :=
  let s := Gesture.state h in
  (Gesture.isActive s && Gesture.isPrepared s = false)%bool /\
  (Gesture.triggerKey s = None ->
   Gesture.isActive s = false /\ Gesture.isPrepared s = false) /\
  Gesture.bracketed false (Gesture.calls h) = Some (Gesture.isActive s) /\
  Forall call_ok (Gesture.calls h).

(** The same when no callback throws. *)
Definition gesture_rest_inv (h : Gesture.handler) : Prop :=
  let s := Gesture.state h in
  (Gesture.isActive s = false -> cleared s) /\
  (Gesture.isActive s = false -> Gesture.isPrepared s = false ->
   Gesture.triggerKey s = None).

(* ================================================================== *)
(** ** Facts about the arithmetic of doubles *)
(* ================================================================== *)

Lemma pow2_pos (e : Z) : (0 < Double.pow2 e)%Q.
Proof.
  unfold Double.pow2. destruct (0 <=? e)%Z eqn:E.
  - apply Z.leb_le in E. change 0%Q with (inject_Z 0). rewrite <- Zlt_Qlt.
    now apply Z.pow_pos_nonneg.
  - reflexivity.
Qed.

Lemma pow2_mono (a b : Z) : (0 <= a <= b)%Z -> (Double.pow2 a <= Double.pow2 b)%Q.
Proof.
  intros [Ha Hab]. unfold Double.pow2.
  destruct (Z.leb_spec 0 a) as [_|H]; [|lia].
  destruct (Z.leb_spec 0 b) as [_|H]; [|lia].
  rewrite <- Zle_Qle. apply Z.pow_le_mono_r; lia.
Qed.

(** Below [2^53] the leading bit is at an exponent of at most 52. *)
Lemma ilog2_below (q : Q) :
  (0 < q)%Q -> (q < inject_Z (2 ^ 53))%Q -> (Double.ilog2 q <= 52)%Z.
Proof.
  intros Hpos Hlt. unfold Double.ilog2.
  set (e := (Z.log2 (Qnum q) - Z.log2 (Z.pos (Qden q)))%Z).
  destruct (Qle_bool (Double.pow2 e) q) eqn:E.
  - apply Qle_bool_iff in E.
    destruct (Z.le_gt_cases e 52) as [H|H]; [exact H|exfalso].
    assert (H53 : (Double.pow2 53 <= Double.pow2 e)%Q) by (apply pow2_mono; lia).
    apply (Qlt_irrefl q). eapply Qlt_le_trans; [exact Hlt|].
    eapply Qle_trans; [|exact E]. exact H53.
  - assert (Hn : (0 < Qnum q)%Z).
    { destruct q as [n d]. unfold Qlt in Hpos. cbn in *. lia. }
    assert (Hb : (Qnum q < 2 ^ 53 * Z.pos (Qden q))%Z).
    { destruct q as [n d]. unfold Qlt in Hlt. cbn [Qnum Qden inject_Z] in *. lia. }
    assert (Hd : (Z.pos (Qden q) < 2 ^ (Z.log2 (Z.pos (Qden q)) + 1))%Z).
    { pose proof (Z.log2_spec (Z.pos (Qden q)) eq_refl) as [_ H].
      rewrite <- Z.add_1_r in H. exact H. }
    assert (Hl : (0 <= Z.log2 (Z.pos (Qden q)))%Z) by apply Z.log2_nonneg.
    assert (Hn2 : (Qnum q < 2 ^ (54 + Z.log2 (Z.pos (Qden q))))%Z).
    { replace (54 + Z.log2 (Z.pos (Qden q)))%Z
        with (53 + (Z.log2 (Z.pos (Qden q)) + 1))%Z by lia.
      rewrite Z.pow_add_r by lia.
      eapply Z.lt_trans; [exact Hb|].
      apply Z.mul_lt_mono_pos_l; [reflexivity | exact Hd]. }
    apply Z.log2_lt_pow2 in Hn2; [|exact Hn]. subst e. lia.
Qed.

(** Rounding to the nearest integer does not pass an integer. *)
Lemma nearest_even_le (x : Q) (m : Z) :
  (x <= inject_Z m)%Q -> (Double.nearest_even x <= m)%Z.
Proof.
  intros H. unfold Double.nearest_even.
  assert (Hf : (Qfloor x <= m)%Z).
  { rewrite <- (Qfloor_Z m). now apply Qfloor_resp_le. }
  destruct (Z.eq_dec (Qfloor x) m) as [E|E].
  - assert (Hx : (x - inject_Z (Qfloor x) < 1 # 2)%Q).
    { rewrite E. apply Qle_lt_trans with (y := 0%Q); [|reflexivity].
      apply (Qplus_le_r _ _ (inject_Z m)). ring_simplify. exact H. }
    destruct (Qcompare (x - inject_Z (Qfloor x)) (1 # 2)) eqn:C; [| lia |].
    + apply Qeq_alt in C. rewrite C in Hx. discriminate Hx.
    + apply Qgt_alt in C. exfalso. apply (Qlt_irrefl (1 # 2)).
      eapply Qlt_trans; eassumption.
  - destruct (Qcompare _ _); [destruct (Z.even _)| |]; lia.
Qed.

Lemma nearest_even_ge (x : Q) (m : Z) :
  (inject_Z m <= x)%Q -> (m <= Double.nearest_even x)%Z.
Proof.
  intros H. unfold Double.nearest_even.
  assert (Hf : (m <= Qfloor x)%Z).
  { rewrite <- (Qfloor_Z m). now apply Qfloor_resp_le. }
  destruct (Qcompare _ _); [destruct (Z.even _)| |]; lia.
Qed.

Lemma scale_back (n : Z) (p : positive) :
  (inject_Z (n * Z.pos p) * (1 # p) == inject_Z n)%Q.
Proof.
  unfold Qeq, Qmult, inject_Z. cbn [Qnum Qden].
  rewrite Pos2Z.inj_mul. ring.
Qed.

Lemma scale_up (q : Q) (n : Z) (p : positive) :
  (q == inject_Z n)%Q -> (q / (1 # p) == inject_Z (n * Z.pos p))%Q.
Proof.
  intros ->. unfold Qeq, Qdiv, Qmult, Qinv, inject_Z. cbn [Qnum Qden].
  rewrite ?Pos2Z.inj_mul. ring.
Qed.

(** Below [2^53] the spacing is one over an integer. *)
Lemma ulp_below (q : Q) :
  (0 < q)%Q -> (q < inject_Z (2 ^ 53))%Q ->
  exists p : positive, Double.ulp q = 1 # p.
Proof.
  intros Hpos Hlt. pose proof (ilog2_below q Hpos Hlt) as He.
  unfold Double.ulp.
  set (k := Z.max (Double.ilog2 q - 52) (-1074)).
  assert (Hk : (k <= 0)%Z) by (subst k; lia).
  unfold Double.pow2. destruct (Z.leb_spec 0 k) as [H|H].
  - assert (k = 0%Z) by lia. exists 1%positive. rewrite H0. reflexivity.
  - eexists. reflexivity.
Qed.

(** The rounding of a positive number does not pass an integer below
    [2^53], in either direction. *)
Lemma nearest_le (q : Q) (n : Z) :
  (0 < q)%Q -> (n < 2 ^ 53)%Z -> (q <= inject_Z n)%Q ->
  (Double.nearest q <= inject_Z n)%Q.
Proof.
  intros Hpos Hn Hq.
  assert (Hlt : (q < inject_Z (2 ^ 53))%Q).
  { eapply Qle_lt_trans; [exact Hq|]. now rewrite <- Zlt_Qlt. }
  destruct (ulp_below q Hpos Hlt) as [p Hp].
  unfold Double.nearest. rewrite Hp. rewrite Qred_correct.
  assert (Hm : (Double.nearest_even (q / (1 # p)) <= n * Z.pos p)%Z).
  { apply nearest_even_le. apply Qle_shift_div_r; [reflexivity|].
    rewrite scale_back. exact Hq. }
  rewrite Zle_Qle in Hm. rewrite <- (scale_back n p).
  apply Qmult_le_compat_r; [exact Hm | discriminate].
Qed.

Lemma nearest_ge (q : Q) (n : Z) :
  (0 < q)%Q -> (q < inject_Z (2 ^ 53))%Q -> (inject_Z n <= q)%Q ->
  (inject_Z n <= Double.nearest q)%Q.
Proof.
  intros Hpos Hlt Hq.
  destruct (ulp_below q Hpos Hlt) as [p Hp].
  unfold Double.nearest. rewrite Hp. rewrite Qred_correct.
  assert (Hm : (n * Z.pos p <= Double.nearest_even (q / (1 # p)))%Z).
  { apply nearest_even_ge. apply Qle_shift_div_l; [reflexivity|].
    rewrite scale_back. exact Hq. }
  rewrite Zle_Qle in Hm. rewrite <- (scale_back n p).
  apply Qmult_le_compat_r; [exact Hm | discriminate].
Qed.

(** A product or quotient between 0 and an integer below [2^53] stays
    there when it is rounded. *)
Lemma rnd_bounds (q : Q) (n : Z) :
  (n < 2 ^ 53)%Z -> (0 <= q <= inject_Z n)%Q ->
  (0 <= Double.rnd q <= inject_Z n)%Q.
Proof.
  intros Hn [H0 Hq]. unfold Double.rnd.
  destruct q as [num den]. destruct num as [|num|num]; cbn [Qnum].
  - split; [apply Qle_refl|]. eapply Qle_trans; [|exact Hq]. exact H0.
  - assert (Hpos : (0 < Z.pos num # den)%Q) by reflexivity.
    split.
    + apply (nearest_ge _ 0 Hpos); [|exact H0].
      eapply Qle_lt_trans; [exact Hq|]. now rewrite <- Zlt_Qlt.
    + now apply nearest_le.
  - exfalso. unfold Qle in H0. cbn in H0. lia.
Qed.

(** Rounding does not fall below an integer that the number
    reaches. *)
Lemma rnd_ge (q : Q) (m : Z) :
  (0 <= q)%Q -> (q < inject_Z (2 ^ 53))%Q -> (inject_Z m <= q)%Q ->
  (inject_Z m <= Double.rnd q)%Q.
Proof.
  intros H0 Hlt Hm. unfold Double.rnd.
  destruct q as [num den]. destruct num as [|num|num]; cbn [Qnum].
  - unfold Qle in Hm |- *. cbn in Hm |- *. lia.
  - apply nearest_ge; [reflexivity | exact Hlt | exact Hm].
  - exfalso. unfold Qle in H0. cbn in H0. lia.
Qed.

(** The floor of a rounded number is the floor of the number, or one
    more when the number rounds up to the next integer. *)
Lemma floor_rnd (q : Q) (n : Z) :
  (n < 2 ^ 53)%Z -> (0 <= q <= inject_Z n)%Q ->
  (Qfloor q <= Qfloor (Double.rnd q) <= Qfloor q + 1)%Z.
Proof.
  intros Hn [H0 Hq].
  assert (Hlt : (q < inject_Z (2 ^ 53))%Q).
  { eapply Qle_lt_trans; [exact Hq|]. now rewrite <- Zlt_Qlt. }
  split.
  - rewrite <- (Qfloor_Z (Qfloor q)) at 1. apply Qfloor_resp_le.
    apply rnd_ge; [exact H0 | exact Hlt | apply Qfloor_le].
  - assert (Hc : (Qceiling q <= n)%Z).
    { rewrite <- (Qceiling_Z n). now apply Qceiling_resp_le. }
    assert (Hr : (Double.rnd q <= inject_Z (Qceiling q))%Q).
    { apply rnd_bounds; [lia|]. split; [exact H0 | apply Qle_ceiling]. }
    apply Qfloor_resp_le in Hr. rewrite Qfloor_Z in Hr.
    assert (Hcf : (Qceiling q <= Qfloor q + 1)%Z).
    { pose proof (Qceiling_lt q) as H1. pose proof (Qlt_floor q) as H2.
      assert (H3 : (inject_Z (Qceiling q - 1) < inject_Z (Qfloor q + 1))%Q)
        by (eapply Qlt_trans; eassumption).
      rewrite <- Zlt_Qlt in H3. lia. }
    lia.
Qed.

Lemma Qred_inject_Z (n : Z) : Qred (inject_Z n) = inject_Z n.
Proof.
  unfold Qred, inject_Z.
  generalize (Z.ggcd_gcd n 1) (Z.ggcd_correct_divisors n 1).
  destruct (Z.ggcd n 1) as (g, (a, b)). cbn [fst snd].
  rewrite Z.gcd_1_r. intros -> [H1 H2]. rewrite Z.mul_1_l in H1, H2.
  subst a b. reflexivity.
Qed.

(** An integer from 0 to [2^53] is a double. *)
Lemma rnd_integer (q : Q) (n : Z) :
  (0 <= n < 2 ^ 53)%Z -> (q == inject_Z n)%Q -> Double.rnd q = inject_Z n.
Proof.
  intros [H0 Hn] Hq. unfold Double.rnd.
  destruct q as [num den]. destruct num as [|num|num]; cbn [Qnum].
  - unfold Qeq in Hq. cbn in Hq. assert (n = 0%Z) by lia. subst n. reflexivity.
  - assert (Hpos : (0 < Z.pos num # den)%Q) by reflexivity.
    set (q := Z.pos num # den) in *.
    assert (Hlt : (q < inject_Z (2 ^ 53))%Q).
    { rewrite Hq. now rewrite <- Zlt_Qlt. }
    destruct (ulp_below q Hpos Hlt) as [p Hp].
    unfold Double.nearest. rewrite Hp.
    assert (Hx : (q / (1 # p) == inject_Z (n * Z.pos p))%Q)
      by now apply scale_up.
    assert (Hm : Double.nearest_even (q / (1 # p)) = (n * Z.pos p)%Z).
    { apply Z.le_antisymm.
      - apply nearest_even_le. rewrite Hx. apply Qle_refl.
      - apply nearest_even_ge. rewrite Hx. apply Qle_refl. }
    rewrite Hm.
    rewrite <- (Qred_inject_Z n).
    apply Qred_complete. apply scale_back.
  - exfalso. unfold Qeq in Hq. cbn in Hq. lia.
Qed.

Lemma round_integer (q : Q) (n : Z) :
  (0 <= n < 2 ^ 53)%Z -> (q == inject_Z n)%Q ->
  Double.round q = Fin (inject_Z n).
Proof.
  intros Hn Hq. unfold Double.round. rewrite (rnd_integer q n Hn Hq).
  assert (Hbig : (2 ^ 53 < 2 ^ 1024)%Z) by (apply Z.pow_lt_mono_r; lia).
  assert (Ho : Double.overflow = inject_Z (2 ^ 1024))
    by (vm_compute; reflexivity).
  rewrite Ho.
  assert (E1 : Qle_bool (inject_Z (2 ^ 1024)) (inject_Z n) = false).
  { destruct (Qle_bool (inject_Z (2 ^ 1024)) (inject_Z n)) eqn:E;
      [|reflexivity].
    apply Qle_bool_iff in E. rewrite <- Zle_Qle in E. lia. }
  assert (E2 : Qle_bool (inject_Z n) (- inject_Z (2 ^ 1024)) = false).
  { destruct (Qle_bool (inject_Z n) (- inject_Z (2 ^ 1024))) eqn:E;
      [|reflexivity].
    apply Qle_bool_iff in E.
    rewrite <- inject_Z_opp, <- Zle_Qle in E.
    assert (0 < 2 ^ 1024)%Z by (apply Z.pow_pos_nonneg; lia). lia. }
  rewrite E1, E2. reflexivity.
Qed.

(* ================================================================== *)
(** ** Facts about the decoder *)
(* ================================================================== *)

Section ProtocolFacts.

Variable JSON_parse : string -> option jsval.
Variable ToNumber_ext : jsval -> number.

Local Abbreviation parsePacket := (Protocol._parseSocketPacket JSON_parse).
Local Abbreviation parse := (Protocol.parse JSON_parse ToNumber_ext).

Lemma drop_drop (a b : nat) (s : string) :
  Str.drop a (Str.drop b s) = Str.drop (b + a) s.
Proof.
  revert s; induction b as [|b IH]; intros s; simpl.
  - reflexivity.
  - destruct s as [|c r]; simpl.
    + destruct a; reflexivity.
    + apply IH.
Qed.

Lemma try_catch_null {A} (c : completion (option A)) :
  exists r, try_catch c (fun _ => Normal None) = Normal r.
Proof. destruct c as [a|e]; simpl; eauto. Qed.

Lemma parseSocketPacket_returns (raw : string) :
  exists r, parsePacket raw = Normal r.
Proof. unfold Protocol._parseSocketPacket. apply try_catch_null. Qed.

Lemma parse_returns (now : Z) (raw : string) :
  exists r, parse now raw = Normal r.
Proof.
  unfold Protocol.parse.
  destruct (parseSocketPacket_returns raw) as [[p|] ->]; simpl; eauto.
Qed.

(** The payload of a decoded packet is the JSON value of a suffix of
    the frame, or that suffix itself when it is not JSON. *)
Lemma parseSocketPacket_payload (raw : string) (pkt : Protocol.SocketPacket) :
  parsePacket raw = Normal (Some pkt) ->
  exists k,
    JSON_parse (Str.drop k raw) = Some (Protocol.pk_data pkt) \/
    (JSON_parse (Str.drop k raw) = None /\
     Protocol.pk_data pkt = JStr (Str.drop k raw)).
Proof.
  unfold Protocol._parseSocketPacket, Protocol.JSON_parse_c.
  set (hd := match raw with
             | String c rest =>
                 if Str.is_digit c then (Some (Str.digit_val c), rest)
                 else (None, raw)
             | EmptyString => (None, raw)
             end).
  assert (Hhd : exists k, snd hd = Str.drop k raw).
  { subst hd. destruct raw as [|c rest].
    - exists O; reflexivity.
    - destruct (Str.is_digit c); [exists 1%nat | exists O]; reflexivity. }
  destruct hd as [engineType s1]; simpl in Hhd.
  destruct Hhd as [k1 Hk1].
  destruct (match engineType with
            | Some t => negb (t =? Protocol.PACKET_MESSAGE)
            | None => false
            end); [discriminate|].
  destruct (Str.starts_with_digit s1); cbn [negb].
  - set (ns := if Str.starts_with_char "/" (Str.drop 1 s1)
               then match Str.indexOf "," (Str.drop 1 s1) with
                    | Some e => (Str.take e (Str.drop 1 s1),
                                 Str.drop (e + 1) (Str.drop 1 s1))
                    | None => ("/"%string, Str.drop 1 s1)
                    end
               else ("/"%string, Str.drop 1 s1)).
    assert (Hns : exists k, snd ns = Str.drop k raw).
    { subst ns s1.
      destruct (Str.starts_with_char "/" _);
        [destruct (Str.indexOf "," _)|]; cbn [snd];
        rewrite ?drop_drop; eauto. }
    destruct ns as [namespace s2]; simpl in Hns.
    destruct Hns as [k2 Hk2].
    set (idp := match Str.match_id s2 with
                | Some ds => (Some (Str.digits_val 0 ds),
                              Str.drop (String.length ds) s2)
                | None => (None, s2)
                end).
    assert (Hid : exists k, snd idp = Str.drop k raw).
    { subst idp s2. destruct (Str.match_id _); cbn [snd];
        rewrite ?drop_drop; eauto. }
    destruct idp as [i s3]; simpl in Hid.
    destruct Hid as [k3 Hk3].
    destruct (JSON_parse s3) as [v|] eqn:E; simpl.
    all: intros H; injection H as <-; simpl; exists k3; rewrite <- Hk3; auto.
  - destruct (JSON_parse s1) as [v|] eqn:E; simpl; [|discriminate].
    intros H; injection H as <-; simpl. exists k1. rewrite <- Hk1. auto.
Qed.

Lemma includes_event_spec (v : jsval) :
  Protocol.includes_event v = true <->
  exists name, v = JStr name /\ In name Protocol.DRAWING_EVENTS.
Proof.
  split.
  - destruct v; try discriminate. unfold Protocol.includes_event.
    intros H. apply existsb_exists in H. destruct H as [x [Hin Heq]].
    apply String.eqb_eq in Heq. subst x. eauto.
  - intros [name [-> Hin]]. unfold Protocol.includes_event.
    apply existsb_exists.
    exists name. split; [exact Hin | apply String.eqb_refl].
Qed.

(** A frame whose first character is a digit other than 4 is dropped. *)
Lemma parse_other_engine_type (now : Z) (c : ascii) (rest : string) :
  Str.is_digit c = true -> Str.digit_val c <> 4 ->
  parse now (String c rest) = Normal None.
Proof.
  intros Hd Hne. unfold Protocol.parse, Protocol._parseSocketPacket.
  rewrite Hd. unfold Protocol.PACKET_MESSAGE.
  destruct (Z.eqb_spec (Str.digit_val c) 4) as [E|E]; [contradiction|].
  reflexivity.
Qed.

(** A packet whose payload is not a non-empty list is dropped. *)
Lemma parse_not_a_list (now : Z) (raw : string) (pkt : Protocol.SocketPacket) :
  parsePacket raw = Normal (Some pkt) ->
  (forall e es, Protocol.pk_data pkt <> JArr (e :: es)) ->
  parse now raw = Normal None.
Proof.
  intros Hp Hd. unfold Protocol.parse. rewrite Hp. simpl.
  unfold Protocol._extractDrawingData, Protocol._isDrawingEvent.
  destruct (negb (Protocol.pk_type pkt =? Protocol.MESSAGE_EVENT)); [reflexivity|].
  destruct (Protocol.pk_data pkt) as [| | | |[|e es]|] eqn:E; try reflexivity.
  exfalso. exact (Hd e es eq_refl).
Qed.

(** A packet whose first payload element is not a drawing event name is
    dropped. *)
Lemma parse_not_whitelisted (now : Z) (raw : string)
    (pkt : Protocol.SocketPacket) (e : jsval) (es : list jsval) :
  parsePacket raw = Normal (Some pkt) ->
  Protocol.pk_data pkt = JArr (e :: es) ->
  (forall name, e = JStr name -> ~ In name Protocol.DRAWING_EVENTS) ->
  parse now raw = Normal None.
Proof.
  intros Hp Hd Hn. unfold Protocol.parse. rewrite Hp. simpl.
  unfold Protocol._extractDrawingData, Protocol._isDrawingEvent.
  destruct (negb (Protocol.pk_type pkt =? Protocol.MESSAGE_EVENT)); [reflexivity|].
  rewrite Hd.
  destruct (Protocol.includes_event e) eqn:E; [|reflexivity].
  apply includes_event_spec in E. destruct E as [name [-> Hin]].
  exfalso. exact (Hn name eq_refl Hin).
Qed.

(** A frame no suffix of which is JSON is dropped. *)
Lemma parse_json_failure (now : Z) (raw : string) :
  (forall k, JSON_parse (Str.drop k raw) = None) ->
  parse now raw = Normal None.
Proof.
  intros Hfail.
  destruct (parseSocketPacket_returns raw) as [[pkt|] Hp].
  - apply (parse_not_a_list now raw pkt Hp).
    destruct (parseSocketPacket_payload raw pkt Hp) as [k [H|[_ H]]].
    + rewrite Hfail in H. discriminate.
    + intros e es. rewrite H. discriminate.
  - unfold Protocol.parse. rewrite Hp. reflexivity.
Qed.


End ProtocolFacts.



(* ================================================================== *)
(** ** Facts about the conversion to stroke points *)
(* ================================================================== *)

Lemma first_present_app (a b : list (option jsval)) :
  first_present (a ++ b) =
  match first_present a with
  | Some v => Some v
  | None => first_present b
  end.
Proof.
  induction a as [|[v|] a IH]; simpl; auto.
Qed.

Lemma last_present_snoc (l : list (option jsval)) (x : option jsval) :
  last_present (l ++ [x]) =
  match x with
  | Some v => Some v
  | None => last_present l
  end.
Proof.
  unfold last_present. rewrite rev_app_distr. simpl. destruct x; reflexivity.
Qed.

(** The run of overriding assignments leaves the last source present. *)
Lemma overrides_last (init : jsval) (srcs : list (option jsval)) :
  Protocol.overrides init srcs = or_default (last_present srcs) init.
Proof.
  induction srcs as [|x l IH] using rev_ind.
  - reflexivity.
  - unfold Protocol.overrides in *. rewrite fold_left_app. simpl.
    rewrite last_present_snoc. destruct x as [v|]; [reflexivity | exact IH].
Qed.

Lemma overrides_one (init : jsval) (src : option jsval) :
  Protocol.overrides init [src] = or_default src init.
Proof. destruct src; reflexivity. Qed.

Lemma last_present_map (f : jsval -> jsval) (l : list (option jsval)) :
  last_present (map (option_map f) l) = option_map f (last_present l).
Proof.
  induction l as [|x l IH] using rev_ind.
  - reflexivity.
  - rewrite map_app. simpl. rewrite !last_present_snoc.
    destruct x as [v|]; [reflexivity | exact IH].
Qed.

Lemma js_or_takes (sel : option jsval) (d : jsval) :
  takes (js_or (Some (or_default sel d)) d) sel d.
Proof.
  destruct sel as [v|]; simpl.
  - intros ->. reflexivity.
  - destruct (truthy d); reflexivity.
Qed.

Lemma js_or_u_takes (sel : option jsval) (d : jsval) :
  takes (js_or (js_or_u (Some (or_default sel d)) None) d) sel d.
Proof.
  destruct sel as [v|]; simpl.
  - intros H. rewrite H. simpl. rewrite H. reflexivity.
  - destruct (truthy d) eqn:E; simpl; rewrite ?E; reflexivity.
Qed.

Lemma js_or_takes_number (src : option jsval) :
  takes_number (js_or (Some (or_default src (jnum 0))) (jnum 0)) src.
Proof.
  destruct src as [v|]; simpl; [|reflexivity].
  intros q ->. simpl.
  destruct (Qeq_bool q 0) eqn:E; simpl.
  - apply Qeq_bool_iff in E. symmetry. exact E.
  - reflexivity.
Qed.

Section ConversionFacts.

Variable JSON_parse : string -> option jsval.
Variable ToNumber_ext : jsval -> number.

Local Abbreviation parsePacket := (Protocol._parseSocketPacket JSON_parse).
Local Abbreviation point_of_frame :=
  (Recorder.point_of_frame JSON_parse ToNumber_ext).

Lemma js_or_takes_scaled (sel : option jsval) :
  takes_scaled
    (js_or (Some (or_default (option_map (Protocol.mul100 ToNumber_ext) sel)
                             (jnum 100)))
           (jnum 100))
    sel.
Proof.
  destruct sel as [v|]; [|reflexivity].
  intros n -> scaled Hq.
  unfold Protocol.mul100, js_or, or_default, option_map, ToNumber, times100.
  fold scaled. rewrite Hq. reflexivity.
Qed.

(** An event frame [42[...]] decodes to the JSON value of what follows
    the two digits. *)
Lemma parseSocketPacket_event (body : string) (v : jsval) :
  JSON_parse (String "[" body) = Some v ->
  parsePacket (String "4" (String "2" (String "[" body))) =
  Normal (Some (Protocol.mkPacket 2 "/" v None)).
Proof.
  intros H. unfold Protocol._parseSocketPacket, Protocol.JSON_parse_c.
  simpl. rewrite H. reflexivity.
Qed.

(** What a drawing packet contributes to the buffer. *)
Lemma point_of_drawing_packet (now : Z) (raw : string)
    (pkt : Protocol.SocketPacket) (name : string)
    (args : list (string * jsval)) (rest : list jsval) :
  parsePacket raw = Normal (Some pkt) ->
  Protocol.pk_type pkt = Protocol.MESSAGE_EVENT ->
  Protocol.pk_data pkt = JArr (JStr name :: JObj args :: rest) ->
  In name Protocol.DRAWING_EVENTS ->
  point_of_frame now (Recorder.Text raw) =
  Recorder._convertToStrokePoint
    (Protocol.mkEvent name
       (Protocol._normalizeDrawingData ToNumber_ext name (JObj args)) now).
Proof.
  intros Hp Ht Hd Hin.
  unfold Recorder.point_of_frame, Protocol.parse. rewrite Hp. simpl.
  unfold Protocol._extractDrawingData, Protocol._isDrawingEvent.
  rewrite Ht, Hd, Z.eqb_refl. cbn [negb].
  assert (E : Protocol.includes_event (JStr name) = true).
  { apply includes_event_spec. eauto. }
  rewrite E. reflexivity.
Qed.


End ConversionFacts.




(* ================================================================== *)
(** ** Facts about the recorder *)
(* ================================================================== *)

Lemma nth_error_store_same (h : list RecordingSession) (r : Recorder.ref)
    (s x : RecordingSession) :
  nth_error h r = Some x ->
  nth_error (Recorder.store r s h) r = Some s.
Proof.
  revert r; induction h as [|y h IH]; intros [|r] H; simpl in *;
    try discriminate; auto.
Qed.

Lemma store_length (h : list RecordingSession) (r : Recorder.ref)
    (s : RecordingSession) :
  List.length (Recorder.store r s h) = List.length h.
Proof.
  revert r; induction h as [|y h IH]; intros [|r]; simpl; auto.
Qed.

Lemma nth_error_snoc {A} (l : list A) (a : A) :
  nth_error (l ++ [a]) (List.length l) = Some a.
Proof.
  rewrite nth_error_app2 by lia. rewrite Nat.sub_diag. reflexivity.
Qed.

Lemma nth_error_app_left {A} (l : list A) (a x : A) (n : nat) :
  nth_error l n = Some x -> nth_error (l ++ [a]) n = Some x.
Proof.
  intros H. rewrite nth_error_app1; [exact H|].
  apply nth_error_Some. rewrite H. discriminate.
Qed.

Lemma sorted_last_bound (ts : list Z) (now x : Z) :
  StronglySorted Z.le (ts ++ [now]) -> In x ts -> x <= now.
Proof.
  induction ts as [|t ts IH]; simpl; intros Hs Hin; [contradiction|].
  inversion Hs as [|? ? Hs' Hall]; subst.
  destruct Hin as [->|Hin]; [|now apply IH].
  rewrite Forall_forall in Hall. apply Hall.
  apply in_or_app. right. now left.
Qed.

Lemma sorted_app_left (a b : list Z) :
  StronglySorted Z.le (a ++ b) -> StronglySorted Z.le a.
Proof.
  induction a as [|x a IH]; simpl; intros H; [constructor|].
  inversion H as [|? ? Hs Hall]; subst. constructor; [now apply IH|].
  rewrite Forall_forall in *. intros y Hy. apply Hall.
  apply in_or_app. now left.
Qed.

Section RecorderFacts.

Variable JSON_parse : string -> option jsval.
Variable ToNumber_ext : jsval -> number.

Local Abbreviation point_of_frame :=
  (Recorder.point_of_frame JSON_parse ToNumber_ext).
Local Abbreviation host_send := (Recorder.host_send JSON_parse ToNumber_ext).
Local Abbreviation step := (Recorder.step JSON_parse ToNumber_ext).
Local Abbreviation run := (Recorder.run JSON_parse ToNumber_ext).

(** What the [try] block does to the state: it may append one point to
    the buffer and call the data callback; nothing else changes, and
    whether it throws is of no concern to the state. *)
Lemma process_frame_effect (now : Z) (data : Recorder.frame)
    (session : RecordingSession) (st : Recorder.state) :
  let st' := snd (Recorder.process_frame JSON_parse ToNumber_ext now data
                    session st) in
  Recorder.strokeBuffer st' =
    Recorder.strokeBuffer st ++ opt_list (point_of_frame now data) /\
  Recorder.transport st' = Recorder.transport st /\
  Recorder.isRecording st' = Recorder.isRecording st /\
  Recorder.currentSession st' = Recorder.currentSession st /\
  Recorder.heap st' = Recorder.heap st /\
  Recorder.originalSend st' = Recorder.originalSend st /\
  Recorder.WebSocket_send st' = Recorder.WebSocket_send st /\
  Recorder.onDataCallback st' = Recorder.onDataCallback st.
Proof.
  unfold Recorder.process_frame, Recorder.point_of_frame.
  destruct data as [s|b].
  - destruct (Protocol.parse JSON_parse ToNumber_ext now s) as [[ev|]|e];
      [destruct (Recorder._convertToStrokePoint ev) as [p|];
       [destruct (Recorder.onDataCallback (Recorder.push_stroke p st))
          as [cb|] eqn:Ecb;
        [destruct (cb (Recorder.mkNotification "stroke" p (id session)))|]
       |]
      | |];
      cbn [snd opt_list Recorder.push_stroke Recorder.notify
           Recorder.strokeBuffer Recorder.transport Recorder.isRecording
           Recorder.currentSession Recorder.heap Recorder.originalSend
           Recorder.WebSocket_send Recorder.onDataCallback];
      rewrite ?app_nil_r; repeat split; reflexivity.
  - cbn [snd opt_list]. rewrite app_nil_r. repeat split; reflexivity.
Qed.

(** A send through the installed interception. *)
Lemma host_send_intercepted (now : Z) (data : Recorder.frame)
    (st : Recorder.state) (ts : list Z) :
  recorder_inv st ts ->
  Recorder.WebSocket_send st = Recorder.InterceptedSend ->
  exists st',
    host_send now data st = (Normal tt, st') /\
    Recorder.transport st' = Recorder.transport st ++ [data] /\
    Recorder.strokeBuffer st' =
      Recorder.strokeBuffer st ++
      (if Recorder.isRecording st then opt_list (point_of_frame now data)
       else []) /\
    Recorder.isRecording st' = Recorder.isRecording st /\
    Recorder.currentSession st' = Recorder.currentSession st /\
    Recorder.heap st' = Recorder.heap st /\
    Recorder.originalSend st' = Recorder.originalSend st /\
    Recorder.WebSocket_send st' = Recorder.WebSocket_send st /\
    Recorder.onDataCallback st' = Recorder.onDataCallback st /\
    (Recorder.isRecording st = false -> st' = Recorder.native_send data st) /\
    (forall b, data = Recorder.Binary b -> st' = Recorder.native_send data st).
Proof.
  intros [Hp Hl] Hws.
  destruct Hp as [[_ Hn]|[Ho _]]; [congruence|].
  unfold Recorder.host_send, Recorder._interceptedSend,
    Recorder.call_originalSend.
  rewrite Hws, Ho.
  unfold live_session in Hl.
  cbn [Recorder.isRecording Recorder.currentSession Recorder.native_send].
  destruct (Recorder.isRecording st) eqn:Hrec.
  - destruct Hl as (r & s & Hc & Hd & _).
    rewrite Hc.
    assert (Hd' : Recorder.deref (Recorder.native_send data st) r = Some s)
      by exact Hd.
    rewrite Hd'.
    pose proof (process_frame_effect now data s (Recorder.native_send data st))
      as E.
    destruct (Recorder.process_frame JSON_parse ToNumber_ext now data s
                (Recorder.native_send data st)) as [c st2] eqn:Epf.
    cbn [snd] in E. destruct E as (E1 & E2 & E3 & E4 & E5 & E6 & E7 & E8).
    exists st2. cbn [Recorder.native_send Recorder.strokeBuffer
                     Recorder.transport Recorder.isRecording
                     Recorder.currentSession Recorder.heap
                     Recorder.originalSend Recorder.WebSocket_send
                     Recorder.onDataCallback] in *.
    repeat split; try assumption; try congruence.
    intros b ->. cbn in Epf. injection Epf as _ <-. reflexivity.
  - exists (Recorder.native_send data st).
    cbn [Recorder.native_send Recorder.strokeBuffer Recorder.transport
         Recorder.isRecording Recorder.currentSession Recorder.heap
         Recorder.originalSend Recorder.WebSocket_send
         Recorder.onDataCallback].
    rewrite app_nil_r. repeat split; auto.
Qed.

Lemma recorder_inv_initial : recorder_inv Recorder.initial [].
Proof.
  split; [left; split; reflexivity | split; reflexivity].
Qed.

Lemma live_session_more (st : Recorder.state) (ts ts' : list Z) :
  (forall x, In x ts -> In x ts') ->
  live_session st ts -> live_session st ts'.
Proof.
  unfold live_session. intros Hsub.
  destruct (Recorder.isRecording st); [|auto].
  intros (r & s & H1 & H2 & H3 & H4 & H5 & H6). exists r, s. auto 10.
Qed.

(** [stopRecording] with no recording active. *)
Lemma stopRecording_idle (now : Z) (st : Recorder.state) :
  Recorder.isRecording st = false ->
  Recorder.stopRecording now st = (None, st).
Proof.
  intros H. unfold Recorder.stopRecording. rewrite H. reflexivity.
Qed.

(** [stopRecording] while recording: the live object is finalized in
    place and a copy of it is returned. *)
Lemma stopRecording_recording (now : Z) (st : Recorder.state) (ts : list Z) :
  recorder_inv st ts ->
  Recorder.isRecording st = true ->
  exists r s st',
    Recorder.currentSession st = Some r /\
    Recorder.deref st r = Some s /\
    strokes s = [] /\ In (startTime s) ts /\
    Recorder.stopRecording now st = (Some (List.length (Recorder.heap st)), st') /\
    let finalized :=
      mkSession (id s) (startTime s) now (Recorder.strokeBuffer st) (metadata s) in
    Recorder.deref st' r = Some finalized /\
    Recorder.deref st' (List.length (Recorder.heap st)) = Some finalized /\
    Recorder.isRecording st' = false /\
    Recorder.currentSession st' = None /\
    Recorder.strokeBuffer st' = [] /\
    Recorder.originalSend st' = Recorder.originalSend st /\
    Recorder.WebSocket_send st' = Recorder.WebSocket_send st /\
    Recorder.transport st' = Recorder.transport st /\
    Recorder.onDataCallback st' = Recorder.onDataCallback st.
Proof.
  intros [_ Hl] Hrec. unfold live_session in Hl. rewrite Hrec in Hl.
  destruct Hl as (r & s & Hc & Hd & Hs & _ & Hin & _).
  exists r, s. eexists.
  split; [exact Hc|]. split; [exact Hd|]. split; [exact Hs|].
  split; [exact Hin|].
  split.
  { unfold Recorder.stopRecording. rewrite Hrec, Hc, Hd, store_length.
    reflexivity. }
  cbn [Recorder.isRecording Recorder.currentSession Recorder.strokeBuffer
       Recorder.originalSend Recorder.WebSocket_send Recorder.transport
       Recorder.onDataCallback].
  split; [|split; [|repeat split]].
  - unfold Recorder.deref in *. cbn [Recorder.heap].
    apply nth_error_app_left. eapply nth_error_store_same. exact Hd.
  - unfold Recorder.deref. cbn [Recorder.heap].
    rewrite <- (store_length (Recorder.heap st) r
                  (mkSession (id s) (startTime s) now
                     (Recorder.strokeBuffer st) (metadata s))).
    apply nth_error_snoc.
Qed.

Lemma stopRecording_inv (now : Z) (st : Recorder.state) (ts : list Z) :
  recorder_inv st ts ->
  recorder_inv (snd (Recorder.stopRecording now st)) (ts ++ [now]).
Proof.
  intros Hinv. destruct (Recorder.isRecording st) eqn:Hrec.
  - destruct (stopRecording_recording now st ts Hinv Hrec)
      as (r & s & st' & _ & _ & _ & _ & -> & _ & _ & H1 & H2 & H3 & H4 & H5 & _).
    cbn [snd]. destruct Hinv as [Hp _]. split.
    + unfold patched in *. rewrite H4, H5. exact Hp.
    + unfold live_session. rewrite H1. auto.
  - rewrite (stopRecording_idle now st Hrec). cbn [snd].
    destruct Hinv as [Hp Hl]. split; [exact Hp|].
    eapply live_session_more; [|exact Hl].
    intros x Hx. apply in_or_app. now left.
Qed.

Lemma patchWebSocket_patched (st : Recorder.state) :
  patched st ->
  patched (Recorder._patchWebSocket st) /\
  Recorder.WebSocket_send (Recorder._patchWebSocket st) = Recorder.InterceptedSend /\
  Recorder.originalSend (Recorder._patchWebSocket st) = Some Recorder.NativeSend.
Proof.
  unfold patched, Recorder._patchWebSocket.
  intros [[Ho Hw]|[Ho Hw]]; rewrite Ho; cbn; rewrite ?Hw; auto.
Qed.

Lemma patchWebSocket_fields (st : Recorder.state) :
  let st' := Recorder._patchWebSocket st in
  Recorder.isRecording st' = Recorder.isRecording st /\
  Recorder.currentSession st' = Recorder.currentSession st /\
  Recorder.strokeBuffer st' = Recorder.strokeBuffer st /\
  Recorder.heap st' = Recorder.heap st /\
  Recorder.transport st' = Recorder.transport st /\
  Recorder.onDataCallback st' = Recorder.onDataCallback st.
Proof.
  unfold Recorder._patchWebSocket.
  destruct (Recorder.originalSend st); cbn; auto 10.
Qed.

(** [startRecording]: a fresh live session, an empty buffer, the
    interception installed. *)
Lemma startRecording_effect (a b c : Z) (rnd : string) (st : Recorder.state)
    (ts : list Z) :
  recorder_inv st ts ->
  exists r st',
    Recorder.startRecording a b c rnd st = (r, st') /\
    recorder_inv st' (ts ++ [a; b; c]) /\
    Recorder.isRecording st' = true /\
    Recorder.currentSession st' = Some r /\
    Recorder.deref st' r =
      Some (mkSession (Recorder._generateSessionId b rnd) c 0 []
              (JObj [("version"%string, JStr "1.0");
                     ("source"%string, JStr "gartic-phone-extension")])) /\
    Recorder.strokeBuffer st' = [] /\
    Recorder.WebSocket_send st' = Recorder.InterceptedSend /\
    Recorder.onDataCallback st' = Recorder.onDataCallback st /\
    Recorder.transport st' = Recorder.transport st.
Proof.
  intros Hinv.
  set (st1 := if Recorder.isRecording st
              then snd (Recorder.stopRecording a st) else st).
  assert (H1 : patched st1 /\
               Recorder.onDataCallback st1 = Recorder.onDataCallback st /\
               Recorder.transport st1 = Recorder.transport st).
  { subst st1. destruct (Recorder.isRecording st) eqn:Hrec.
    - destruct (stopRecording_recording a st ts Hinv Hrec)
        as (r & s & st' & _ & _ & _ & _ & -> & _ & _ & _ & _ & _ & H4 & H5 & H6 & H7).
      cbn [snd]. destruct Hinv as [Hp _].
      unfold patched in *. rewrite H4, H5. auto.
    - destruct Hinv; auto. }
  destruct H1 as (Hp1 & Hcb1 & Htr1).
  destruct (patchWebSocket_patched st1 Hp1) as (Hp2 & Hw2 & Ho2).
  destruct (patchWebSocket_fields st1) as (_ & _ & _ & Hh & Htr2 & Hcb2).
  unfold Recorder.startRecording. fold st1.
  eexists _, _. split; [reflexivity|].
  cbn [Recorder.isRecording Recorder.currentSession Recorder.strokeBuffer
       Recorder.WebSocket_send Recorder.onDataCallback Recorder.transport].
  repeat split; try reflexivity; try congruence.
  - unfold patched in *.
    cbn [Recorder.originalSend Recorder.WebSocket_send]. exact Hp2.
  - unfold live_session.
    cbn [Recorder.isRecording Recorder.currentSession].
    eexists _, _. split; [reflexivity|]. split.
    + unfold Recorder.deref. cbn [Recorder.heap]. apply nth_error_snoc.
    + cbn [strokes endTime startTime Recorder.WebSocket_send].
      repeat split; [|exact Hw2].
      apply in_or_app. right. simpl. auto.
  - unfold Recorder.deref. cbn [Recorder.heap]. apply nth_error_snoc.
Qed.

Lemma host_send_native (now : Z) (data : Recorder.frame) (st : Recorder.state) :
  Recorder.WebSocket_send st = Recorder.NativeSend ->
  host_send now data st = (Normal tt, Recorder.native_send data st).
Proof.
  intros H. unfold Recorder.host_send. rewrite H. reflexivity.
Qed.

Lemma host_send_inv (now : Z) (data : Recorder.frame) (st : Recorder.state)
    (ts : list Z) :
  recorder_inv st ts ->
  recorder_inv (snd (host_send now data st)) (ts ++ [now]).
Proof.
  intros Hinv.
  assert (Hsub : forall x, In x ts -> In x (ts ++ [now]))
    by (intros x Hx; apply in_or_app; now left).
  destruct (Recorder.WebSocket_send st) eqn:Hws.
  - rewrite (host_send_native now data st Hws). cbn [snd].
    destruct Hinv as [Hp Hl]. split; [exact Hp|].
    eapply live_session_more; [exact Hsub | exact Hl].
  - destruct (host_send_intercepted now data st ts Hinv Hws)
      as (st' & -> & _ & Hb & Hr & Hc & Hh & Ho & Hw & _ & Hidle & _).
    cbn [snd]. destruct Hinv as [Hp Hl]. split.
    + unfold patched in *. rewrite Ho, Hw. exact Hp.
    + unfold live_session in *. rewrite Hr.
      destruct (Recorder.isRecording st) eqn:Hrec.
      * destruct Hl as (r & s & H1 & H2 & H3 & H4 & H5 & H6).
        exists r, s. unfold Recorder.deref in *. rewrite Hc, Hh, Hw. auto 10.
      * rewrite Hc, Hb, app_nil_r. exact Hl.
Qed.

Lemma destroy_inv (now : Z) (st : Recorder.state) (ts : list Z) :
  recorder_inv st ts ->
  recorder_inv (Recorder.destroy now st) (ts ++ [now]).
Proof.
  intros Hinv. unfold Recorder.destroy.
  set (st1 := if Recorder.isRecording st
              then snd (Recorder.stopRecording now st) else st).
  assert (H1 : patched st1 /\ Recorder.isRecording st1 = false /\
               Recorder.currentSession st1 = None).
  { subst st1. destruct (Recorder.isRecording st) eqn:Hrec.
    - destruct (stopRecording_recording now st ts Hinv Hrec)
        as (r & s & st' & _ & _ & _ & _ & -> & _ & _ & H1 & H2 & _ & H4 & H5 & _).
      cbn [snd]. destruct Hinv as [Hp _].
      unfold patched in *. rewrite H4, H5. auto.
    - destruct Hinv as [Hp Hl]. unfold live_session in Hl.
      rewrite Hrec in Hl. destruct Hl. auto. }
  destruct H1 as (Hp & Hr & Hc). split.
  - unfold patched, Recorder._unpatchWebSocket in *.
    destruct Hp as [[Ho Hw]|[Ho Hw]]; rewrite Ho; cbn; auto.
  - unfold live_session, Recorder._unpatchWebSocket.
    destruct (Recorder.originalSend st1); cbn; rewrite Hr; auto.
Qed.

Lemma step_inv (o : Recorder.op) (st : Recorder.state) (ts : list Z) :
  recorder_inv st ts ->
  recorder_inv (step st o) (ts ++ Recorder.op_times o).
Proof.
  intros Hinv. destruct o as [|a b c rnd|now|now data|cb|now];
    cbn [Recorder.step Recorder.op_times].
  - rewrite app_nil_r. destruct Hinv as [Hp Hl].
    destruct (patchWebSocket_patched st Hp) as (Hp' & Hw' & _).
    destruct (patchWebSocket_fields st) as (Hr & Hc & Hb & Hh & _).
    split; [exact Hp'|]. unfold live_session, Recorder.deref, Recorder.init in *.
    rewrite Hr, Hc, Hb, Hh, Hw'.
    destruct (Recorder.isRecording st); [|exact Hl].
    destruct Hl as (r & s & H1 & H2 & H3 & H4 & H5 & H6).
    exists r, s. auto 10.
  - destruct (startRecording_effect a b c rnd st ts Hinv)
      as (r & st' & -> & H & _). exact H.
  - now apply stopRecording_inv.
  - now apply host_send_inv.
  - rewrite app_nil_r. exact Hinv.
  - now apply destroy_inv.
Qed.

Lemma run_inv (ops : list Recorder.op) (st : Recorder.state) (ts : list Z) :
  recorder_inv st ts ->
  recorder_inv (run st ops) (ts ++ times ops).
Proof.
  revert st ts. induction ops as [|o ops IH]; intros st ts Hinv.
  - unfold times. simpl. rewrite app_nil_r. exact Hinv.
  - unfold times. simpl. rewrite app_assoc.
    apply IH. now apply step_inv.
Qed.

Lemma reachable_inv (ops : list Recorder.op) :
  recorder_inv (run Recorder.initial ops) (times ops).
Proof. exact (run_inv ops Recorder.initial [] recorder_inv_initial). Qed.

(** Sends while recording, through the installed interception. *)
Lemma run_sends (frames : list (Z * Recorder.frame)) (st : Recorder.state)
    (ts : list Z) :
  recorder_inv st ts ->
  Recorder.isRecording st = true ->
  let st' := run st (Recorder.sends frames) in
  recorder_inv st' (ts ++ map fst frames) /\
  Recorder.isRecording st' = true /\
  Recorder.currentSession st' = Recorder.currentSession st /\
  Recorder.heap st' = Recorder.heap st /\
  Recorder.strokeBuffer st' =
    Recorder.strokeBuffer st ++
    Recorder.captured JSON_parse ToNumber_ext frames.
Proof.
  revert st ts. induction frames as [|[t d] frames IH]; intros st ts Hinv Hrec.
  - cbn. rewrite !app_nil_r. auto.
  - cbn [Recorder.sends map Recorder.run fold_left Recorder.step fst snd].
    assert (Hws : Recorder.WebSocket_send st = Recorder.InterceptedSend).
    { destruct Hinv as [_ Hl]. unfold live_session in Hl. rewrite Hrec in Hl.
      destruct Hl as (r & s & _ & _ & _ & _ & _ & H). exact H. }
    pose proof (host_send_inv t d st ts Hinv) as Hinv1.
    destruct (host_send_intercepted t d st ts Hinv Hws)
      as (st1 & E & _ & Hb & Hr & Hc & Hh & _).
    rewrite E in *. cbn [snd] in *.
    rewrite Hrec in Hr, Hb.
    destruct (IH st1 (ts ++ [t]) Hinv1 Hr) as (I1 & I2 & I3 & I4 & I5).
    fold (Recorder.sends frames).
    fold (Recorder.run JSON_parse ToNumber_ext st1 (Recorder.sends frames)).
    rewrite <- app_assoc in I1. cbn [app] in I1.
    split; [exact I1|]. split; [exact I2|].
    split; [congruence|]. split; [congruence|].
    rewrite I5, Hb, <- app_assoc. f_equal.
Qed.

(** C5.  With the interception installed, a frame the page sends goes
    through the recorder's callback, which hands it to the real send
    unchanged and exactly once as its first action, and returns
    normally: whether or not a recording is active, whether the frame
    is text or binary, whether the decoder (or the data callback)
    fails.  What the recorder keeps of the frame is the point decoded
    from that very frame. *)
Theorem interception_forwards_unmodified (ops : list Recorder.op) (now : Z)
    (data : Recorder.frame) :
  let st := run Recorder.initial ops in
  Recorder.WebSocket_send st = Recorder.InterceptedSend ->
  exists st',
    host_send now data st = (Normal tt, st') /\
    Recorder._interceptedSend JSON_parse ToNumber_ext now data st
      = (Normal tt, st') /\
    Recorder.transport st' = Recorder.transport st ++ [data] /\
    Recorder.strokeBuffer st' =
      Recorder.strokeBuffer st ++
      (if Recorder.isRecording st then opt_list (point_of_frame now data)
       else []) /\
    (Recorder.isRecording st = false -> st' = Recorder.native_send data st) /\
    (forall b, data = Recorder.Binary b -> st' = Recorder.native_send data st).
Proof.
  intros st Hws.
  destruct (host_send_intercepted now data st (times ops) (reachable_inv ops) Hws)
    as (st' & E & Ht & Hb & _ & _ & _ & _ & _ & _ & Hidle & Hbin).
  exists st'. split; [exact E|]. split.
  - unfold Recorder.host_send in E. rewrite Hws in E. exact E.
  - auto.
Qed.

(** C6, amended.  After [startRecording], sends and [stopRecording],
    the session returned holds the captured points in capture order,
    starts at the reading of the clock taken at the start and ends at
    the reading taken at the stop; endTime >= startTime holds when the
    second reading is not below the first, which the code does not
    check.  Every session returned by [stopRecording] has the buffered
    points as strokes, and endTime >= startTime when the readings of
    the clock do not decrease; with no recording active
    [stopRecording] returns null and changes nothing. *)
Theorem stopRecording_finalizes :
  (forall ops a b c rnd frames now,
     let st1 := snd (Recorder.startRecording a b c rnd
                       (run Recorder.initial ops)) in
     let st2 := run st1 (Recorder.sends frames) in
     exists r st3 s,
       Recorder.stopRecording now st2 = (Some r, st3) /\
       Recorder.deref st3 r = Some s /\
       strokes s = Recorder.captured JSON_parse ToNumber_ext frames /\
       startTime s = c /\ endTime s = now /\
       (c <= now -> endTime s >= startTime s) /\
       (now < c -> endTime s < startTime s)) /\
  (forall ops now r st',
     StronglySorted Z.le (times ops ++ [now]) ->
     Recorder.stopRecording now (run Recorder.initial ops) = (Some r, st') ->
     exists s,
       Recorder.deref st' r = Some s /\
       strokes s = Recorder.strokeBuffer (run Recorder.initial ops) /\
       endTime s = now /\ endTime s >= startTime s) /\
  (forall ops now,
     Recorder.isRecording (run Recorder.initial ops) = false ->
     Recorder.stopRecording now (run Recorder.initial ops)
       = (None, run Recorder.initial ops)).
Proof.
  split; [|split].
  - intros ops a b c rnd frames now st1 st2.
    destruct (startRecording_effect a b c rnd (run Recorder.initial ops)
                (times ops) (reachable_inv ops))
      as (r0 & st1' & E & Hinv1 & Hrec1 & Hc1 & Hd1 & Hb1 & _).
    subst st2 st1. rewrite E. cbn [snd].
    destruct (run_sends frames st1' _ Hinv1 Hrec1) as (Hinv2 & Hrec2 & Hc2 & Hh2 & Hb2).
    set (st2 := run st1' (Recorder.sends frames)) in *.
    destruct (stopRecording_recording now st2 _ Hinv2 Hrec2)
      as (r & s & st3 & Hc & Hd & _ & _ & Es & _ & Hd3 & _).
    assert (Hs : s = mkSession (Recorder._generateSessionId b rnd) c 0 []
                       (JObj [("version"%string, JStr "1.0");
                              ("source"%string, JStr "gartic-phone-extension")])).
    { rewrite Hc2, Hc1 in Hc. injection Hc as <-.
      unfold Recorder.deref in *. rewrite Hh2, Hd1 in Hd. now injection Hd. }
    eexists _, st3, _. split; [exact Es|]. split; [exact Hd3|].
    cbn [strokes startTime endTime]. rewrite Hb2, Hb1, Hs. cbn.
    repeat split; lia.
  - intros ops now r st' Hsorted E.
    pose proof (reachable_inv ops) as Hinv.
    destruct (Recorder.isRecording (run Recorder.initial ops)) eqn:Hrec.
    + destruct (stopRecording_recording now _ _ Hinv Hrec)
        as (r0 & s & st3 & _ & _ & _ & Hin & Es & _ & Hd3 & _).
      rewrite Es in E. injection E as <- <-.
      eexists. split; [exact Hd3|]. cbn [strokes startTime endTime].
      repeat split.
      pose proof (sorted_last_bound _ _ _ Hsorted Hin). lia.
    + rewrite (stopRecording_idle now _ Hrec) in E. discriminate.
  - intros ops now Hrec. now apply stopRecording_idle.
Qed.

(** C8.  While recording, the object [getCurrentSession] returns has
    an empty strokes array and keeps it through every send; the points
    captured only lengthen the buffer that [getStrokeCount] measures;
    [stopRecording] writes the buffer into that object and into the
    copy it returns. *)
Theorem live_session_strokes_empty (ops : list Recorder.op) :
  let st := run Recorder.initial ops in
  Recorder.isRecording st = true ->
  exists r s,
    Recorder.getCurrentSession st = Some r /\
    Recorder.deref st r = Some s /\
    strokes s = [] /\
    (forall now data,
       let st' := snd (host_send now data st) in
       Recorder.isRecording st' = true /\
       Recorder.getCurrentSession st' = Some r /\
       Recorder.deref st' r = Some s /\
       Recorder.getStrokeCount st' =
         (Recorder.getStrokeCount st +
          List.length (opt_list (point_of_frame now data)))%nat) /\
    (forall now,
       exists r' st' s',
         Recorder.stopRecording now st = (Some r', st') /\
         Recorder.deref st' r = Some s' /\
         Recorder.deref st' r' = Some s' /\
         strokes s' = Recorder.strokeBuffer st).
Proof.
  intros st Hrec.
  pose proof (reachable_inv ops) as Hinv. fold st in Hinv.
  pose proof Hinv as [_ Hl]. unfold live_session in Hl. rewrite Hrec in Hl.
  destruct Hl as (r & s & Hc & Hd & Hs & _ & _ & Hws).
  exists r, s. split; [exact Hc|]. split; [exact Hd|]. split; [exact Hs|].
  split.
  - intros now data.
    destruct (host_send_intercepted now data st _ Hinv Hws)
      as (st' & E & _ & Hb & Hr & Hc' & Hh & _).
    rewrite E. cbn [snd]. unfold Recorder.getCurrentSession,
      Recorder.getStrokeCount, Recorder.deref in *.
    rewrite Hr, Hc', Hh, Hb, Hrec, length_app. auto.
  - intros now.
    destruct (stopRecording_recording now st _ Hinv Hrec)
      as (r0 & s0 & st3 & Hc0 & _ & _ & _ & Es & Hd1 & Hd2 & _).
    assert (r0 = r) by congruence. subst r0.
    eexists _, st3, _. split; [exact Es|].
    split; [exact Hd1|]. split; [exact Hd2|]. reflexivity.
Qed.

End RecorderFacts.

(** C5 on a recording with a throwing data callback: the draw frame
    reaches the socket, the send returns, one point is buffered. *)
Lemma interception_forwards_unmodified_witness :
  let run := Recorder.run RefJSON.parse RefJSON.ToNumber_ext in
  let st :=
    run Recorder.initial
        [Recorder.OpSetCallback (Some Frames.throwing);
         Recorder.OpStart 100 100 100 "k3x9q1z7a"] in
  exists st',
    Recorder.host_send RefJSON.parse RefJSON.ToNumber_ext 101
      (Recorder.Text Frames.scenario) st = (Normal tt, st') /\
    Recorder.transport st' = [Recorder.Text Frames.scenario] /\
    List.length (Recorder.strokeBuffer st') = 1%nat.
Proof.
  intros run st.
  destruct (interception_forwards_unmodified RefJSON.parse RefJSON.ToNumber_ext
              [Recorder.OpSetCallback (Some Frames.throwing);
               Recorder.OpStart 100 100 100 "k3x9q1z7a"]
              101 (Recorder.Text Frames.scenario) eq_refl)
    as (st' & H1 & _ & H2 & H3 & _).
  exists st'. split; [exact H1|]. split; [exact H2|].
  rewrite H3. vm_compute. reflexivity.
Defined.

(** C6 on the scenario: start, two draw frames among other traffic,
    stop. *)
Lemma stopRecording_finalizes_witness :
  let run := Recorder.run RefJSON.parse RefJSON.ToNumber_ext in
  (exists r st3 s,
     Recorder.stopRecording 105 (run Recorder.initial Frames.session_calls)
       = (Some r, st3) /\
     Recorder.deref st3 r = Some s /\
     List.length (strokes s) = 2%nat /\
     endTime s >= startTime s) /\
  (exists s,
     Recorder.deref
       (snd (Recorder.stopRecording 105
               (run Recorder.initial Frames.session_calls))) 1%nat = Some s /\
     endTime s >= startTime s) /\
  Recorder.stopRecording 105 (run Recorder.initial [Recorder.OpInit])
    = (None, run Recorder.initial [Recorder.OpInit]).
Proof.
  intros run.
  destruct (stopRecording_finalizes RefJSON.parse RefJSON.ToNumber_ext)
    as (T1 & T2 & T3).
  split; [|split].
  - destruct (T1 [Recorder.OpInit; Recorder.OpSetCallback (Some Frames.throwing)]
                100 100 100 "k3x9q1z7a"%string Frames.two_draws 105)
      as (r & st3 & s & H1 & H2 & H3 & _ & _ & H6 & _).
    exists r, st3, s. split; [exact H1|]. split; [exact H2|].
    split; [rewrite H3; vm_compute; reflexivity | apply H6; lia].
  - destruct (T2 Frames.session_calls 105 1%nat
                (snd (Recorder.stopRecording 105
                        (run Recorder.initial Frames.session_calls))))
      as (s & H1 & _ & _ & H4).
    + cbv [times flat_map Frames.session_calls Frames.two_draws
           Recorder.sends map Recorder.op_times app fst snd].
      repeat (constructor; [|repeat constructor; lia]). constructor.
    + vm_compute. reflexivity.
    + exists s. split; [exact H1 | exact H4].
  - apply (T3 [Recorder.OpInit] 105). vm_compute. reflexivity.
Defined.

(** C6 as stated fails on the code.  The two times are two readings of
    [Date.now()], which follows the clock of the system: when that
    clock is set back between the start (reading 100) and the stop
    (reading 50), the session returned ends before it starts. *)
Lemma stopRecording_clock_counterexample :
  let st := Recorder.run RefJSON.parse RefJSON.ToNumber_ext Recorder.initial
              Frames.session_calls in
  exists r st3 s,
    Recorder.stopRecording 50 st = (Some r, st3) /\
    Recorder.deref st3 r = Some s /\
    List.length (strokes s) = 2%nat /\
    startTime s = 100 /\ endTime s = 50 /\ endTime s < startTime s.
Proof.
  intros st.
  assert (E : Recorder.stopRecording 50 st
              = (Some 1%nat, snd (Recorder.stopRecording 50 st)))
    by (vm_compute; reflexivity).
  destruct (Recorder.deref (snd (Recorder.stopRecording 50 st)) 1%nat)
    as [s|] eqn:Es; [|vm_compute in Es; discriminate Es].
  exists 1%nat, (snd (Recorder.stopRecording 50 st)), s.
  split; [exact E|]. split; [exact Es|].
  vm_compute in Es. injection Es as <-.
  repeat split.
Qed.

(** C8 on a recording that has captured one point. *)
Lemma live_session_strokes_empty_witness :
  let run := Recorder.run RefJSON.parse RefJSON.ToNumber_ext in
  let st :=
    run Recorder.initial
        [Recorder.OpStart 100 100 100 "k3x9q1z7a";
         Recorder.OpSend 101 (Recorder.Text Frames.scenario)] in
  Recorder.getStrokeCount st = 1%nat /\
  exists r s,
    Recorder.getCurrentSession st = Some r /\
    Recorder.deref st r = Some s /\
    strokes s = [].
Proof.
  intros run st. split; [vm_compute; reflexivity|].
  destruct (live_session_strokes_empty RefJSON.parse RefJSON.ToNumber_ext
              [Recorder.OpStart 100 100 100 "k3x9q1z7a";
               Recorder.OpSend 101 (Recorder.Text Frames.scenario)] eq_refl)
    as (r & s & H1 & H2 & H3 & _).
  exists r, s. auto.
Defined.


(* ================================================================== *)
(** ** Facts about the player *)
(* ================================================================== *)

Section PlayerFacts.

Local Open Scope Q_scope.

Lemma emits_app (st : Player.state) (a b : list Player.canvas_op) :
  Player.emits st (a ++ b) = Player.emits (Player.emits st a) b.
Proof. unfold Player.emits. apply fold_left_app. Qed.

Lemma emits_fields (l : list Player.canvas_op) (st : Player.state) :
  let st' := Player.emits st l in
  Player.drawn st' = Player.drawn st ++ l /\
  Player.speed st' = Player.speed st /\
  Player.loop st' = Player.loop st /\
  Player.currentSession st' = Player.currentSession st /\
  Player.canvas st' = Player.canvas st /\
  Player.isPlaying st' = Player.isPlaying st /\
  Player.isPaused st' = Player.isPaused st /\
  Player.currentStrokeIndex st' = Player.currentStrokeIndex st /\
  Player.onStateChangeCallback st' = Player.onStateChangeCallback st /\
  Player.state_changes st' = Player.state_changes st /\
  Player.pending st' = Player.pending st.
Proof.
  revert st. induction l as [|o l IH]; intros st.
  - cbn. rewrite app_nil_r. repeat split; reflexivity.
  - cbn [Player.emits fold_left].
    destruct (IH (Player.emit st o)) as (H1 & H2).
    unfold Player.emits in *. cbn zeta. rewrite H1.
    cbn [Player.emit Player.drawn]. rewrite <- app_assoc.
    split; [reflexivity|]. exact H2.
Qed.

Lemma drawPoint_emits (point : StrokePoint) (prev : option StrokePoint)
    (st : Player.state) (c : Player.Canvas) :
  Player.canvas st = Some c ->
  Player._drawPoint point prev st =
  Player.emits st (Player.chain_from prev [point]).
Proof.
  intros H. unfold Player._drawPoint. rewrite H.
  destruct prev; reflexivity.
Qed.

Lemma chain_from_cons (prev : option StrokePoint) (point : StrokePoint)
    (l : list StrokePoint) :
  Player.chain_from prev (point :: l) =
  Player.chain_from prev [point] ++ Player.chain_from (Some point) l.
Proof. destruct prev; reflexivity. Qed.

Lemma skipn_nth_cons {A} (l : list A) (i : nat) (x : A) :
  nth_error l i = Some x -> skipn i l = x :: skipn (S i) l.
Proof.
  revert i. induction l as [|y l IH]; intros [|i] E; simpl in *;
    try discriminate.
  - now injection E as ->.
  - now apply IH.
Qed.

(** The loop of [seek] draws the chain of the strokes it walks. *)
Lemma redraw_emits (n i : nat) (session : RecordingSession)
    (prev : option StrokePoint) (st : Player.state) (c : Player.Canvas) :
  Player.canvas st = Some c ->
  (i + n <= List.length (strokes session))%nat ->
  Player.redraw n i session prev st =
  Player.emits st
    (Player.chain_from prev (firstn n (skipn i (strokes session)))).
Proof.
  revert i prev st. induction n as [|n IH]; intros i prev st Hc Hlen.
  - reflexivity.
  - cbn [Player.redraw].
    destruct (nth_error (strokes session) i) as [point|] eqn:E.
    + rewrite (skipn_nth_cons _ _ _ E).
      cbn [firstn]. rewrite chain_from_cons, emits_app.
      rewrite <- (drawPoint_emits point prev st c Hc).
      apply (IH (S i) (Some point)).
      * unfold Player._drawPoint. rewrite Hc. destruct prev; exact Hc.
      * lia.
    + apply nth_error_None in E. lia.
Qed.

(** The loop of a frame draws a chain that starts afresh: its first
    stroke has no predecessor. *)
Lemma draw_strokes_effect (budget : nat) (session : RecordingSession)
    (prev : option StrokePoint) (st : Player.state) (c : Player.Canvas) :
  Player.canvas st = Some c ->
  let pts := firstn budget (skipn (Player.currentStrokeIndex st) (strokes session)) in
  let st' := Player.draw_strokes budget session prev st in
  Player.drawn st' = Player.drawn st ++ Player.chain_from prev pts /\
  Player.currentStrokeIndex st' =
    (Player.currentStrokeIndex st + List.length pts)%nat /\
  Player.currentSession st' = Player.currentSession st /\
  Player.canvas st' = Player.canvas st /\
  Player.speed st' = Player.speed st /\
  Player.state_changes st' = Player.state_changes st.
Proof.
  revert prev st. induction budget as [|b IH]; intros prev st Hc.
  - cbn. rewrite app_nil_r, Nat.add_0_r. repeat split; reflexivity.
  - cbn [Player.draw_strokes].
    destruct (nth_error (strokes session) (Player.currentStrokeIndex st))
      as [point|] eqn:E.
    + rewrite (skipn_nth_cons _ _ _ E). cbn [firstn List.length].
      rewrite chain_from_cons. cbn zeta.
      set (st1 := Player.set_index (Player._drawPoint point prev st)
                    (S (Player.currentStrokeIndex
                          (Player._drawPoint point prev st)))).
      assert (H1 : Player.canvas st1 = Some c /\
                   Player.currentStrokeIndex st1
                     = S (Player.currentStrokeIndex st) /\
                   Player.drawn st1
                     = Player.drawn st ++ Player.chain_from prev [point] /\
                   Player.currentSession st1 = Player.currentSession st /\
                   Player.speed st1 = Player.speed st /\
                   Player.state_changes st1 = Player.state_changes st).
      { subst st1. unfold Player._drawPoint. rewrite Hc.
        destruct prev; cbn; rewrite Hc; repeat split; reflexivity. }
      destruct H1 as (C1 & I1 & D1 & S1 & V1 & N1).
      destruct (IH (Some point) st1 C1) as (H1 & H2 & H3 & H4 & H5 & H6).
      cbn zeta in *. rewrite I1 in *.
      rewrite H1, H2, H3, H4, H5, H6, D1, S1, C1, V1, N1, <- app_assoc.
      repeat split; try reflexivity; try assumption; [lia | now rewrite Hc].
    + assert (Hs : skipn (Player.currentStrokeIndex st) (strokes session) = []).
      { apply skipn_all2. now apply nth_error_None. }
      rewrite Hs. cbn. rewrite app_nil_r, Nat.add_0_r.
      repeat split; reflexivity.
Qed.

Lemma redraw_no_canvas (n i : nat) (session : RecordingSession)
    (prev : option StrokePoint) (st : Player.state) :
  Player.canvas st = None ->
  Player.redraw n i session prev st = st.
Proof.
  revert i prev. induction n as [|n IH]; intros i prev Hc; [reflexivity|].
  cbn [Player.redraw]. destruct (nth_error (strokes session) i); [|reflexivity].
  unfold Player._drawPoint. rewrite Hc. now apply IH.
Qed.

Lemma notify_fields (name : string) (st : Player.state) :
  let st' := Player._notifyStateChange name st in
  Player.currentSession st' = Player.currentSession st /\
  Player.canvas st' = Player.canvas st /\
  Player.drawn st' = Player.drawn st /\
  Player.currentStrokeIndex st' = Player.currentStrokeIndex st /\
  Player.isPlaying st' = Player.isPlaying st /\
  Player.isPaused st' = Player.isPaused st /\
  Player.speed st' = Player.speed st.
Proof.
  unfold Player._notifyStateChange.
  destruct (Player.onStateChangeCallback st); cbn; repeat split; reflexivity.
Qed.

Lemma play_fields (now : Q) (st : Player.state) :
  let st' := snd (Player.play now st) in
  Player.currentSession st' = Player.currentSession st /\
  Player.canvas st' = Player.canvas st /\
  Player.drawn st' = Player.drawn st /\
  Player.currentStrokeIndex st' = Player.currentStrokeIndex st /\
  Player.speed st' = Player.speed st.
Proof.
  unfold Player.play.
  destruct (Player.currentSession st) eqn:E; [|cbn; rewrite E; auto].
  destruct (Player.isPlaying st && negb (Player.isPaused st));
    [cbn; rewrite E; auto|].
  cbn [snd].
  match goal with
  | |- context [Player._notifyStateChange ?n ?s] =>
      destruct (notify_fields n s) as (H1 & H2 & H3 & H4 & _ & _ & H7)
  end.
  cbn zeta. rewrite H1, H2, H3, H4, H7. cbn. rewrite E. auto.
Qed.

Lemma onComplete_fields (now : Q) (st : Player.state) :
  let st' := Player._onComplete now st in
  Player.currentSession st' = Player.currentSession st /\
  Player.canvas st' = Player.canvas st /\
  Player.drawn st' = Player.drawn st /\
  Player.currentStrokeIndex st' = Player.currentStrokeIndex st /\
  Player.speed st' = Player.speed st.
Proof.
  unfold Player._onComplete.
  set (st1 := Player.cancelAnimationFrame (Player.set_flags st false false)).
  assert (E : Player.currentSession st1 = Player.currentSession st /\
              Player.canvas st1 = Player.canvas st /\
              Player.drawn st1 = Player.drawn st /\
              Player.currentStrokeIndex st1 = Player.currentStrokeIndex st /\
              Player.speed st1 = Player.speed st)
    by (subst st1; cbn; auto).
  destruct E as (E1 & E2 & E3 & E4 & E5).
  destruct (Player.loop st1).
  - destruct (play_fields now st1) as (H1 & H2 & H3 & H4 & H5).
    cbn zeta in *. rewrite H1, H2, H3, H4, H5. auto.
  - match goal with
    | |- context [Player._notifyStateChange ?n ?s] =>
        destruct (notify_fields n s) as (H1 & H2 & H3 & H4 & _ & _ & H7)
    end.
    cbn zeta in *. rewrite H1, H2, H3, H4, H7.
    destruct (Player.onCompleteCallback st1); cbn; auto.
Qed.

(** A frame while playing, with strokes left: what it draws and where
    it leaves the cursor. *)
Lemma animationLoop_draws (timestamp now : Q) (st : Player.state)
    (session : RecordingSession) (c : Player.Canvas) :
  Player.isPlaying st = true ->
  Player.isPaused st = false ->
  Player.currentSession st = Some session ->
  Player.canvas st = Some c ->
  (Player.currentStrokeIndex st < List.length (strokes session))%nat ->
  let budget :=
    iterations
      (Player._calculateStrokesPerFrame st
         (Double.sub (Fin timestamp) (Fin (Player.lastFrameTime st))))
      (List.length (strokes session)) in
  let pts :=
    firstn budget (skipn (Player.currentStrokeIndex st) (strokes session)) in
  let st' := Player._animationLoop timestamp now st in
  Player.drawn st' = Player.drawn st ++ Player.chain pts /\
  Player.currentStrokeIndex st' =
    (Player.currentStrokeIndex st + List.length pts)%nat /\
  Player.currentSession st' = Player.currentSession st /\
  Player.canvas st' = Player.canvas st.
Proof.
  intros Hp Hq Hs Hc Hlt. unfold Player._animationLoop.
  rewrite Hp, Hq. cbn [negb orb Player.set_lastFrameTime Player.currentSession
                       Player.currentStrokeIndex].
  rewrite Hs.
  destruct (Nat.leb_spec (List.length (strokes session))
              (Player.currentStrokeIndex st)) as [H|_]; [lia|].
  set (st1 := Player.set_lastFrameTime st timestamp).
  assert (Hc1 : Player.canvas st1 = Some c) by exact Hc.
  pose proof (draw_strokes_effect
                (iterations
                   (Player._calculateStrokesPerFrame st1
                      (Double.sub (Fin timestamp)
                                  (Fin (Player.lastFrameTime st))))
                   (List.length (strokes session)))
                session None st1 c Hc1) as E.
  cbn zeta in E. destruct E as (E1 & E2 & E3 & E4 & _).
  cbn zeta. cbn [Player.requestAnimationFrame Player.drawn
                 Player.currentStrokeIndex Player.currentSession Player.canvas].
  fold st1. rewrite E1, E2, E3, E4.
  repeat split; first [reflexivity | exact Hs | exact Hc].
Qed.

(** *** Every reachable state with a session has a surface *)

Lemma surface_transfer (st st' : Player.state) :
  Player.currentSession st' = Player.currentSession st ->
  Player.canvas st' = Player.canvas st ->
  Player.has_surface st -> Player.has_surface st'.
Proof. unfold Player.has_surface. intros -> ->. auto. Qed.

Lemma animationLoop_surface (timestamp now : Q) (st : Player.state) :
  Player.has_surface st ->
  Player.has_surface (Player._animationLoop timestamp now st).
Proof.
  intros Hs. unfold Player._animationLoop.
  destruct (negb (Player.isPlaying st) || Player.isPaused st); [exact Hs|].
  set (st1 := Player.set_lastFrameTime st timestamp).
  assert (Hs1 : Player.has_surface st1) by exact Hs.
  cbn zeta.
  destruct (Player.currentSession st1) as [session|] eqn:E.
  - destruct (List.length (strokes session) <=? Player.currentStrokeIndex st1)%nat.
    + destruct (onComplete_fields now st1) as (H1 & H2 & _).
      now apply (surface_transfer st1).
    + destruct (Player.canvas st1) as [c|] eqn:Ec.
      * destruct (draw_strokes_effect
                    (iterations
                       (Player._calculateStrokesPerFrame st1
                          (Double.sub (Fin timestamp)
                                      (Fin (Player.lastFrameTime st))))
                       (List.length (strokes session)))
                    session None st1 c Ec) as (_ & _ & H3 & H4 & _).
        apply (surface_transfer st1); [exact H3 | exact H4 | exact Hs1].
      * exfalso. apply Hs1; [rewrite E; discriminate | exact Ec].
  - destruct (onComplete_fields now st1) as (H1 & H2 & _).
    now apply (surface_transfer st1).
Qed.

Lemma drawPoint_surface (point : StrokePoint) (prev : option StrokePoint)
    (st : Player.state) :
  Player.currentSession (Player._drawPoint point prev st)
    = Player.currentSession st /\
  Player.canvas (Player._drawPoint point prev st) = Player.canvas st.
Proof.
  unfold Player._drawPoint.
  destruct (Player.canvas st) eqn:E; [destruct prev|]; cbn; auto.
Qed.

Lemma redraw_surface (n i : nat) (session : RecordingSession)
    (prev : option StrokePoint) (st : Player.state) :
  Player.currentSession (Player.redraw n i session prev st)
    = Player.currentSession st /\
  Player.canvas (Player.redraw n i session prev st) = Player.canvas st.
Proof.
  revert i prev st. induction n as [|n IH]; intros i prev st; [auto|].
  cbn [Player.redraw]. destruct (nth_error (strokes session) i); [|auto].
  destruct (IH (S i) (Some s) (Player._drawPoint s prev st)) as (H1 & H2).
  destruct (drawPoint_surface s prev st) as (H3 & H4).
  rewrite H1, H2. auto.
Qed.

Lemma clearCanvas_surface (st : Player.state) :
  Player.currentSession (Player._clearCanvas st) = Player.currentSession st /\
  Player.canvas (Player._clearCanvas st) = Player.canvas st.
Proof.
  unfold Player._clearCanvas. destruct (Player.canvas st) eqn:E; cbn; auto.
Qed.

Lemma seek_surface (progress : Q) (st : Player.state) :
  Player.has_surface st -> Player.has_surface (snd (Player.seek progress st)).
Proof.
  intros Hs. unfold Player.seek.
  destruct (Player.currentSession st) as [session|] eqn:E; [|exact Hs].
  cbn [snd].
  match goal with
  | |- Player.has_surface (Player._notifyStateChange ?n ?s) =>
      destruct (notify_fields n s) as (H1 & H2 & _);
      apply (surface_transfer s); [exact H1 | exact H2 |]
  end.
  match goal with
  | |- context [Player.redraw ?n ?i ?se ?pv ?s] =>
      destruct (redraw_surface n i se pv s) as (H3 & H4)
  end.
  destruct (clearCanvas_surface st) as (H5 & H6).
  apply (surface_transfer st); [| |exact Hs];
    cbn [Player.set_index Player.currentSession Player.canvas]; congruence.
Qed.

Lemma stop_surface (st : Player.state) :
  Player.has_surface st -> Player.has_surface (snd (Player.stop st)).
Proof.
  intros Hs. unfold Player.stop.
  destruct (negb (Player.isPlaying st)); [exact Hs|]. cbn [snd].
  match goal with
  | |- Player.has_surface (Player._notifyStateChange ?n ?s) =>
      destruct (notify_fields n s) as (H1 & H2 & _);
      apply (surface_transfer s); [exact H1 | exact H2 |]
  end.
  match goal with
  | |- Player.has_surface (Player._clearCanvas ?s) =>
      destruct (clearCanvas_surface s) as (H3 & H4);
      apply (surface_transfer s); [exact H3 | exact H4 |]
  end.
  exact Hs.
Qed.

Lemma step_surface (ext : jsval -> number) (o : Player.op) (st : Player.state) :
  Player.has_surface st -> Player.has_surface (Player.step ext st o).
Proof.
  intros Hs. destruct o; cbn [Player.step].
  - unfold Player.loadSession. destruct session as [s|]; [|exact Hs].
    destruct (strokes s); [exact Hs|]. cbn [snd].
    unfold Player.has_surface. intros _.
    destruct (Player.canvas st) eqn:E; cbn; rewrite ?E; cbn; rewrite ?E;
      discriminate.
  - destruct (play_fields now st) as (H1 & H2 & _).
    now apply (surface_transfer st).
  - unfold Player.pause.
    destruct (negb (Player.isPlaying st) || Player.isPaused st); [exact Hs|].
    cbn [snd].
    match goal with
    | |- Player.has_surface (Player._notifyStateChange ?n ?s) =>
        destruct (notify_fields n s) as (H1 & H2 & _);
        apply (surface_transfer s); [exact H1 | exact H2 | exact Hs]
    end.
  - unfold Player.resume.
    destruct (negb (Player.isPlaying st) || negb (Player.isPaused st));
      [exact Hs|].
    cbn [snd].
    match goal with
    | |- Player.has_surface (Player._notifyStateChange ?n ?s) =>
        destruct (notify_fields n s) as (H1 & H2 & _);
        apply (surface_transfer s); [exact H1 | exact H2 | exact Hs]
    end.
  - now apply stop_surface.
  - now apply seek_surface.
  - exact Hs.
  - unfold Player.frame. destruct (Player.pending st); [exact Hs|].
    apply animationLoop_surface. exact Hs.
  - exact Hs.
  - exact Hs.
  - unfold Player.has_surface, Player.destroy. cbn. congruence.
Qed.

Lemma run_surface (ext : jsval -> number) (ops : list Player.op)
    (st : Player.state) :
  Player.has_surface st -> Player.has_surface (Player.run ext st ops).
Proof.
  revert st. induction ops as [|o ops IH]; intros st Hs; [exact Hs|].
  cbn. apply IH. now apply step_surface.
Qed.

Lemma create_surface (cfg_speed : option Q) (cfg_loop : option bool) :
  Player.has_surface (Player.create cfg_speed cfg_loop).
Proof. unfold Player.has_surface. cbn. congruence. Qed.

(** *** Clamping and rounding *)

Lemma Qclamp_spec (lo hi x : Q) :
  Qle_bool hi lo = false ->
  lo <= Player.Qclamp lo hi x <= hi /\
  (hi <= x -> Player.Qclamp lo hi x = hi) /\
  (x <= lo -> Player.Qclamp lo hi x = lo) /\
  (lo <= x <= hi -> Player.Qclamp lo hi x == x).
Proof.
  intros Hlt.
  assert (Hlh : lo < hi).
  { apply Qnot_le_lt. intros H. apply Qle_bool_iff in H. congruence. }
  unfold Player.Qclamp.
  destruct (Qle_bool hi x) eqn:E1.
  - rewrite Hlt. apply Qle_bool_iff in E1.
    repeat split; try reflexivity.
    + now apply Qlt_le_weak.
    + apply Qle_refl.
    + intros H. exfalso.
      apply (Qlt_irrefl lo). eapply Qlt_le_trans; [exact Hlh|].
      eapply Qle_trans; eassumption.
    + intros [_ H]. now apply Qle_antisym.
  - assert (Hx : x < hi).
    { apply Qnot_le_lt. intros H. apply Qle_bool_iff in H. congruence. }
    destruct (Qle_bool x lo) eqn:E2.
    + apply Qle_bool_iff in E2. repeat split; try reflexivity.
      * apply Qle_refl.
      * now apply Qlt_le_weak.
      * intros H. exfalso. apply (Qlt_irrefl x).
        eapply Qlt_le_trans; eassumption.
      * intros [H _]. now apply Qle_antisym.
    + assert (Hl : lo < x).
      { apply Qnot_le_lt. intros H. apply Qle_bool_iff in H. congruence. }
      repeat split; try reflexivity.
      * now apply Qlt_le_weak.
      * now apply Qlt_le_weak.
      * intros H. exfalso. apply (Qlt_irrefl x).
        eapply Qlt_le_trans; eassumption.
      * intros H. exfalso. apply (Qlt_irrefl x).
        eapply Qle_lt_trans; eassumption.
Qed.

(** The target of a seek is within the session, rounded as the
    product is. *)
Lemma floor_of_fraction {A : Type} (c : Q) (l : list A) :
  0 <= c <= 1 ->
  (Z.to_nat (Qfloor (Double.rnd (c * array_length l))) <= List.length l)%nat.
Proof.
  intros [H0 H1]. unfold array_length.
  set (m := Z.min (Z.of_nat (List.length l)) 4294967295).
  assert (Hm : (0 <= m <= Z.of_nat (List.length l))%Z) by (subst m; lia).
  assert (Hb : (m < 2 ^ 53)%Z).
  { apply Z.le_lt_trans with (m := 4294967295%Z); [subst m; lia | reflexivity]. }
  assert (Hn : 0 <= inject_Z m).
  { change 0 with (inject_Z 0). rewrite <- Zle_Qle. lia. }
  assert (Hle : 0 <= c * inject_Z m <= inject_Z m).
  { split; [now apply Qmult_le_0_compat|].
    rewrite <- (Qmult_1_l (inject_Z m)) at 2.
    now apply Qmult_le_compat_r. }
  destruct (rnd_bounds _ m Hb Hle) as [_ Hr].
  apply Qfloor_resp_le in Hr. rewrite Qfloor_Z in Hr. lia.
Qed.

Lemma array_length_small {A : Type} (l : list A) :
  (Z.of_nat (List.length l) <= 4294967295)%Z ->
  array_length l = inject_Z (Z.of_nat (List.length l)).
Proof. intros H. unfold array_length. now rewrite Z.min_l. Qed.

Lemma chain_from_visible (prev : option StrokePoint) (l : list StrokePoint)
    (acc : list Player.canvas_op) :
  Player.visible_from acc (Player.chain_from prev l)
  = acc ++ Player.chain_from prev l.
Proof.
  revert prev acc. induction l as [|x l IH]; intros prev acc.
  - cbn. now rewrite app_nil_r.
  - destruct prev; cbn; rewrite IH, <- app_assoc; reflexivity.
Qed.

Lemma visible_after_clear (log rest acc : list Player.canvas_op) :
  Player.visible_from acc (log ++ Player.Clear :: rest)
  = Player.visible_from [] rest.
Proof.
  revert acc. induction log as [|o log IH]; intros acc; [reflexivity|].
  destruct o; cbn; apply IH.
Qed.

Lemma firstn_min_length {A : Type} (b : nat) (l : list A) :
  firstn (Nat.min b (List.length l)) l = firstn b l.
Proof.
  destruct (Nat.le_gt_cases b (List.length l)) as [H|H].
  - now rewrite Nat.min_l.
  - rewrite Nat.min_r by lia. rewrite firstn_all, firstn_all2 by lia.
    reflexivity.
Qed.

Lemma round_not_NaN (q : Q) : Double.round q <> NaN.
Proof.
  unfold Double.round.
  destruct (Qle_bool _ _); [discriminate|].
  destruct (Qle_bool _ _); discriminate.
Qed.

Lemma mul_not_NaN (x : Q) (b : number) :
  Qeq_bool x 0 = false -> b <> NaN -> Double.mul (Fin x) b <> NaN.
Proof.
  intros Hx Hb. destruct b as [y|t|]; cbn [Double.mul].
  - apply round_not_NaN.
  - rewrite Hx. discriminate.
  - congruence.
Qed.

Lemma floor_not_NaN (a : number) : a <> NaN -> Math_floor a <> NaN.
Proof. destruct a; cbn; congruence. Qed.

(** [Math.max(1, f)] is at least 1, and a loop bounded by it makes at
    least one round. *)
Lemma max1_iterations (f : number) (n : nat) :
  f <> NaN -> (1 <= n)%nat ->
  Double.le (Fin 1) (Math_max (Fin 1) f) = true /\
  (1 <= iterations (Math_max (Fin 1) f) n)%nat.
Proof.
  intros Hf Hn. destruct f as [z|[|]|]; [| | |congruence].
  - unfold Math_max. cbn [Double.le].
    destruct (Qle_bool 1 z) eqn:E.
    + rewrite E. split; [reflexivity|]. cbn [iterations].
      apply Qle_bool_iff in E. apply Qceiling_resp_le in E.
      change (Qceiling 1) with 1%Z in E. lia.
    + split; [reflexivity|]. cbn. lia.
  - cbn. split; [reflexivity | lia].
  - cbn. split; [reflexivity | exact Hn].
Qed.

(** At an integer speed from 1 to 99 the strokes per millisecond are
    a positive double. *)
Lemma strokesPerMs_positive (s : Z) :
  (1 <= s <= 99)%Z ->
  exists r,
    Double.mul (Double.div (Fin 1) (Fin 16))
               (Double.div (Fin (inject_Z s)) (Fin 50)) = Fin r /\
    Qeq_bool r 0 = false.
Proof.
  intros Hs.
  set (f := fun v : Z =>
              Double.mul (Double.div (Fin 1) (Fin 16))
                         (Double.div (Fin (inject_Z v)) (Fin 50))).
  set (ok := fun v : Z =>
               match f v with
               | Fin r => negb (Qeq_bool r 0)
               | _ => false
               end).
  assert (Hall : forallb ok (map Z.of_nat (seq 1 99)) = true)
    by (vm_compute; reflexivity).
  rewrite forallb_forall in Hall.
  assert (Hin : In s (map Z.of_nat (seq 1 99))).
  { rewrite <- (Z2Nat.id s) by lia. apply in_map, in_seq. lia. }
  specialize (Hall s Hin). unfold ok in Hall. fold (f s).
  destruct (f s) as [r| |]; try discriminate.
  exists r. split; [reflexivity|]. now apply Bool.negb_true_iff.
Qed.

(** *** The claims about the player *)



(** C10.  [stop()] on a player that is not playing returns false and
    changes nothing: the cursor, the progress and the notifications
    sent stay as they were.  The frame that finds the playback complete
    (loop off) leaves the player in that state. *)
Theorem stop_when_idle :
  (forall st : Player.state,
     Player.isPlaying st = false ->
     Player.stop st = (false, st) /\
     Player.currentStrokeIndex (snd (Player.stop st))
       = Player.currentStrokeIndex st /\
     Player.getProgress (snd (Player.stop st)) = Player.getProgress st /\
     Player.state_changes (snd (Player.stop st)) = Player.state_changes st) /\
  (forall (st : Player.state) (session : RecordingSession) (timestamp now : Q),
     Player.isPlaying st = true ->
     Player.isPaused st = false ->
     Player.loop st = false ->
     Player.currentSession st = Some session ->
     (List.length (strokes session) <= Player.currentStrokeIndex st)%nat ->
     let st1 := Player._animationLoop timestamp now st in
     Player.isPlaying st1 = false /\
     Player.currentStrokeIndex st1 = Player.currentStrokeIndex st /\
     Player.stop st1 = (false, st1)).
Proof.
  split.
  - intros st H. unfold Player.stop. rewrite H. cbn. auto.
  - intros st session timestamp now Hp Hq Hl Hs Hend st1.
    assert (E : st1 = Player._onComplete now
                        (Player.set_lastFrameTime st timestamp)).
    { subst st1. unfold Player._animationLoop. rewrite Hp, Hq.
      cbn [negb orb Player.set_lastFrameTime Player.currentSession
           Player.currentStrokeIndex]. rewrite Hs.
      destruct (Nat.leb_spec (List.length (strokes session))
                  (Player.currentStrokeIndex st)) as [_|H]; [reflexivity|lia]. }
    assert (F : Player.isPlaying st1 = false /\
                Player.currentStrokeIndex st1 = Player.currentStrokeIndex st).
    { rewrite E. unfold Player._onComplete.
      cbn [Player.cancelAnimationFrame Player.set_flags
           Player.set_lastFrameTime Player.loop Player.onCompleteCallback].
      rewrite Hl.
      match goal with
      | |- context [Player._notifyStateChange ?nm ?s] =>
          destruct (notify_fields nm s) as (_ & _ & _ & -> & -> & _)
      end.
      destruct (Player.onCompleteCallback st); cbn; auto. }
    destruct F as (F1 & F2). split; [exact F1|]. split; [exact F2|].
    unfold Player.stop. rewrite F1. reflexivity.
Qed.

End PlayerFacts.





(** C10 on a fresh player and on one whose playback has completed. *)
Lemma stop_when_idle_witness :
  let fresh := Player.create None None in
  let played :=
    Player.run RefJSON.ToNumber_ext fresh
      (Frames.playback ++ [Player.OpFrame 64 64])%Q in
  Player.stop fresh = (false, fresh) /\
  Player.isPlaying played = false /\
  Player.stop played = (false, played) /\
  Player.getProgress (snd (Player.stop played)) = Player.getProgress played.
Proof.
  intros fresh played.
  destruct stop_when_idle as (T1 & T2).
  split; [|split; [|split]].
  - destruct (T1 fresh eq_refl) as (H & _). exact H.
  - destruct (T2 (Player.run RefJSON.ToNumber_ext fresh Frames.playback)
                Frames.three 64%Q 64%Q eq_refl eq_refl eq_refl eq_refl)
      as (H & _); [vm_compute; lia | exact H].
  - destruct (T1 played eq_refl) as (H & _). exact H.
  - destruct (T1 played eq_refl) as (_ & _ & H & _). exact H.
Defined.

(** C2, the code at a three-stroke session played at the default
    speed with frames 16 ms apart: each frame draws one stroke and
    draws it as a dot, where the chain of the claim (and of [seek] on
    the same session) joins the second and third stroke to their
    predecessors. *)
Theorem playback_restarts_chain_each_frame :
  let loaded := Player.run RefJSON.ToNumber_ext (Player.create None None)
                  [Player.OpLoad (Some Frames.three)] in
  let played := Player.run RefJSON.ToNumber_ext (Player.create None None)
                  Frames.playback in
  Player.drawn played =
    [Player.Dot Frames.p0; Player.Dot Frames.p1; Player.Dot Frames.p2] /\
  Player.currentStrokeIndex played = 3%nat /\
  Player.chain (strokes Frames.three) =
    [Player.Dot Frames.p0; Player.Line Frames.p0 Frames.p1;
     Player.Line Frames.p1 Frames.p2] /\
  Player.visible (snd (Player.seek 1 loaded)) =
    Player.chain (strokes Frames.three).
Proof.
  vm_compute. repeat split; reflexivity.
Qed.

(* ================================================================== *)
(** ** Facts about export and import *)
(* ================================================================== *)

Lemma ends_with_app (suffix a : string) :
  IO.ends_with suffix (a ++ suffix) = true.
Proof.
  induction a as [|c a IH].
  - cbn [String.append]. destruct suffix; cbn [IO.ends_with];
      rewrite String.eqb_refl; reflexivity.
  - cbn [String.append IO.ends_with]. rewrite IH. apply Bool.orb_true_r.
Qed.

(** A value without [NaN] and infinities comes back from its text as
    it is. *)
Lemma JSON_image_finite : forall v : jsval,
  finite_value v = true -> JSON_image v = v.
Proof.
  fix IH 1. intros [|b|[q|t|]|str|elems|props] H; cbn in H |- *;
    try reflexivity; try discriminate H.
  - f_equal. induction elems as [|x l IHl]; [reflexivity|].
    cbn in H |- *. apply andb_prop in H. destruct H as [H1 H2].
    rewrite (IH x H1), (IHl H2). reflexivity.
  - f_equal. induction props as [|[k x] l IHl]; [reflexivity|].
    cbn in H |- *. apply andb_prop in H. destruct H as [H1 H2].
    rewrite (IH x H1), (IHl H2). reflexivity.
Qed.

Lemma point_image_finite (p : StrokePoint) :
  IO.finite_point p = true -> IO.point_image p = p.
Proof.
  unfold IO.finite_point, IO.point_image. intros H.
  repeat (apply andb_prop in H; let H' := fresh "F" in destruct H as [H H']).
  destruct p as [ty x y px py sz col op tm ac]. cbn [sp_type sp_x sp_y
    sp_prevX sp_prevY sp_size sp_color sp_opacity sp_time sp_action] in *.
  rewrite !JSON_image_finite by assumption.
  destruct px as [px|]; destruct py as [py|]; cbn [option_map];
    rewrite ?JSON_image_finite by assumption; reflexivity.
Qed.

Lemma map_point_image_finite (l : list StrokePoint) :
  forallb IO.finite_point l = true -> map IO.point_image l = l.
Proof.
  induction l as [|p l IH]; [reflexivity|]. cbn. intros H.
  apply andb_prop in H. destruct H as [H1 H2].
  rewrite (point_image_finite p H1), (IH H2). reflexivity.
Qed.

(** The file that [exportRecording] names passes the type check of
    the import, and when its text is read back the import resolves to
    the session built from what was read. *)
Lemma importRecording_read_back (parse_data : string -> option IO.ImportData)
    (now : Z) (fileName type text : string) (session : RecordingSession) :
  let file := IO.mkFile type (fileName ++ IO.FILE_EXTENSION) text in
  file_type_ok file = true /\
  (parse_data text = Some (IO.read_back (IO.exportData session)) ->
   IO.importRecording parse_data now (Some file)
     = IO.Resolved (IO.import_session now
                      (IO.read_back (IO.exportData session)))).
Proof.
  intros file.
  assert (Hok : IO.ends_with IO.FILE_EXTENSION
                  (fileName ++ IO.FILE_EXTENSION) = true)
    by apply ends_with_app.
  split.
  - unfold file_type_ok, file. cbn [IO.file_type IO.file_name].
    rewrite Hok. apply Bool.orb_true_r.
  - intros Hp. unfold IO.importRecording, file.
    cbn [IO.file_type IO.file_name IO.file_text].
    rewrite Hok, Bool.andb_false_r, Hp. reflexivity.
Qed.

(** The session built from what is read back. *)
Lemma import_session_read_back (now : Z) (s : RecordingSession) :
  let s' := IO.import_session now (IO.read_back (IO.exportData s)) in
  strokes s' = map IO.point_image (strokes s) /\
  startTime s' = startTime s /\
  endTime s' = endTime s /\
  id s' = (if String.eqb (id s) "" then "imported_" ++ Str.of_Z now
           else id s)%string /\
  metadata s' =
    js_or (Some (JSON_image (js_or (Some (metadata s)) (JObj [])))) (JObj []).
Proof.
  unfold IO.import_session, IO.read_back, IO.exportData, IO.num_or, IO.str_or.
  cbn [IO.im_session IO.im_strokes IO.im_metadata IO.is_id IO.is_startTime
       IO.is_endTime IO.ed_session IO.ed_strokes IO.ed_metadata IO.ss_id
       IO.ss_startTime IO.ss_endTime id startTime endTime strokes metadata].
  split; [reflexivity|]. split.
  { destruct (startTime s =? 0)%Z eqn:E; [apply Z.eqb_eq in E|]; congruence. }
  split.
  { destruct (endTime s =? 0)%Z eqn:E; [apply Z.eqb_eq in E|]; congruence. }
  split; reflexivity.
Qed.




(* ================================================================== *)
(** ** More about the decoder *)
(* ================================================================== *)

Section DecoderMore.

Variable JSON_parse : string -> option jsval.
Variable ToNumber_ext : jsval -> number.

Local Abbreviation parsePacket := (Protocol._parseSocketPacket JSON_parse).
Local Abbreviation parse := (Protocol.parse JSON_parse ToNumber_ext).


(** X2.  The two pre-filters against [parse]: a frame [isPing] accepts
    is never a drawing event; a frame that is a drawing event either
    passes [isMessage] or has no leading digit at all; and the frames
    [2[...] that the second branch of [isMessage] accepts are all
    dropped by [parse]. *)
Theorem prefilters_against_parse (now : Z) (raw : string) :
  (Protocol.isPing raw = true -> parse now raw = Normal None) /\
  (forall ev, parse now raw = Normal (Some ev) ->
              Protocol.isPing raw = false /\
              (Protocol.isMessage raw = true \/
               Str.starts_with_digit raw = false)) /\
  (forall rest, raw = String "2" (String "[" rest) ->
                Protocol.isMessage raw = true /\
                parse now raw = Normal None).
Proof.
  assert (Hping : Protocol.isPing raw = true -> parse now raw = Normal None).
  { unfold Protocol.isPing, Str.starts_with_char.
    destruct raw as [|c rest]; [discriminate|].
    intros H. apply Ascii.eqb_eq in H. subst c.
    apply parse_other_engine_type; [reflexivity | discriminate]. }
  split; [exact Hping|]. split.
  - intros ev Hev. split.
    + destruct (Protocol.isPing raw) eqn:E; [|reflexivity].
      rewrite (Hping eq_refl) in Hev. discriminate.
    + destruct raw as [|c rest]; [right; reflexivity|].
      destruct (Str.is_digit c) eqn:Hd; [|right; exact Hd].
      left. destruct (Z.eq_dec (Str.digit_val c) 4) as [E4|N4].
      * assert (c = "4"%char).
        { unfold Str.is_digit, Str.digit_val in *.
          apply andb_prop in Hd. destruct Hd as [H1 H2].
          apply Nat.leb_le in H1. apply Nat.leb_le in H2.
          assert (Hn : nat_of_ascii c = 52%nat) by lia.
          rewrite <- (ascii_nat_embedding c), Hn. reflexivity. }
        subst c. reflexivity.
      * rewrite (parse_other_engine_type JSON_parse ToNumber_ext
                   now c rest Hd N4) in Hev. discriminate.
  - intros rest ->. split; [reflexivity|].
    apply Hping. reflexivity.
Qed.

(** X3.  A packet with an acknowledgement id is never a drawing event:
    the id is matched only when a comma follows it, the comma stays at
    the head of the payload text, and a text that starts with a comma
    is not JSON, so the payload is kept as a string. *)
Theorem ack_id_frames_never_events (now : Z) (raw : string)
    (pkt : Protocol.SocketPacket) :
  (forall s, JSON_parse (String "," s) = None) ->
  parsePacket raw = Normal (Some pkt) ->
  Protocol.pk_id pkt <> None ->
  (exists s, Protocol.pk_data pkt = JStr (String "," s)) /\
  parse now raw = Normal None.
Proof.
  intros Hcomma Hp Hid.
  assert (Hdata : exists s, Protocol.pk_data pkt = JStr (String "," s)).
  { revert Hp Hid.
    unfold Protocol._parseSocketPacket, Protocol.JSON_parse_c.
    destruct (match raw with
              | String c rest =>
                  if Str.is_digit c then (Some (Str.digit_val c), rest)
                  else (None, raw)
              | EmptyString => (None, raw)
              end) as [engineType s1].
    destruct (match engineType with
              | Some t => negb (t =? Protocol.PACKET_MESSAGE)
              | None => false
              end); [discriminate|].
    destruct (Str.starts_with_digit s1); cbn [negb].
    - destruct (if Str.starts_with_char "/" (Str.drop 1 s1)
                then match Str.indexOf "," (Str.drop 1 s1) with
                     | Some e => (Str.take e (Str.drop 1 s1),
                                  Str.drop (e + 1) (Str.drop 1 s1))
                     | None => ("/"%string, Str.drop 1 s1)
                     end
                else ("/"%string, Str.drop 1 s1)) as [namespace s2].
      unfold Str.match_id.
      destruct (Str.span_digits s2) as [ds rest] eqn:Hspan.
      assert (Hrest : Str.drop (String.length ds) s2 = rest).
      { clear -Hspan. revert ds rest Hspan.
        induction s2 as [|c r IH]; intros ds rest Hspan; simpl in Hspan.
        - injection Hspan as <- <-. reflexivity.
        - destruct (Str.is_digit c).
          + destruct (Str.span_digits r) as [d t] eqn:E.
            injection Hspan as <- <-. simpl. now apply IH.
          + injection Hspan as <- <-. reflexivity. }
      destruct ds as [|d ds'].
      + destruct (JSON_parse s2); simpl; intros H; injection H as <-;
          simpl; intros Hid; now elim Hid.
      + destruct (Str.starts_with_char "," rest) eqn:Hc.
        * rewrite Hrest.
          destruct rest as [|c rest']; [discriminate|].
          cbn [Str.starts_with_char] in Hc.
          apply Ascii.eqb_eq in Hc. subst c. rewrite Hcomma. simpl.
          intros H; injection H as <-. simpl. eauto.
        * destruct (JSON_parse s2); simpl; intros H; injection H as <-;
            simpl; intros Hid; now elim Hid.
    - destruct (JSON_parse s1); simpl; [|discriminate].
      intros H; injection H as <-. simpl. intros Hid; now elim Hid. }
  split; [exact Hdata|].
  apply (parse_not_a_list JSON_parse ToNumber_ext now raw pkt Hp).
  destruct Hdata as [s ->]. intros e es; discriminate.
Qed.

Lemma indexOf_app_comma (ns body : string) :
  Str.indexOf "," ns = None ->
  Str.indexOf "," (ns ++ String "," body) = Some (String.length ns).
Proof.
  induction ns as [|c r IH];
    cbn [Str.indexOf String.append String.length]; [reflexivity|].
  destruct (Ascii.eqb "," c); [intros H; discriminate H|].
  destruct (Str.indexOf "," r); [intros H; discriminate H|].
  intros _. rewrite (IH eq_refl). reflexivity.
Qed.

Lemma take_app_length (a b : string) :
  Str.take (String.length a) (a ++ b) = a.
Proof. induction a as [|c r IH]; simpl; [now destruct b | now rewrite IH]. Qed.

Lemma drop_app_length (a b : string) :
  Str.drop (String.length a) (a ++ b) = b.
Proof. induction a as [|c r IH]; simpl; auto. Qed.

(** X4.  A namespace in front of the payload changes nothing but the
    namespace of the packet: the frame [42/ns,body] decodes to the
    payload and id of [42body] and yields the same drawing event. *)
Theorem namespace_is_transparent (now : Z) (ns body : string) :
  Str.indexOf "," ns = None ->
  Str.starts_with_char "/" body = false ->
  let with_ns := String "4" (String "2" (String "/" (ns ++ String "," body))) in
  let without := String "4" (String "2" body) in
  (forall pkt,
     parsePacket without = Normal (Some pkt) ->
     parsePacket with_ns =
       Normal (Some (Protocol.mkPacket (Protocol.pk_type pkt) (String "/" ns)
                       (Protocol.pk_data pkt) (Protocol.pk_id pkt)))) /\
  parse now with_ns = parse now without.
Proof.
  intros Hns Hbody with_ns without.
  assert (Hidx : Str.indexOf "," (String "/" (ns ++ String "," body))
                 = Some (S (String.length ns))).
  { simpl. now rewrite (indexOf_app_comma ns body Hns). }
  assert (Htake : Str.take (S (String.length ns))
                    (String "/" (ns ++ String "," body)) = String "/" ns).
  { simpl. now rewrite take_app_length. }
  assert (Hdrop : Str.drop (S (String.length ns) + 1)
                    (String "/" (ns ++ String "," body)) = body).
  { replace (S (String.length ns) + 1)%nat
      with (S (String.length ns + 1)) by lia.
    cbn [Str.drop]. rewrite <- drop_drop, drop_app_length. reflexivity. }
  assert (Hpkt :
            parsePacket with_ns =
            match parsePacket without with
            | Normal (Some pkt) =>
                Normal (Some (Protocol.mkPacket (Protocol.pk_type pkt)
                                (String "/" ns) (Protocol.pk_data pkt)
                                (Protocol.pk_id pkt)))
            | r => r
            end).
  { subst with_ns without. unfold Protocol._parseSocketPacket.
    change (Str.is_digit "4") with true. cbv iota.
    change (negb (Str.digit_val "4" =? Protocol.PACKET_MESSAGE)) with false.
    cbv iota.
    change (Str.starts_with_digit (String "2" body)) with true.
    change (Str.starts_with_digit
              (String "2" (String "/" (ns ++ String "," body)))) with true.
    cbn [negb].
    change (Str.drop 1 (String "2" body)) with body.
    change (Str.drop 1 (String "2" (String "/" (ns ++ String "," body))))
      with (String "/" (ns ++ String "," body)).
    change (Str.starts_with_char "/" (String "/" (ns ++ String "," body)))
      with true. cbv iota.
    rewrite Hidx, Htake, Hdrop, Hbody.
    destruct (Str.match_id body) as [ds|];
      destruct (Protocol.JSON_parse_c JSON_parse _) as [v|e]; reflexivity. }
  split.
  - intros pkt H. rewrite Hpkt, H. reflexivity.
  - unfold Protocol.parse. rewrite Hpkt.
    destruct (parsePacket without) as [[pkt|]|e]; reflexivity.
Qed.

End DecoderMore.

Lemma RefJSON_rejects_leading_comma (s : string) :
  RefJSON.parse (String "," s) = None.
Proof.
  unfold RefJSON.parse.
  replace (2 * String.length (String "," s) + 2)%nat
    with (S (2 * String.length (String "," s) + 1))%nat by lia.
  reflexivity.
Qed.


(** X2 on a ping, on the scenario frame and on an event frame without
    the transport digit. *)
Lemma prefilters_against_parse_witness :
  let parse := Protocol.parse RefJSON.parse RefJSON.ToNumber_ext 7 in
  parse Frames.ping = Normal None /\
  Protocol.isPing Frames.scenario = false /\
  parse (RefJSON.js "2['draw',{'x':1}]") = Normal None.
Proof.
  intros parse. split; [|split].
  - apply (proj1 (prefilters_against_parse RefJSON.parse RefJSON.ToNumber_ext
                    7 Frames.ping)). reflexivity.
  - destruct (prefilters_against_parse RefJSON.parse RefJSON.ToNumber_ext
                7 Frames.scenario) as (_ & T & _).
    destruct (Protocol.parse RefJSON.parse RefJSON.ToNumber_ext 7
                Frames.scenario) as [[ev|]|e] eqn:H.
    + exact (proj1 (T ev eq_refl)).
    + vm_compute in H. discriminate H.
    + vm_compute in H. discriminate H.
  - destruct (prefilters_against_parse RefJSON.parse RefJSON.ToNumber_ext
                7 (RefJSON.js "2['draw',{'x':1}]")) as (_ & _ & T).
    exact (proj2 (T _ eq_refl)).
Defined.

(** X3 on a draw event sent with the acknowledgement id 12. *)
Lemma ack_id_frames_never_events_witness :
  Protocol.parse RefJSON.parse RefJSON.ToNumber_ext 7
    (RefJSON.js "4212,['draw',{'x':1}]") = Normal None.
Proof.
  refine (proj2 (ack_id_frames_never_events RefJSON.parse RefJSON.ToNumber_ext
                   7 (RefJSON.js "4212,['draw',{'x':1}]")
                   (Protocol.mkPacket 2 "/"
                      (JStr (RefJSON.js ",['draw',{'x':1}]")) (Some 12))
                   RefJSON_rejects_leading_comma _ _)).
  - vm_compute. reflexivity.
  - discriminate.
Defined.

(** X4 on the scenario frame in the namespace /game. *)
Lemma namespace_is_transparent_witness :
  Protocol.parse RefJSON.parse RefJSON.ToNumber_ext 7
    (String "4" (String "2" (String "/"
       ("game" ++ String "," (Str.drop 2 Frames.scenario)))))
  = Protocol.parse RefJSON.parse RefJSON.ToNumber_ext 7
      (String "4" (String "2" (Str.drop 2 Frames.scenario))).
Proof.
  apply (proj2 (namespace_is_transparent RefJSON.parse RefJSON.ToNumber_ext 7
                  "game" (Str.drop 2 Frames.scenario) eq_refl eq_refl)).
Defined.

(* ================================================================== *)
(** ** More about the recorder *)
(* ================================================================== *)

Section RecorderMore.

Variable JSON_parse : string -> option jsval.
Variable ToNumber_ext : jsval -> number.

Local Abbreviation point_of_frame :=
  (Recorder.point_of_frame JSON_parse ToNumber_ext).
Local Abbreviation host_send := (Recorder.host_send JSON_parse ToNumber_ext).
Local Abbreviation step := (Recorder.step JSON_parse ToNumber_ext).
Local Abbreviation run := (Recorder.run JSON_parse ToNumber_ext).

Lemma process_frame_notified (now : Z) (data : Recorder.frame)
    (session : RecordingSession) (st : Recorder.state) :
  Recorder.notified
    (snd (Recorder.process_frame JSON_parse ToNumber_ext now data session st)) =
  Recorder.notified st ++
  match Recorder.onDataCallback st with
  | Some _ => map (stroke_notification session)
                  (opt_list (point_of_frame now data))
  | None => []
  end.
Proof.
  unfold Recorder.process_frame, Recorder.point_of_frame, stroke_notification.
  destruct data as [s|b].
  - destruct (Protocol.parse JSON_parse ToNumber_ext now s) as [[ev|]|e];
      [destruct (Recorder._convertToStrokePoint ev) as [p|]| |];
      cbn [Recorder.push_stroke Recorder.onDataCallback];
      destruct (Recorder.onDataCallback st) as [cb|];
      try destruct (cb (Recorder.mkNotification "stroke" p (id session)));
      cbn [snd opt_list map Recorder.notify Recorder.notified];
      rewrite ?app_nil_r; reflexivity.
  - destruct (Recorder.onDataCallback st); cbn [snd opt_list map];
      rewrite app_nil_r; reflexivity.
Qed.

(** What [stopRecording] does while recording, in full. *)
Lemma stopRecording_explicit (now : Z) (st : Recorder.state) (ts : list Z) :
  recorder_inv st ts ->
  Recorder.isRecording st = true ->
  exists r s,
    Recorder.currentSession st = Some r /\
    Recorder.deref st r = Some s /\
    strokes s = [] /\
    In (startTime s) ts /\
    let fin := finalized s now (Recorder.strokeBuffer st) in
    let h := Recorder.store r fin (Recorder.heap st) in
    Recorder.stopRecording now st =
      (Some (List.length h),
       Recorder.mkState false None [] (Recorder.originalSend st)
         (Recorder.onDataCallback st) (h ++ [fin])
         (Recorder.WebSocket_send st) (Recorder.transport st)
         (Recorder.notified st)).
Proof.
  intros [_ Hl] Hrec. unfold live_session in Hl. rewrite Hrec in Hl.
  destruct Hl as (r & s & Hc & Hd & Hs & _ & Hin & _).
  exists r, s. repeat split; try assumption.
  unfold Recorder.stopRecording. rewrite Hrec, Hc, Hd. reflexivity.
Qed.

(** X5.  The data callback is called once for every point captured
    and never otherwise: a send in any reachable state lengthens the
    log of notifications by the notification of the point the frame
    contributes, tagged with the id of the live session, when a
    recording is active and a callback is registered, and leaves it
    alone when not. *)
Theorem every_capture_is_notified_once (ops : list Recorder.op) (now : Z)
    (data : Recorder.frame) :
  let st := run Recorder.initial ops in
  let st' := snd (host_send now data st) in
  Recorder.notified st' =
    Recorder.notified st ++
    match Recorder.isRecording st, Recorder.onDataCallback st,
          Recorder.currentSession st with
    | true, Some _, Some r =>
        match Recorder.deref st r with
        | Some s => map (stroke_notification s)
                        (opt_list (point_of_frame now data))
        | None => []
        end
    | _, _, _ => []
    end.
Proof.
  intros st st'. subst st'.
  pose proof (reachable_inv JSON_parse ToNumber_ext ops) as Hinv.
  fold st in Hinv. destruct Hinv as [Hp Hl].
  unfold Recorder.host_send.
  destruct (Recorder.WebSocket_send st) eqn:Hws.
  - cbn [snd Recorder.native_send Recorder.notified].
    unfold live_session in Hl.
    destruct (Recorder.isRecording st).
    + destruct Hl as (r & s & _ & _ & _ & _ & _ & Hi). congruence.
    + rewrite app_nil_r. reflexivity.
  - destruct Hp as [[_ Hn]|[Ho _]]; [congruence|].
    unfold Recorder._interceptedSend, Recorder.call_originalSend.
    rewrite Ho.
    cbn [Recorder.isRecording Recorder.currentSession Recorder.native_send].
    unfold live_session in Hl.
    destruct (Recorder.isRecording st) eqn:Hrec.
    + destruct Hl as (r & s & Hc & Hd & _).
      rewrite Hc, Hd.
      assert (Hd' : Recorder.deref (Recorder.native_send data st) r = Some s)
        by exact Hd.
      rewrite Hd'.
      pose proof (process_frame_notified now data s
                    (Recorder.native_send data st)) as E.
      destruct (Recorder.process_frame JSON_parse ToNumber_ext now data s
                  (Recorder.native_send data st)) as [c st2].
      cbn [snd Recorder.native_send Recorder.notified
           Recorder.onDataCallback] in *.
      rewrite E. destruct (Recorder.onDataCallback st); reflexivity.
    + cbn [snd Recorder.notified]. rewrite app_nil_r. reflexivity.
Qed.

(** X6.  [destroy] in any reachable state takes the interception off
    and forgets recording, buffer and callback; what was sent stays
    sent, and every later send is the native one.  A recording that
    was active is finalized first, with the buffered points as its
    strokes. *)
Theorem destroy_restores_native_send (ops : list Recorder.op) (now : Z) :
  let st := run Recorder.initial ops in
  let st' := Recorder.destroy now st in
  Recorder.WebSocket_send st' = Recorder.NativeSend /\
  Recorder.originalSend st' = None /\
  Recorder.isActive st' = false /\
  Recorder.getCurrentSession st' = None /\
  Recorder.getStrokeCount st' = 0%nat /\
  Recorder.onDataCallback st' = None /\
  Recorder.transport st' = Recorder.transport st /\
  (forall t data,
     host_send t data st' = (Normal tt, Recorder.native_send data st')) /\
  match Recorder.isRecording st, Recorder.currentSession st with
  | true, Some r =>
      exists s,
        Recorder.deref st r = Some s /\
        Recorder.deref st' r =
          Some (finalized s now (Recorder.strokeBuffer st))
  | _, _ => Recorder.heap st' = Recorder.heap st
  end.
Proof.
  intros st st'.
  pose proof (reachable_inv JSON_parse ToNumber_ext ops) as Hinv.
  fold st in Hinv.
  subst st'.
  unfold Recorder.destroy, Recorder.isActive, Recorder.getCurrentSession,
    Recorder.getStrokeCount.
  destruct (Recorder.isRecording st) eqn:Hrec.
  - destruct (stopRecording_explicit now st _ Hinv Hrec)
      as (r & s & Hc & Hd & _ & _ & E).
    cbv zeta in E. rewrite E, Hc. clear E. cbn [snd].
    destruct Hinv as [[[Ho Hn]|[Ho Hn]] Hl].
    + unfold live_session in Hl. rewrite Hrec in Hl.
      destruct Hl as (? & ? & _ & _ & _ & _ & _ & Hi). congruence.
    + unfold Recorder._unpatchWebSocket. cbn [Recorder.originalSend].
      rewrite Ho.
      cbn [Recorder.setOnDataCallback Recorder._clearBuffer
           Recorder.isRecording Recorder.currentSession Recorder.strokeBuffer
           Recorder.originalSend Recorder.onDataCallback Recorder.heap
           Recorder.WebSocket_send Recorder.transport List.length].
      repeat (split; [reflexivity|]).
      exists s. split; [exact Hd|].
      unfold Recorder.deref. cbn [Recorder.heap].
      apply nth_error_app_left
        with (x := finalized s now (Recorder.strokeBuffer st)).
      apply nth_error_store_same with (x := s). exact Hd.
  - destruct Hinv as [[[Ho Hn]|[Ho Hn]] Hl];
      unfold live_session in Hl; rewrite Hrec in Hl; destruct Hl as [Hc Hb];
      unfold Recorder._unpatchWebSocket; rewrite Ho;
      cbn [Recorder.setOnDataCallback Recorder._clearBuffer
           Recorder.isRecording Recorder.currentSession Recorder.strokeBuffer
           Recorder.originalSend Recorder.onDataCallback Recorder.heap
           Recorder.WebSocket_send Recorder.transport List.length];
      repeat (split; [first [reflexivity | assumption]|]);
      try (split; [intros t data; apply host_send_native; exact Hn|]);
      reflexivity.
Qed.

(** X7.  [startRecording] while a recording is active does not lose
    it: the live session object is finalized in place, with the points
    buffered so far as its strokes and the reading of the clock as its
    end; a new session object is made, it is the one returned and the
    live one, and the buffer starts empty. *)
Theorem restart_finalizes_previous (ops : list Recorder.op)
    (t_stop t_id t_start : Z) (rnd : string) :
  let st := run Recorder.initial ops in
  Recorder.isRecording st = true ->
  exists r0 s0 r st',
    Recorder.getCurrentSession st = Some r0 /\
    Recorder.deref st r0 = Some s0 /\
    Recorder.startRecording t_stop t_id t_start rnd st = (r, st') /\
    r <> r0 /\
    Recorder.deref st' r0 =
      Some (finalized s0 t_stop (Recorder.strokeBuffer st)) /\
    Recorder.getCurrentSession st' = Some r /\
    Recorder.deref st' r =
      Some (mkSession (Recorder._generateSessionId t_id rnd) t_start 0 []
              (JObj [("version"%string, JStr "1.0");
                     ("source"%string, JStr "gartic-phone-extension")])) /\
    Recorder.isActive st' = true /\
    Recorder.getStrokeCount st' = 0%nat.
Proof.
  intros st Hrec.
  pose proof (reachable_inv JSON_parse ToNumber_ext ops) as Hinv.
  fold st in Hinv.
  destruct (stopRecording_explicit t_stop st _ Hinv Hrec)
    as (r0 & s0 & Hc & Hd & _ & _ & E).
  cbv zeta in E.
  assert (Hlt : (r0 < List.length (Recorder.heap st))%nat).
  { apply nth_error_Some. unfold Recorder.deref in Hd. congruence. }
  unfold Recorder.startRecording. rewrite Hrec, E. cbn [snd].
  set (fin := finalized s0 t_stop (Recorder.strokeBuffer st)).
  set (h := Recorder.store r0 fin (Recorder.heap st)).
  assert (Hh : List.length h = List.length (Recorder.heap st))
    by apply store_length.
  assert (Hfin : nth_error (h ++ [fin]) r0 = Some fin).
  { apply nth_error_app_left with (x := fin).
    apply nth_error_store_same with (x := s0). exact Hd. }
  unfold Recorder._patchWebSocket.
  cbn [Recorder.originalSend].
  destruct (Recorder.originalSend st);
    cbn [Recorder.heap Recorder.isRecording Recorder.currentSession
         Recorder.strokeBuffer Recorder.originalSend Recorder.onDataCallback
         Recorder.WebSocket_send Recorder.transport Recorder.notified];
    (eexists r0, s0, _, _;
     split; [exact Hc|]; split; [exact Hd|]; split; [reflexivity|];
     split; [rewrite length_app, Hh; cbn [List.length]; lia|];
     split; [unfold Recorder.deref; cbn [Recorder.heap];
             apply nth_error_app_left with (x := fin); exact Hfin|];
     split; [reflexivity|];
     split; [unfold Recorder.deref; cbn [Recorder.heap];
             apply nth_error_snoc|];
     split; reflexivity).
Qed.

(** X8.  [stopRecording] leaves the interception where it is: in any
    state a second stop returns null and changes nothing, and after a
    stop in a reachable state a frame sent is still forwarded, through
    the interception when it was installed, and nothing is captured. *)
Theorem stop_keeps_interception (ops : list Recorder.op) (t1 t2 t3 : Z)
    (data : Recorder.frame) :
  let st := run Recorder.initial ops in
  let st1 := snd (Recorder.stopRecording t1 st) in
  Recorder.stopRecording t2 st1 = (None, st1) /\
  Recorder.WebSocket_send st1 = Recorder.WebSocket_send st /\
  host_send t3 data st1 = (Normal tt, Recorder.native_send data st1) /\
  Recorder.getStrokeCount (snd (host_send t3 data st1)) = 0%nat.
Proof.
  intros st st1.
  pose proof (reachable_inv JSON_parse ToNumber_ext ops) as Hinv.
  fold st in Hinv.
  pose proof (stopRecording_inv t1 st _ Hinv) as Hinv1. fold st1 in Hinv1.
  assert (Hrec1 : Recorder.isRecording st1 = false).
  { subst st1. destruct (Recorder.isRecording st) eqn:Hrec.
    - destruct (stopRecording_explicit t1 st _ Hinv Hrec)
        as (r & s & _ & _ & _ & _ & ->). reflexivity.
    - rewrite stopRecording_idle by exact Hrec. exact Hrec. }
  assert (Hws : Recorder.WebSocket_send st1 = Recorder.WebSocket_send st).
  { subst st1. destruct (Recorder.isRecording st) eqn:Hrec.
    - destruct (stopRecording_explicit t1 st _ Hinv Hrec)
        as (r & s & _ & _ & _ & _ & ->). reflexivity.
    - rewrite stopRecording_idle by exact Hrec. reflexivity. }
  assert (Hsend : host_send t3 data st1
                  = (Normal tt, Recorder.native_send data st1)).
  { destruct (Recorder.WebSocket_send st1) eqn:Hw1.
    - apply host_send_native. exact Hw1.
    - destruct (host_send_intercepted JSON_parse ToNumber_ext t3 data st1 _
                  Hinv1 Hw1)
        as (st' & E & _ & _ & _ & _ & _ & _ & _ & _ & Hidle & _).
      rewrite E, (Hidle Hrec1). reflexivity. }
  split; [apply stopRecording_idle; exact Hrec1|].
  split; [exact Hws|].
  split; [exact Hsend|].
  rewrite Hsend. cbn [snd]. unfold Recorder.getStrokeCount.
  cbn [Recorder.native_send Recorder.strokeBuffer].
  destruct Hinv1 as [_ Hl]. unfold live_session in Hl.
  rewrite Hrec1 in Hl. destruct Hl as [_ ->]. reflexivity.
Qed.

End RecorderMore.

(** X7 on a recording that has captured two points. *)
Lemma restart_finalizes_previous_witness :
  let run := Recorder.run RefJSON.parse RefJSON.ToNumber_ext in
  let st := run Recorder.initial Frames.session_calls in
  exists r0 s0 r st',
    Recorder.getCurrentSession st = Some r0 /\
    Recorder.deref st r0 = Some s0 /\
    Recorder.startRecording 105 106 107 "abcdefghi" st = (r, st') /\
    r <> r0 /\
    option_map (fun s => List.length (strokes s)) (Recorder.deref st' r0)
      = Some 2%nat /\
    Recorder.getStrokeCount st' = 0%nat.
Proof.
  intros run st.
  destruct (restart_finalizes_previous RefJSON.parse RefJSON.ToNumber_ext
              Frames.session_calls 105 106 107 "abcdefghi" eq_refl)
    as (r0 & s0 & r & st' & H1 & H2 & H3 & H4 & H5 & _ & _ & _ & H9).
  exists r0, s0, r, st'.
  repeat split; try assumption.
  rewrite H5. vm_compute. reflexivity.
Defined.

(* ================================================================== *)
(** ** The shape of what is recorded *)
(* ================================================================== *)

Lemma Forall_store (P : RecordingSession -> Prop) (h : list RecordingSession)
    (r : Recorder.ref) (s : RecordingSession) :
  Forall P h -> P s -> Forall P (Recorder.store r s h).
Proof.
  intros Hh Hs. revert r.
  induction Hh as [|x t Hx Ht IH]; intros r; [destruct r; constructor|].
  destruct r; cbn [Recorder.store]; constructor; auto.
Qed.

Lemma convert_shape (ev : Protocol.DrawingEvent) (p : StrokePoint) :
  Recorder._convertToStrokePoint ev = Some p ->
  well_formed_point p /\ sp_time p = Protocol.ev_timestamp ev.
Proof.
  unfold Recorder._convertToStrokePoint.
  destruct (String.eqb (Protocol.ev_type ev) "clear"
            || String.eqb (Protocol.ev_type ev) "undo")%bool eqn:E;
    intros [= <-]; (split; [|reflexivity]).
  - right. cbn [sp_type sp_time]. split; [|reflexivity].
    apply Bool.orb_true_iff in E.
    destruct E as [E|E]; apply String.eqb_eq in E; auto.
  - left. cbn [sp_type sp_action sp_prevX sp_prevY].
    repeat split; discriminate.
Qed.

Section ShapeFacts.

Variable JSON_parse : string -> option jsval.
Variable ToNumber_ext : jsval -> number.

Local Abbreviation point_of_frame :=
  (Recorder.point_of_frame JSON_parse ToNumber_ext).
Local Abbreviation host_send := (Recorder.host_send JSON_parse ToNumber_ext).
Local Abbreviation step := (Recorder.step JSON_parse ToNumber_ext).
Local Abbreviation run := (Recorder.run JSON_parse ToNumber_ext).

(** The event [parse] returns is stamped with the reading it took. *)
Lemma parse_timestamp (now : Z) (raw : string) (ev : Protocol.DrawingEvent) :
  Protocol.parse JSON_parse ToNumber_ext now raw = Normal (Some ev) ->
  Protocol.ev_timestamp ev = now.
Proof.
  unfold Protocol.parse.
  destruct (Protocol._parseSocketPacket JSON_parse raw) as [[pkt|]|e];
    cbn [bind]; try discriminate.
  unfold Protocol._extractDrawingData.
  destruct (negb (Protocol._isDrawingEvent pkt)); [discriminate|].
  destruct (Protocol.pk_data pkt) as [| | | |[|[| | |name| |] args]|];
    try discriminate.
  intros [= <-]. reflexivity.
Qed.

Lemma point_of_frame_shape (now : Z) (data : Recorder.frame) (p : StrokePoint) :
  point_of_frame now data = Some p ->
  well_formed_point p /\ sp_time p = now.
Proof.
  unfold Recorder.point_of_frame. destruct data as [s|b]; [|discriminate].
  destruct (Protocol.parse JSON_parse ToNumber_ext now s) as [[ev|]|e] eqn:E;
    try discriminate.
  intros H. apply convert_shape in H. destruct H as [H1 H2].
  split; [exact H1|]. rewrite H2. apply (parse_timestamp _ _ _ E).
Qed.

Lemma shape_transfer (st st' : Recorder.state) :
  Recorder.strokeBuffer st' = Recorder.strokeBuffer st ->
  Recorder.heap st' = Recorder.heap st ->
  shape_inv st -> shape_inv st'.
Proof. unfold shape_inv. intros -> ->. auto. Qed.

Lemma deref_shape (st : Recorder.state) (r : Recorder.ref)
    (s : RecordingSession) :
  shape_inv st -> Recorder.deref st r = Some s -> session_shape s.
Proof.
  intros [_ Hh] Hd. unfold Recorder.deref in Hd.
  apply nth_error_In in Hd. rewrite Forall_forall in Hh. auto.
Qed.

Lemma stop_shape (now : Z) (st : Recorder.state) (ts : list Z) :
  recorder_inv st ts -> shape_inv st ->
  shape_inv (snd (Recorder.stopRecording now st)).
Proof.
  intros Hinv Hs. destruct (Recorder.isRecording st) eqn:Hrec.
  - destruct (stopRecording_explicit now st ts Hinv Hrec)
      as (r & s & _ & Hd & _ & _ & E).
    cbv zeta in E. rewrite E. cbn [snd].
    destruct (deref_shape st r s Hs Hd) as (_ & Hid & Hm).
    destruct Hs as [Hb Hh].
    assert (Hfin : session_shape (finalized s now (Recorder.strokeBuffer st)))
      by (repeat split; assumption).
    split; cbn [Recorder.strokeBuffer Recorder.heap]; [constructor|].
    apply Forall_app. split; [apply Forall_store; assumption|].
    constructor; [exact Hfin | constructor].
  - rewrite stopRecording_idle by exact Hrec. exact Hs.
Qed.

Lemma unpatch_shape (st : Recorder.state) :
  shape_inv st -> shape_inv (Recorder._unpatchWebSocket st).
Proof.
  unfold Recorder._unpatchWebSocket.
  destruct (Recorder.originalSend st); intros H; exact H.
Qed.

Lemma patch_shape (st : Recorder.state) :
  shape_inv st -> shape_inv (Recorder._patchWebSocket st).
Proof.
  unfold Recorder._patchWebSocket.
  destruct (Recorder.originalSend st); intros H; exact H.
Qed.

Lemma step_shape (o : Recorder.op) (st : Recorder.state) (ts : list Z) :
  recorder_inv st ts -> shape_inv st -> shape_inv (step st o).
Proof.
  intros Hinv Hs.
  destruct o as [|a b c rnd|now|now data|cb|now]; cbn [Recorder.step].
  - apply patch_shape. exact Hs.
  - unfold Recorder.startRecording.
    set (st1 := if Recorder.isRecording st
                then snd (Recorder.stopRecording a st) else st).
    assert (H1 : shape_inv st1).
    { subst st1. destruct (Recorder.isRecording st);
        [eapply stop_shape; eassumption | exact Hs]. }
    apply patch_shape in H1.
    destruct H1 as [_ Hh]. cbn [snd].
    split; cbn [Recorder.strokeBuffer Recorder.heap]; [constructor|].
    apply Forall_app. split; [exact Hh|].
    constructor; [|constructor].
    split; [constructor|]. split; [|reflexivity].
    cbn [id]. unfold Recorder._generateSessionId. cbn [String.append].
    discriminate.
  - eapply stop_shape; eassumption.
  - destruct (Recorder.WebSocket_send st) eqn:Hws.
    + rewrite host_send_native by exact Hws. exact Hs.
    + destruct (host_send_intercepted JSON_parse ToNumber_ext now data st ts
                  Hinv Hws)
        as (st' & E & _ & Hb & _ & _ & Hh & _).
      rewrite E. cbn [snd]. destruct Hs as [Hsb Hsh].
      split; [|rewrite Hh; exact Hsh].
      rewrite Hb. apply Forall_app. split; [exact Hsb|].
      destruct (Recorder.isRecording st); [|constructor].
      destruct (point_of_frame now data) as [p|] eqn:Ep; [|constructor].
      constructor; [|constructor].
      apply (point_of_frame_shape _ _ _ Ep).
  - exact Hs.
  - unfold Recorder.destroy.
    set (st1 := if Recorder.isRecording st
                then snd (Recorder.stopRecording now st) else st).
    assert (H1 : shape_inv st1).
    { subst st1. destruct (Recorder.isRecording st);
        [eapply stop_shape; eassumption | exact Hs]. }
    apply unpatch_shape in H1. destruct H1 as [_ Hh].
    split; [constructor | exact Hh].
Qed.

Lemma run_shape (ops : list Recorder.op) (st : Recorder.state) (ts : list Z) :
  recorder_inv st ts -> shape_inv st -> shape_inv (run st ops).
Proof.
  revert st ts. induction ops as [|o ops IH]; intros st ts Hinv Hs;
    [exact Hs|].
  cbn [Recorder.run fold_left].
  apply (IH _ (ts ++ Recorder.op_times o)).
  - apply step_inv. exact Hinv.
  - eapply step_shape; eassumption.
Qed.

Lemma reachable_shape (ops : list Recorder.op) :
  shape_inv (run Recorder.initial ops).
Proof.
  apply (run_shape ops Recorder.initial []).
  - apply recorder_inv_initial.
  - split; constructor.
Qed.

(** X9.  Whatever is sent and whatever the page calls, every point
    the recorder holds, in the buffer or in a session object, has one
    of two shapes: a point of type line with both predecessor
    properties and no action, or the zeroed marker of a clear or an
    undo. *)
Theorem recorded_points_well_formed (ops : list Recorder.op) :
  let st := run Recorder.initial ops in
  Forall well_formed_point (Recorder.strokeBuffer st) /\
  Forall (fun s => Forall well_formed_point (strokes s)) (Recorder.heap st).
Proof.
  intros st. destruct (reachable_shape ops) as [Hb Hh]. fold st in Hb, Hh.
  split; [exact Hb|].
  eapply Forall_impl; [|exact Hh]. intros s (H & _). exact H.
Qed.

End ShapeFacts.

(** A session with an id and metadata comes back from its export as
    it went in. *)
Lemma import_of_export (now : Z) (s : RecordingSession) :
  id s <> ""%string -> truthy (metadata s) = true ->
  IO.import_session now (IO.as_import (IO.exportData s)) = s.
Proof.
  intros Hid Hm. destruct s as [i a b l m]. cbn [id metadata] in Hid, Hm.
  unfold IO.import_session, IO.as_import, IO.exportData.
  cbn [IO.im_session IO.im_strokes IO.im_metadata IO.is_id IO.is_startTime
       IO.is_endTime IO.ed_session IO.ed_strokes IO.ed_metadata IO.ss_id
       IO.ss_startTime IO.ss_endTime id startTime endTime strokes metadata].
  unfold IO.str_or, IO.num_or, js_or.
  apply String.eqb_neq in Hid. rewrite Hid, Hm, Hm.
  destruct (a =? 0)%Z eqn:Ea; [apply Z.eqb_eq in Ea; subst a|];
    (destruct (b =? 0)%Z eqn:Eb; [apply Z.eqb_eq in Eb; subst b|]);
    reflexivity.
Qed.




(* ================================================================== *)
(** ** The order of what is recorded *)
(* ================================================================== *)

Lemma stamped_more (ts ts' : list Z) (l : list StrokePoint) :
  (forall x, In x ts -> In x ts') -> stamped ts l -> stamped ts' l.
Proof.
  intros Hsub H. unfold stamped in *.
  eapply Forall_impl; [|exact H]. intros p Hp. cbv beta in *. auto.
Qed.

Lemma sorted_snoc (l : list Z) (a : Z) :
  StronglySorted Z.le l -> Forall (fun x => x <= a) l ->
  StronglySorted Z.le (l ++ [a]).
Proof.
  induction 1 as [|x l Hs IH Hx]; intros Hl; cbn [app].
  - constructor; constructor.
  - inversion Hl as [|? ? Hxa Hla]; subst.
    constructor; [auto|].
    apply Forall_app. split; [exact Hx|]. constructor; [exact Hxa|constructor].
Qed.

Lemma stamped_bound (ts : list Z) (now : Z) (l : list StrokePoint) :
  StronglySorted Z.le (ts ++ [now]) -> stamped ts l ->
  Forall (fun x => x <= now) (map sp_time l).
Proof.
  intros Hs H. unfold stamped in H. rewrite Forall_map.
  eapply Forall_impl; [|exact H]. intros p Hp. cbv beta in *.
  eapply sorted_last_bound; eassumption.
Qed.

Lemma timeline_more (st : Recorder.state) (ts ts' : list Z) :
  (forall x, In x ts -> In x ts') -> timeline_inv st ts -> timeline_inv st ts'.
Proof.
  intros Hsub (H1 & H2 & H3 & H4).
  repeat split; try assumption. eapply stamped_more; eassumption.
Qed.

Lemma timeline_transfer (st st' : Recorder.state) (ts : list Z) :
  Recorder.strokeBuffer st' = Recorder.strokeBuffer st ->
  Recorder.currentSession st' = Recorder.currentSession st ->
  Recorder.heap st' = Recorder.heap st ->
  timeline_inv st ts -> timeline_inv st' ts.
Proof.
  unfold timeline_inv, Recorder.deref. intros -> -> ->. auto.
Qed.

Lemma timeline_cleared (st st' : Recorder.state) (ts : list Z)
    (new : list RecordingSession) :
  Recorder.strokeBuffer st' = [] ->
  Recorder.heap st' = Recorder.heap st ++ new ->
  Forall (fun s => strokes s = []) new ->
  timeline_inv st ts -> timeline_inv st' ts.
Proof.
  unfold timeline_inv. intros -> -> Hnew (_ & _ & _ & H4).
  split; [constructor|]. split; [constructor|].
  split; [intros; constructor|].
  apply Forall_app. split; [exact H4|].
  eapply Forall_impl; [|exact Hnew].
  intros s Hs. unfold in_time_order, within. rewrite Hs.
  split; constructor.
Qed.

Section TimelineFacts.

Variable JSON_parse : string -> option jsval.
Variable ToNumber_ext : jsval -> number.

Local Abbreviation point_of_frame :=
  (Recorder.point_of_frame JSON_parse ToNumber_ext).
Local Abbreviation host_send := (Recorder.host_send JSON_parse ToNumber_ext).
Local Abbreviation step := (Recorder.step JSON_parse ToNumber_ext).
Local Abbreviation run := (Recorder.run JSON_parse ToNumber_ext).

Lemma stop_timeline (now : Z) (st : Recorder.state) (ts : list Z) :
  recorder_inv st ts -> timeline_inv st ts ->
  StronglySorted Z.le (ts ++ [now]) ->
  timeline_inv (snd (Recorder.stopRecording now st)) (ts ++ [now]).
Proof.
  intros Hinv Ht Hsorted. destruct (Recorder.isRecording st) eqn:Hrec.
  - destruct (stopRecording_explicit now st ts Hinv Hrec)
      as (r & s & Hc & Hd & _ & _ & E).
    cbv zeta in E. rewrite E. cbn [snd].
    destruct Ht as (H1 & H2 & H3 & H4).
    specialize (H3 r s Hc Hd).
    pose proof (stamped_bound ts now _ Hsorted H2) as Hle.
    rewrite Forall_map in Hle.
    unfold timeline_inv.
    cbn [Recorder.strokeBuffer Recorder.heap Recorder.currentSession].
    split; [constructor|]. split; [constructor|].
    split; [intros ? ? [=]|].
    assert (Hfin : in_time_order
                     (strokes (finalized s now (Recorder.strokeBuffer st))) /\
                   within (finalized s now (Recorder.strokeBuffer st))).
    { split; [exact H1|]. unfold within.
      cbn [finalized strokes startTime endTime].
      rewrite Forall_forall in *. intros p Hp.
      split; [apply H3 | apply Hle]; exact Hp. }
    apply Forall_app. split; [apply Forall_store; assumption|].
    constructor; [exact Hfin | constructor].
  - rewrite stopRecording_idle by exact Hrec. cbn [snd].
    eapply timeline_more; [|exact Ht].
    intros x Hx. apply in_or_app. left. exact Hx.
Qed.

Lemma send_timeline (now : Z) (data : Recorder.frame) (st : Recorder.state)
    (ts : list Z) :
  recorder_inv st ts -> timeline_inv st ts ->
  StronglySorted Z.le (ts ++ [now]) ->
  timeline_inv (snd (host_send now data st)) (ts ++ [now]).
Proof.
  intros Hinv Ht Hsorted.
  assert (Hsub : forall x, In x ts -> In x (ts ++ [now]))
    by (intros x Hx; apply in_or_app; left; exact Hx).
  destruct (Recorder.WebSocket_send st) eqn:Hws.
  - rewrite host_send_native by exact Hws. cbn [snd].
    eapply timeline_more; [exact Hsub|].
    eapply timeline_transfer; [| | |exact Ht]; reflexivity.
  - destruct (host_send_intercepted JSON_parse ToNumber_ext now data st ts
                Hinv Hws)
      as (st' & E & _ & Hb & _ & Hc & Hh & _).
    rewrite E. cbn [snd].
    destruct (Recorder.isRecording st) eqn:Hrec;
      [destruct (point_of_frame now data) as [p|] eqn:Ep|];
      cbn [opt_list] in Hb; rewrite ?app_nil_r in Hb;
      try (eapply timeline_more; [exact Hsub|];
           eapply timeline_transfer; [| | |exact Ht]; assumption).
    destruct (point_of_frame_shape JSON_parse ToNumber_ext _ _ _ Ep)
      as [_ Htime].
    destruct Ht as (H1 & H2 & H3 & H4).
    destruct Hinv as [_ Hl]. unfold live_session in Hl. rewrite Hrec in Hl.
    destruct Hl as (r0 & s0 & Hc0 & Hd0 & _ & _ & Hin & _).
    unfold timeline_inv, Recorder.deref. rewrite Hb, Hc, Hh.
    split; [|split; [|split; [|exact H4]]].
    + unfold in_time_order. rewrite map_app. cbn [map]. rewrite Htime.
      apply sorted_snoc; [exact H1|].
      eapply stamped_bound; eassumption.
    + apply Forall_app. split.
      * eapply stamped_more; [exact Hsub | exact H2].
      * constructor; [|constructor]. rewrite Htime.
        apply in_or_app. right. left. reflexivity.
    + intros r s Hr Hs. apply Forall_app. split; [apply (H3 r s Hr Hs)|].
      constructor; [|constructor]. rewrite Htime.
      assert (s = s0) by (unfold Recorder.deref in Hd0; congruence).
      subst s. eapply sorted_last_bound; eassumption.
Qed.

Lemma step_timeline (o : Recorder.op) (st : Recorder.state) (ts : list Z) :
  recorder_inv st ts -> timeline_inv st ts ->
  StronglySorted Z.le (ts ++ Recorder.op_times o) ->
  timeline_inv (step st o) (ts ++ Recorder.op_times o).
Proof.
  intros Hinv Ht Hsorted.
  destruct o as [|a b c rnd|now|now data|cb|now];
    cbn [Recorder.step Recorder.op_times] in *.
  - rewrite app_nil_r.
    destruct (patchWebSocket_fields st) as (_ & Hc & Hb & Hh & _).
    eapply timeline_transfer; [| | |exact Ht]; assumption.
  - unfold Recorder.startRecording.
    set (st1 := if Recorder.isRecording st
                then snd (Recorder.stopRecording a st) else st).
    assert (H1 : timeline_inv st1 (ts ++ [a; b; c])).
    { subst st1. destruct (Recorder.isRecording st).
      - apply timeline_more with (ts := ts ++ [a]).
        + intros x Hx. apply in_app_or in Hx. apply in_or_app.
          destruct Hx as [Hx|[<-|[]]]; [left; exact Hx | right; left; reflexivity].
        + apply stop_timeline; [exact Hinv | exact Ht|].
          apply sorted_app_left with (b := [b; c]).
          rewrite <- app_assoc. exact Hsorted.
      - eapply timeline_more; [|exact Ht].
        intros x Hx. apply in_or_app. left. exact Hx. }
    destruct (patchWebSocket_fields st1) as (_ & _ & _ & Hh & _).
    cbn [snd].
    eapply timeline_cleared with (st := st1); [..|exact H1].
    + reflexivity.
    + cbn [Recorder.heap]. rewrite Hh. reflexivity.
    + constructor; [reflexivity | constructor].
  - apply stop_timeline; assumption.
  - apply send_timeline; assumption.
  - rewrite app_nil_r.
    eapply timeline_transfer; [| | |exact Ht]; reflexivity.
  - unfold Recorder.destroy.
    set (st1 := if Recorder.isRecording st
                then snd (Recorder.stopRecording now st) else st).
    assert (H1 : timeline_inv st1 (ts ++ [now])).
    { subst st1. destruct (Recorder.isRecording st).
      - apply stop_timeline; assumption.
      - eapply timeline_more; [|exact Ht].
        intros x Hx. apply in_or_app. left. exact Hx. }
    eapply timeline_cleared with (st := st1) (new := []); [..|exact H1].
    + reflexivity.
    + rewrite app_nil_r. unfold Recorder._unpatchWebSocket.
      destruct (Recorder.originalSend st1); reflexivity.
    + constructor.
Qed.

Lemma run_timeline (ops : list Recorder.op) (st : Recorder.state)
    (ts : list Z) :
  recorder_inv st ts -> timeline_inv st ts ->
  StronglySorted Z.le (ts ++ times ops) ->
  timeline_inv (run st ops) (ts ++ times ops).
Proof.
  revert st ts. induction ops as [|o ops IH]; intros st ts Hinv Ht Hsorted.
  - unfold times. cbn [flat_map]. rewrite app_nil_r. exact Ht.
  - unfold times in *. cbn [flat_map Recorder.run fold_left] in *.
    rewrite app_assoc in *.
    apply IH.
    + apply step_inv. exact Hinv.
    + apply step_timeline; [exact Hinv | exact Ht|].
      eapply sorted_app_left. exact Hsorted.
    + exact Hsorted.
Qed.

(** X12.  When the clock never runs backwards, the points of the
    buffer are in the order of their time stamps, and so are the
    strokes of every session object; each stroke of a session lies
    between the start and the end of that session. *)
Theorem recorded_strokes_in_time_order (ops : list Recorder.op) :
  StronglySorted Z.le (times ops) ->
  let st := run Recorder.initial ops in
  in_time_order (Recorder.strokeBuffer st) /\
  Forall (fun s => in_time_order (strokes s) /\ within s) (Recorder.heap st).
Proof.
  intros Hsorted st.
  assert (H0 : timeline_inv Recorder.initial []).
  { repeat split; constructor. }
  pose proof (run_timeline ops Recorder.initial [] recorder_inv_initial H0
                Hsorted) as H.
  cbn [app] in H. fold st in H.
  destruct H as (H1 & _ & _ & H4). auto.
Qed.

End TimelineFacts.

(** X12 on a recording of two points, stopped at 105. *)
Lemma recorded_strokes_in_time_order_witness :
  let st := Recorder.run RefJSON.parse RefJSON.ToNumber_ext Recorder.initial
              (Frames.session_calls ++ [Recorder.OpStop 105]) in
  List.length (Recorder.heap st) = 2%nat /\
  Forall (fun s => in_time_order (strokes s) /\ within s) (Recorder.heap st).
Proof.
  intros st. split; [vm_compute; reflexivity|].
  apply (recorded_strokes_in_time_order RefJSON.parse RefJSON.ToNumber_ext
           (Frames.session_calls ++ [Recorder.OpStop 105])).
  cbv [times flat_map Frames.session_calls Frames.two_draws
       Recorder.sends map Recorder.op_times app fst snd].
  repeat (constructor; [|repeat constructor; lia]). constructor.
Defined.

(* ================================================================== *)
(** ** Facts about the Timelapse module *)
(* ================================================================== *)

Lemma stop_fields (now : Z) (st : Recorder.state) (ts : list Z) :
  recorder_inv st ts ->
  Recorder.isRecording (snd (Recorder.stopRecording now st)) = false /\
  Recorder.WebSocket_send (snd (Recorder.stopRecording now st))
    = Recorder.WebSocket_send st.
Proof.
  intros Hinv. destruct (Recorder.isRecording st) eqn:Hrec.
  - destruct (stopRecording_explicit now st ts Hinv Hrec)
      as (r & s & _ & _ & _ & _ & ->). split; reflexivity.
  - rewrite stopRecording_idle by exact Hrec. split; [exact Hrec|reflexivity].
Qed.

Lemma destroy_fields (now : Z) (st : Recorder.state) (ts : list Z) :
  recorder_inv st ts ->
  Recorder.isRecording (Recorder.destroy now st) = false /\
  Recorder.WebSocket_send (Recorder.destroy now st) = Recorder.NativeSend.
Proof.
  intros Hinv. unfold Recorder.destroy.
  set (st1 := if Recorder.isRecording st
              then snd (Recorder.stopRecording now st) else st).
  assert (H1 : Recorder.isRecording st1 = false /\ exists ts', recorder_inv st1 ts').
  { subst st1. destruct (Recorder.isRecording st) eqn:Hrec.
    - split; [apply (stop_fields now st ts Hinv)|].
      eexists. apply stopRecording_inv. exact Hinv.
    - split; [exact Hrec | eauto]. }
  destruct H1 as (Hrec1 & ts' & [Hp _]).
  unfold Recorder._unpatchWebSocket.
  destruct Hp as [[Ho Hn]|[Ho Hn]]; rewrite Ho;
    cbn [Recorder.setOnDataCallback Recorder._clearBuffer
         Recorder.isRecording Recorder.WebSocket_send];
    auto.
Qed.

Lemma handlePhaseChange_effect (t : Timelapse.readings)
    (p : Timelapse.phase) (old : option Timelapse.phase)
    (st : Timelapse.state) (ts : list Z) :
  recorder_inv (Timelapse.world st) ts ->
  Timelapse.recorder st = true ->
  Recorder.WebSocket_send (Timelapse.world st) = Recorder.InterceptedSend ->
  Recorder.isRecording (Timelapse.world st) = is_game old ->
  let st' := Timelapse._handlePhaseChange t p old st in
  (exists ts', recorder_inv (Timelapse.world st') ts') /\
  Recorder.WebSocket_send (Timelapse.world st') = Recorder.InterceptedSend /\
  Recorder.isRecording (Timelapse.world st') = is_game (Some p) /\
  Timelapse.currentPhase st' = Some p /\
  Timelapse.recorder st' = true /\
  Timelapse.isEnabled st' = Timelapse.isEnabled st /\
  Timelapse.observing st' = Timelapse.observing st /\
  Timelapse.player st' = Timelapse.player st.
Proof.
  intros Hinv Hr Hws Hrec st'. subst st'.
  unfold Timelapse._handlePhaseChange.
  set (st1 := match old with
              | Some Timelapse.Game => Timelapse._onGamePhaseEnd t st
              | _ => st
              end).
  assert (H1 : (exists ts1, recorder_inv (Timelapse.world st1) ts1) /\
               Recorder.WebSocket_send (Timelapse.world st1)
                 = Recorder.InterceptedSend /\
               Recorder.isRecording (Timelapse.world st1) = false /\
               Timelapse.recorder st1 = true /\
               Timelapse.isEnabled st1 = Timelapse.isEnabled st /\
               Timelapse.observing st1 = Timelapse.observing st /\
               Timelapse.player st1 = Timelapse.player st).
  { subst st1. destruct old as [[| | |]|]; cbn [is_game] in Hrec;
      try (repeat split; eauto; fail).
    unfold Timelapse._onGamePhaseEnd. rewrite Hr.
    destruct (stop_fields (Timelapse.r_stop t) _ _ Hinv) as [Ha Hb].
    cbn [Timelapse.set_world Timelapse.world Timelapse.recorder
         Timelapse.isEnabled Timelapse.observing Timelapse.player].
    repeat split; try assumption; try congruence.
    eexists. apply stopRecording_inv. exact Hinv. }
  clearbody st1.
  destruct H1 as ([ts1 Hinv1] & Hws1 & Hrec1 & Hr1 & He1 & Ho1 & Hp1).
  destruct p; cbn [is_game];
    try (cbn [Timelapse.world Timelapse.currentPhase Timelapse.recorder
              Timelapse.isEnabled Timelapse.observing Timelapse.player];
         repeat split; eauto; fail).
  unfold Timelapse._onGamePhaseStart. rewrite Hr1.
  destruct (startRecording_effect (Timelapse.r_restart t) (Timelapse.r_id t)
              (Timelapse.r_start t) (Timelapse.r_rnd t) _ _ Hinv1)
    as (r & w' & E & Hinv' & Hrec' & _ & _ & _ & Hws' & _).
  rewrite E.
  cbn [snd Timelapse.set_world Timelapse.world Timelapse.currentPhase
       Timelapse.recorder Timelapse.isEnabled Timelapse.observing
       Timelapse.player].
  repeat split; eauto.
Qed.

Section TimelapseFacts.

Variable JSON_parse : string -> option jsval.
Variable ToNumber_ext : jsval -> number.

Local Abbreviation handleImageMMB :=
  (Timelapse._handleImageMMB ToNumber_ext).
Local Abbreviation step := (Timelapse.step JSON_parse ToNumber_ext).
Local Abbreviation run := (Timelapse.run JSON_parse ToNumber_ext).

(** The session the middle click asks the recorder for is null or has
    no strokes yet. *)
Lemma handleImageMMB_returns_early (now : Q) (st : Timelapse.state) :
  module_inv st -> handleImageMMB now st = None.
Proof.
  intros ([ts [_ Hl]] & _). unfold Timelapse._handleImageMMB.
  destruct (Timelapse.recorder st); [|reflexivity].
  unfold live_session, Recorder.getCurrentSession in *.
  destruct (Recorder.isRecording (Timelapse.world st)).
  - destruct Hl as (r & s & -> & -> & -> & _). reflexivity.
  - destruct Hl as [-> _]. reflexivity.
Qed.

Lemma module_inv_initial : module_inv Timelapse.initial.
Proof.
  repeat split; try reflexivity.
  exists []. apply recorder_inv_initial.
Qed.

Lemma step_module_inv (e : Timelapse.event) (st : Timelapse.state) :
  module_inv st -> module_inv (step st e).
Proof.
  intros Hinv.
  pose proof Hinv as ([ts Hrinv] & Hr & Ho & Hws & Hrec & Hph & Hpl).
  destruct e as [t p|t p|now data|now|now]; cbn [Timelapse.step].
  - (* init *)
    unfold Timelapse.init.
    destruct (Timelapse.isEnabled st) eqn:He; [exact Hinv|].
    specialize (Hph eq_refl).
    set (w := Recorder.init (Timelapse.createRecorder (Timelapse.world st))).
    assert (Hw : recorder_inv w [] /\
                 Recorder.WebSocket_send w = Recorder.InterceptedSend /\
                 Recorder.isRecording w = false).
    { subst w. unfold Recorder.init, Recorder._patchWebSocket,
        Timelapse.createRecorder. cbn [Recorder.originalSend].
      rewrite Hws.
      repeat split; try reflexivity.
      right. split; reflexivity. }
    destruct Hw as (Hw1 & Hw2 & Hw3).
    set (st0 := Timelapse.mkState false true w
                  (Some (Player.create None None)) true
                  (Timelapse.currentPhase st)).
    assert (Hchange : forall p,
              p <> Timelapse.Unknown ->
              module_inv
                (let st1 := Timelapse._handlePhaseChange t p None st0 in
                 Timelapse.mkState true (Timelapse.recorder st1)
                   (Timelapse.world st1) (Timelapse.player st1)
                   (Timelapse.observing st1) (Timelapse.currentPhase st1))).
    { intros p' _.
      pose proof (handlePhaseChange_effect t p' None st0 [] Hw1 eq_refl
                    Hw2 Hw3) as H.
      cbv zeta in H. destruct H as (H1 & H2 & H3 & H4 & H5 & H6 & H7 & H8).
      unfold module_inv. cbv zeta.
      cbn [Timelapse.world Timelapse.recorder Timelapse.isEnabled
           Timelapse.observing Timelapse.currentPhase Timelapse.player].
      split; [exact H1|].
      rewrite H2, H3, H4, H5, H7, H8. subst st0.
      cbn [Timelapse.observing Timelapse.player player_unloaded].
      repeat split; try reflexivity; discriminate. }
    destruct p; cbn [Timelapse.phase_eqb negb];
      try (apply Hchange; discriminate).
    unfold module_inv.
    cbn [Timelapse.world Timelapse.recorder Timelapse.isEnabled
         Timelapse.observing Timelapse.currentPhase Timelapse.player].
    subst st0.
    cbn [Timelapse.world Timelapse.recorder Timelapse.isEnabled
         Timelapse.observing Timelapse.currentPhase Timelapse.player].
    rewrite Hph, Hw2, Hw3.
    split; [exists []; exact Hw1|].
    repeat split; try reflexivity; discriminate.
  - (* a mutation seen by the observer *)
    unfold Timelapse.on_mutation. rewrite Ho.
    destruct (Timelapse.isEnabled st) eqn:He; cbn [negb]; [|exact Hinv].
    destruct (Timelapse.differs p (Timelapse.currentPhase st)
              && negb (Timelapse.phase_eqb p Timelapse.Unknown))%bool;
      [|exact Hinv].
    pose proof (handlePhaseChange_effect t p (Timelapse.currentPhase st) st ts
                  Hrinv Hr Hws Hrec) as H.
    cbv zeta in H.
    destruct H as (H1 & H2 & H3 & H4 & H5 & H6 & H7 & H8).
    unfold module_inv. rewrite H4, H5, H6, H7, H8, He, Ho.
    repeat split; try assumption; try reflexivity; try discriminate.
  - (* a frame is sent *)
    pose proof (host_send_inv JSON_parse ToNumber_ext now data _ _ Hrinv)
      as Hinv'.
    assert (Hsame :
      Recorder.isRecording
        (snd (Recorder.host_send JSON_parse ToNumber_ext now data
                (Timelapse.world st)))
        = Recorder.isRecording (Timelapse.world st) /\
      Recorder.WebSocket_send
        (snd (Recorder.host_send JSON_parse ToNumber_ext now data
                (Timelapse.world st)))
        = Recorder.WebSocket_send (Timelapse.world st)).
    { destruct (Recorder.WebSocket_send (Timelapse.world st)) eqn:E.
      - rewrite host_send_native by exact E. split; [reflexivity|exact E].
      - destruct (host_send_intercepted JSON_parse ToNumber_ext now data _ _
                    Hrinv E)
          as (st' & -> & _ & _ & H3 & _ & _ & _ & H7 & _).
        cbn [snd]. split; congruence. }
    destruct Hsame as [Ha Hb].
    unfold module_inv.
    cbn [Timelapse.set_world Timelapse.world Timelapse.recorder
         Timelapse.isEnabled Timelapse.observing Timelapse.currentPhase
         Timelapse.player].
    rewrite Ha, Hb.
    repeat split; try assumption. eexists. exact Hinv'.
  - (* a middle click on a result image *)
    rewrite handleImageMMB_returns_early by exact Hinv. exact Hinv.
  - (* destroy *)
    unfold Timelapse.destroy.
    destruct (Timelapse.isEnabled st) eqn:He; cbn [negb]; [|exact Hinv].
    rewrite Hr.
    destruct (destroy_fields now _ _ Hrinv) as [Ha Hb].
    unfold module_inv.
    cbn [Timelapse.world Timelapse.recorder Timelapse.isEnabled
         Timelapse.observing Timelapse.currentPhase Timelapse.player
         is_game player_unloaded].
    repeat split; try assumption; try reflexivity.
    eexists. apply destroy_inv. exact Hrinv.
Qed.

Lemma run_module_inv (es : list Timelapse.event) (st : Timelapse.state) :
  module_inv st -> module_inv (run st es).
Proof.
  revert st. induction es as [|e es IH]; intros st H; [exact H|].
  cbn [Timelapse.run fold_left]. apply IH. apply step_module_inv. exact H.
Qed.

(** X13.  The module records exactly while the game phase lasts:
    after any sequence of initialisations, phase changes seen by the
    observer, frames sent, middle clicks and destructions, the
    recorder is active if and only if the current phase is the game
    phase. *)
Theorem recording_follows_game_phase (es : list Timelapse.event) :
  let st := run Timelapse.initial es in
  Recorder.isActive (Timelapse.world st)
    = is_game (Timelapse.currentPhase st).
Proof.
  intros st.
  destruct (run_module_inv es _ module_inv_initial)
    as (_ & _ & _ & _ & H & _).
  exact H.
Qed.

(** X14.  The middle click on a result image never starts the
    player: whenever it comes, the recorder hands out either null or
    the live session, whose strokes are still empty, so the handler
    returns before it loads anything, and the player of the module
    never holds a session. *)
Theorem album_click_never_plays (es : list Timelapse.event) (now : Q) :
  let st := run Timelapse.initial es in
  handleImageMMB now st = None /\
  step st (Timelapse.EvMiddleClick now) = st /\
  player_unloaded (Timelapse.player st).
Proof.
  intros st.
  pose proof (run_module_inv es _ module_inv_initial) as Hinv. fold st in Hinv.
  pose proof (handleImageMMB_returns_early now st Hinv) as E.
  split; [exact E|]. split.
  - cbn [Timelapse.step]. rewrite E. reflexivity.
  - apply Hinv.
Qed.

(** X15.  The module leaves the page as it found it: the
    interception is on [WebSocket.prototype.send] exactly while the
    module is enabled, and a disabled module neither records nor
    remembers a phase. *)
Theorem module_patches_while_enabled (es : list Timelapse.event) :
  let st := run Timelapse.initial es in
  Recorder.WebSocket_send (Timelapse.world st) =
    (if Timelapse.isEnabled st then Recorder.InterceptedSend
     else Recorder.NativeSend) /\
  (if Timelapse.isEnabled st then True
   else Recorder.isActive (Timelapse.world st) = false /\
        Timelapse.currentPhase st = None).
Proof.
  intros st.
  destruct (run_module_inv es _ module_inv_initial)
    as (_ & _ & _ & Hws & Hrec & Hph & _).
  fold st in Hws, Hrec, Hph.
  split; [exact Hws|].
  destruct (Timelapse.isEnabled st); [exact I|].
  specialize (Hph eq_refl). unfold Recorder.isActive.
  rewrite Hrec, Hph. split; reflexivity.
Qed.

End TimelapseFacts.

(* ================================================================== *)
(** ** More about the player *)
(* ================================================================== *)

Section PlayerMore.

Local Open Scope Q_scope.

Variable ext : jsval -> number.

Lemma scheduled_control (st st' : Player.state) :
  control st' = control st -> scheduled st -> scheduled st'.
Proof.
  unfold control, scheduled, Player.isPlayingActive.
  intros [= -> -> -> ->]. auto.
Qed.

Lemma notify_control (name : string) (st : Player.state) :
  control (Player._notifyStateChange name st) = control st.
Proof.
  unfold Player._notifyStateChange.
  destruct (Player.onStateChangeCallback st); reflexivity.
Qed.

Lemma clearCanvas_control (st : Player.state) :
  control (Player._clearCanvas st) = control st.
Proof. unfold Player._clearCanvas. destruct (Player.canvas st); reflexivity. Qed.

Lemma drawPoint_control (point : StrokePoint) (prev : option StrokePoint)
    (st : Player.state) :
  control (Player._drawPoint point prev st) = control st /\
  Player.loop (Player._drawPoint point prev st) = Player.loop st /\
  Player.completions (Player._drawPoint point prev st) = Player.completions st /\
  Player.currentStrokeIndex (Player._drawPoint point prev st)
    = Player.currentStrokeIndex st.
Proof.
  unfold Player._drawPoint.
  destruct (Player.canvas st); [destruct prev|]; repeat split; reflexivity.
Qed.

Lemma draw_strokes_control (budget : nat) (session : RecordingSession)
    (prev : option StrokePoint) (st : Player.state) :
  let st' := Player.draw_strokes budget session prev st in
  control st' = control st /\
  Player.loop st' = Player.loop st /\
  Player.completions st' = Player.completions st /\
  Player.currentSession st' = Player.currentSession st /\
  Player.canvas st' = Player.canvas st /\
  ((Player.currentStrokeIndex st <= List.length (strokes session))%nat ->
   (Player.currentStrokeIndex st' <= List.length (strokes session))%nat).
Proof.
  revert prev st. induction budget as [|b IH]; intros prev st;
    cbn [Player.draw_strokes]; [repeat split; auto|].
  destruct (nth_error (strokes session) (Player.currentStrokeIndex st))
    as [point|] eqn:E; [|repeat split; auto].
  assert (Hlt : (Player.currentStrokeIndex st < List.length (strokes session))%nat)
    by (apply nth_error_Some; congruence).
  destruct (drawPoint_control point prev st) as (D1 & D2 & D3 & D4).
  destruct (drawPoint_surface point prev st) as (D5 & D6).
  set (st1 := Player._drawPoint point prev st) in *.
  specialize (IH (Some point)
                 (Player.set_index st1 (S (Player.currentStrokeIndex st1)))).
  cbv zeta in IH. destruct IH as (I1 & I2 & I3 & I4 & I5 & I6).
  cbv zeta. rewrite I1, I2, I3, I4, I5.
  cbn [Player.set_index Player.loop Player.completions Player.currentSession
       Player.canvas].
  repeat split; try assumption.
  intros _. apply I6. cbn [Player.set_index Player.currentStrokeIndex].
  rewrite D4. lia.
Qed.

Lemma redraw_control (n i : nat) (session : RecordingSession)
    (prev : option StrokePoint) (st : Player.state) :
  control (Player.redraw n i session prev st) = control st.
Proof.
  revert i prev st. induction n as [|n IH]; intros i prev st;
    cbn [Player.redraw]; [reflexivity|].
  destruct (nth_error (strokes session) i); [|reflexivity].
  rewrite IH. apply drawPoint_control.
Qed.

Lemma scheduled_idle (st : Player.state) :
  scheduled st -> Player.isPlaying st && negb (Player.isPaused st) = false ->
  Player.pending st = [].
Proof.
  unfold scheduled, Player.isPlayingActive. intros H E. rewrite E in H. exact H.
Qed.

Lemma scheduled_active (st : Player.state) (i : nat) (rest : list nat) :
  scheduled st -> Player.pending st = i :: rest ->
  Player.isPlaying st = true /\ Player.isPaused st = false /\ rest = [].
Proof.
  unfold scheduled, Player.isPlayingActive. intros H E. rewrite E in H.
  destruct (Player.isPlaying st), (Player.isPaused st); cbn in H;
    try discriminate.
  injection H as _ ->. auto.
Qed.

Lemma filter_self (i : nat) :
  filter (fun j => negb (Nat.eqb j i)) [i] = [].
Proof. cbn. rewrite Nat.eqb_refl. reflexivity. Qed.

Lemma play_scheduled (now : Q) (st : Player.state) :
  scheduled st -> scheduled (snd (Player.play now st)).
Proof.
  intros H. unfold Player.play.
  destruct (Player.currentSession st); [|exact H].
  destruct (Player.isPlaying st && negb (Player.isPaused st))%bool eqn:E;
    [exact H|].
  cbn [snd]. unfold scheduled, Player.isPlayingActive.
  pose proof (scheduled_idle st H E) as Hp.
  match goal with
  | |- context [Player._notifyStateChange ?n ?s] =>
      pose proof (notify_control n s) as C
  end.
  unfold control in C. injection C as -> -> -> ->.
  cbn [Player.requestAnimationFrame Player.set_lastFrameTime Player.set_flags
       Player.isPlaying Player.isPaused Player.animationFrameId Player.pending
       Player.next_frame negb andb].
  rewrite Hp. reflexivity.
Qed.

Lemma onComplete_scheduled (now : Q) (st : Player.state) :
  Player.pending st = [] -> scheduled (Player._onComplete now st).
Proof.
  intros Hp. unfold Player._onComplete.
  set (st1 := Player.cancelAnimationFrame (Player.set_flags st false false)).
  assert (H1 : scheduled st1).
  { subst st1. unfold scheduled, Player.isPlayingActive.
    cbn [Player.cancelAnimationFrame Player.set_flags Player.isPlaying
         Player.isPaused Player.pending Player.animationFrameId andb].
    rewrite Hp. reflexivity. }
  destruct (Player.loop st1); [apply play_scheduled; exact H1|].
  eapply scheduled_control; [apply notify_control|].
  destruct (Player.onCompleteCallback st1); [|exact H1].
  eapply scheduled_control; [|exact H1]. reflexivity.
Qed.

Lemma step_scheduled (o : Player.op) (st : Player.state) :
  scheduled st -> scheduled (Player.step ext st o).
Proof.
  intros H. destruct o; cbn [Player.step].
  - unfold Player.loadSession. destruct session as [s|]; [|exact H].
    destruct (strokes s); [exact H|]. cbn [snd].
    cbn [Player.set_index Player.set_session Player.canvas].
    destruct (Player.canvas st);
      (eapply scheduled_control; [|exact H]); reflexivity.
  - apply play_scheduled. exact H.
  - unfold Player.pause.
    destruct (negb (Player.isPlaying st) || Player.isPaused st)%bool eqn:E;
      [exact H|].
    cbn [snd]. unfold scheduled, Player.isPlayingActive in *.
    match goal with
    | |- context [Player._notifyStateChange ?n ?s] =>
        pose proof (notify_control n s) as C
    end.
    unfold control in C. injection C as -> -> -> ->.
    cbn [Player.cancelAnimationFrame Player.set_flags Player.isPlaying
         Player.isPaused Player.animationFrameId Player.pending negb andb].
    destruct (Player.isPlaying st), (Player.isPaused st); try discriminate.
    cbn [negb andb] in *. rewrite H. apply filter_self.
  - unfold Player.resume.
    destruct (negb (Player.isPlaying st) || negb (Player.isPaused st))%bool
      eqn:E; [exact H|].
    cbn [snd]. unfold scheduled, Player.isPlayingActive in *.
    match goal with
    | |- context [Player._notifyStateChange ?n ?s] =>
        pose proof (notify_control n s) as C
    end.
    unfold control in C. injection C as -> -> -> ->.
    cbn [Player.requestAnimationFrame Player.set_lastFrameTime
         Player.set_flags Player.isPlaying Player.isPaused
         Player.animationFrameId Player.pending Player.next_frame negb andb].
    destruct (Player.isPlaying st), (Player.isPaused st); try discriminate.
    cbn [negb andb] in *. rewrite H. reflexivity.
  - unfold Player.stop.
    destruct (negb (Player.isPlaying st)) eqn:E; [exact H|].
    cbn [snd]. unfold scheduled, Player.isPlayingActive in *.
    match goal with
    | |- context [Player._notifyStateChange ?n ?s] =>
        pose proof (notify_control n s) as C
    end.
    unfold control in C. injection C as -> -> -> ->.
    match goal with
    | |- context [Player._clearCanvas ?s] =>
        pose proof (clearCanvas_control s) as C
    end.
    unfold control in C. injection C as -> -> -> ->.
    cbn [Player.set_index Player.cancelAnimationFrame Player.set_flags
         Player.isPlaying Player.isPaused Player.animationFrameId
         Player.pending negb andb].
    destruct (Player.isPlaying st), (Player.isPaused st); try discriminate;
      cbn [negb andb] in *; rewrite H; [reflexivity | apply filter_self].
  - unfold Player.seek.
    destruct (Player.currentSession st) as [session|]; [|exact H].
    cbn [snd].
    eapply scheduled_control; [|exact H].
    rewrite notify_control.
    match goal with
    | |- control (Player.set_index ?x ?t) = _ =>
        change (control x = control st)
    end.
    rewrite redraw_control. apply clearCanvas_control.
  - exact H.
  - unfold Player.frame.
    destruct (Player.pending st) as [|i rest] eqn:Ep; [exact H|].
    destruct (scheduled_active st i rest H Ep) as (Hp & Hq & ->).
    unfold Player._animationLoop.
    cbn [Player.take_frame Player.isPlaying Player.isPaused].
    rewrite Hp, Hq. cbn [negb orb].
    cbn [Player.set_lastFrameTime Player.take_frame Player.currentSession
         Player.currentStrokeIndex].
    fold (Player.take_frame st).
    fold (Player.set_lastFrameTime (Player.take_frame st) timestamp).
    assert (Hempty : Player.pending
                       (Player.set_lastFrameTime (Player.take_frame st)
                          timestamp) = []).
    { cbn [Player.set_lastFrameTime Player.take_frame Player.pending].
      rewrite Ep. reflexivity. }
    destruct (Player.currentSession st) as [session|];
      [|apply onComplete_scheduled; exact Hempty].
    destruct (List.length (strokes session) <=? Player.currentStrokeIndex st)%nat;
      [apply onComplete_scheduled; exact Hempty|].
    cbv zeta.
    match goal with
    | |- context [Player.draw_strokes ?b ?s ?p ?x] =>
        destruct (draw_strokes_control b s p x) as (C & _);
        set (st2 := Player.draw_strokes b s p x) in *
    end.
    unfold scheduled, Player.isPlayingActive.
    unfold control in C. injection C as C1 C2 C3 C4.
    cbn [Player.requestAnimationFrame Player.isPlaying Player.isPaused
         Player.animationFrameId Player.pending].
    rewrite C1, C2, C4.
    cbn [Player.set_lastFrameTime Player.take_frame Player.isPlaying
         Player.isPaused Player.pending].
    rewrite Hp, Hq, Ep. reflexivity.
  - exact H.
  - exact H.
  - unfold Player.destroy.
    assert (Hstop : scheduled (snd (Player.stop st))
                    /\ Player.isPlaying (snd (Player.stop st)) = false).
    { unfold Player.stop.
      destruct (Player.isPlaying st) eqn:Hp; cbn [negb snd];
        [|split; [exact H | exact Hp]].
      match goal with
      | |- context [Player._notifyStateChange ?n ?s] =>
          pose proof (notify_control n s) as C
      end.
      unfold scheduled, Player.isPlayingActive.
      unfold control in C. injection C as -> -> -> ->.
      match goal with
      | |- context [Player._clearCanvas ?s] =>
          pose proof (clearCanvas_control s) as C
      end.
      unfold control in C. injection C as -> -> -> ->.
      cbn [Player.set_index Player.cancelAnimationFrame Player.set_flags
           Player.isPlaying Player.isPaused Player.animationFrameId
           Player.pending negb andb].
      split; [|reflexivity].
      unfold scheduled, Player.isPlayingActive in H. rewrite Hp in H.
      destruct (Player.isPaused st); cbn [negb andb] in H; rewrite H;
        [reflexivity | apply filter_self]. }
    destruct Hstop as [Hs _].
    eapply scheduled_control; [|exact Hs]. reflexivity.
Qed.

Lemma run_scheduled (ops : list Player.op) (st : Player.state) :
  scheduled st -> scheduled (Player.run ext st ops).
Proof.
  revert st. induction ops as [|o ops IH]; intros st H; [exact H|].
  cbn [Player.run fold_left]. apply IH. apply step_scheduled. exact H.
Qed.


End PlayerMore.

Section PlayerCursor.

Local Open Scope Q_scope.

Variable ext : jsval -> number.

Lemma cursor_transfer (st st' : Player.state) :
  Player.currentSession st' = Player.currentSession st ->
  Player.currentStrokeIndex st' = Player.currentStrokeIndex st ->
  cursor_ok st -> cursor_ok st'.
Proof. unfold cursor_ok. intros -> ->. auto. Qed.

Lemma pause_fields (st : Player.state) :
  let st' := snd (Player.pause st) in
  Player.currentSession st' = Player.currentSession st /\
  Player.canvas st' = Player.canvas st /\
  Player.drawn st' = Player.drawn st /\
  Player.currentStrokeIndex st' = Player.currentStrokeIndex st.
Proof.
  unfold Player.pause.
  destruct (negb (Player.isPlaying st) || Player.isPaused st)%bool;
    [cbn; auto|].
  cbn [snd].
  match goal with
  | |- context [Player._notifyStateChange ?n ?s] =>
      destruct (notify_fields n s) as (H1 & H2 & H3 & H4 & _)
  end.
  cbv zeta. rewrite H1, H2, H3, H4. repeat split; reflexivity.
Qed.

Lemma resume_fields (now : Q) (st : Player.state) :
  let st' := snd (Player.resume now st) in
  Player.currentSession st' = Player.currentSession st /\
  Player.canvas st' = Player.canvas st /\
  Player.drawn st' = Player.drawn st /\
  Player.currentStrokeIndex st' = Player.currentStrokeIndex st.
Proof.
  unfold Player.resume.
  destruct (negb (Player.isPlaying st) || negb (Player.isPaused st))%bool;
    [cbn; auto|].
  cbn [snd].
  match goal with
  | |- context [Player._notifyStateChange ?n ?s] =>
      destruct (notify_fields n s) as (H1 & H2 & H3 & H4 & _)
  end.
  cbv zeta. rewrite H1, H2, H3, H4. repeat split; reflexivity.
Qed.

(** [stop] while playing: the cursor goes back to the start and the
    surface is cleared. *)
Lemma stop_effect (st : Player.state) :
  let st' := snd (Player.stop st) in
  Player.currentSession st' = Player.currentSession st /\
  Player.canvas st' = Player.canvas st /\
  (if Player.isPlaying st then
     Player.currentStrokeIndex st' = 0%nat /\
     Player.drawn st' =
       Player.drawn st ++
       match Player.canvas st with Some _ => [Player.Clear] | None => [] end
   else st' = st).
Proof.
  unfold Player.stop. destruct (Player.isPlaying st); cbn [negb snd];
    [|auto].
  match goal with
  | |- context [Player._notifyStateChange ?n ?s] =>
      destruct (notify_fields n s) as (H1 & H2 & H3 & H4 & _)
  end.
  cbv zeta. rewrite H1, H2, H3, H4.
  unfold Player._clearCanvas.
  cbn [Player.set_index Player.cancelAnimationFrame Player.set_flags
       Player.canvas].
  destruct (Player.canvas st) eqn:Ec; cbn; rewrite ?Ec, ?app_nil_r; auto.
Qed.

Lemma seek_index (progress : Q) (st : Player.state)
    (session : RecordingSession) :
  Player.currentSession st = Some session ->
  let st' := snd (Player.seek progress st) in
  Player.currentSession st' = Some session /\
  Player.canvas st' = Player.canvas st /\
  Player.currentStrokeIndex st' =
    Z.to_nat (Qfloor (Double.rnd (Player.Qclamp 0 1 progress
                                  * array_length (strokes session)))) /\
  (Player.currentStrokeIndex st' <= List.length (strokes session))%nat.
Proof.
  intros Hs. unfold Player.seek. rewrite Hs. cbn [snd].
  match goal with
  | |- context [Player._notifyStateChange ?n ?s] =>
      destruct (notify_fields n s) as (H1 & H2 & H3 & H4 & _)
  end.
  cbv zeta. rewrite H1, H2, H4.
  cbn [Player.set_index Player.currentSession Player.canvas
       Player.currentStrokeIndex].
  match goal with
  | |- context [Player.redraw ?n ?i ?se ?pv ?s] =>
      destruct (redraw_surface n i se pv s) as (H5 & H6)
  end.
  destruct (clearCanvas_surface st) as (H7 & H8).
  rewrite H5, H6, H7, H8.
  repeat split; try assumption; try reflexivity.
  apply floor_of_fraction.
  apply (Qclamp_spec 0 1 progress). reflexivity.
Qed.

Lemma animationLoop_cursor (timestamp now : Q) (st : Player.state) :
  let st' := Player._animationLoop timestamp now st in
  Player.currentSession st' = Player.currentSession st /\
  Player.canvas st' = Player.canvas st /\
  (cursor_ok st -> cursor_ok st').
Proof.
  unfold Player._animationLoop.
  destruct (negb (Player.isPlaying st) || Player.isPaused st)%bool;
    [cbn; auto|].
  set (st1 := Player.set_lastFrameTime st timestamp).
  assert (Hc : forall x : Player.state,
             Player.currentSession x = Player.currentSession st ->
             Player.canvas x = Player.canvas st ->
             Player.currentStrokeIndex x = Player.currentStrokeIndex st ->
             Player.currentSession x = Player.currentSession st /\
             Player.canvas x = Player.canvas st /\
             (cursor_ok st -> cursor_ok x)).
  { intros x H1 H2 H3. repeat split; try assumption.
    apply cursor_transfer; assumption. }
  assert (Hcomp :
    Player.currentSession (Player._onComplete now st1)
      = Player.currentSession st /\
    Player.canvas (Player._onComplete now st1) = Player.canvas st /\
    (cursor_ok st -> cursor_ok (Player._onComplete now st1))).
  { destruct (onComplete_fields now st1) as (O1 & O2 & _ & O4 & _).
    apply Hc; assumption. }
  cbv zeta.
  destruct (Player.currentSession st1) as [session|] eqn:Es;
    [|exact Hcomp].
  destruct (List.length (strokes session) <=? Player.currentStrokeIndex st1)%nat;
    [exact Hcomp|].
  clear Hcomp.
  match goal with
  | |- context [Player.draw_strokes ?b ?s ?p ?x] =>
      destruct (draw_strokes_control b s p x) as (_ & _ & _ & D4 & D5 & D6)
  end.
  cbn [Player.requestAnimationFrame Player.currentSession Player.canvas].
  rewrite D4, D5. repeat split; try reflexivity.
  unfold cursor_ok.
  cbn [Player.requestAnimationFrame Player.currentSession
       Player.currentStrokeIndex].
  rewrite D4.
  change (Player.currentSession st1) with (Player.currentSession st) in *.
  rewrite Es. exact D6.
Qed.

(** What every call but [loadSession] and [destroy] leaves alone. *)
Lemma step_static (o : Player.op) (st : Player.state) :
  keeps_session o = true ->
  Player.currentSession (Player.step ext st o) = Player.currentSession st /\
  Player.canvas (Player.step ext st o) = Player.canvas st.
Proof.
  intros Hk. destruct o; try discriminate Hk; cbn [Player.step].
  - destruct (play_fields now st) as (H1 & H2 & _). auto.
  - destruct (pause_fields st) as (H1 & H2 & _). auto.
  - destruct (resume_fields now st) as (H1 & H2 & _). auto.
  - destruct (stop_effect st) as (H1 & H2 & _). auto.
  - destruct (Player.currentSession st) as [session|] eqn:Es.
    + destruct (seek_index progress st session Es) as (H1 & H2 & _).
      split; [rewrite H1; reflexivity | exact H2].
    + unfold Player.seek. rewrite Es. auto.
  - auto.
  - unfold Player.frame. destruct (Player.pending st); [auto|].
    destruct (animationLoop_cursor timestamp now (Player.take_frame st))
      as (H1 & H2 & _). auto.
  - auto.
  - auto.
Qed.

Lemma step_cursor (o : Player.op) (st : Player.state) :
  cursor_ok st -> cursor_ok (Player.step ext st o).
Proof.
  intros H. destruct o; cbn [Player.step].
  - unfold Player.loadSession. destruct session as [s|]; [|exact H].
    destruct (strokes s) eqn:Es; [exact H|]. cbn [snd].
    unfold cursor_ok.
    cbn [Player.set_index Player.set_session Player.canvas].
    destruct (Player.canvas st); cbn; lia.
  - destruct (play_fields now st) as (H1 & _ & _ & H4 & _).
    apply (cursor_transfer st); assumption.
  - destruct (pause_fields st) as (H1 & _ & _ & H4).
    apply (cursor_transfer st); assumption.
  - destruct (resume_fields now st) as (H1 & _ & _ & H4).
    apply (cursor_transfer st); assumption.
  - destruct (stop_effect st) as (H1 & _ & H3).
    destruct (Player.isPlaying st); [|rewrite H3; exact H].
    destruct H3 as [H3 _]. unfold cursor_ok. rewrite H1, H3.
    destruct (Player.currentSession st); [lia | exact I].
  - destruct (Player.currentSession st) as [session|] eqn:Es.
    + destruct (seek_index progress st session Es) as (H1 & _ & _ & H4).
      unfold cursor_ok. rewrite H1. exact H4.
    + unfold Player.seek. rewrite Es. exact H.
  - exact H.
  - unfold Player.frame. destruct (Player.pending st); [exact H|].
    apply (animationLoop_cursor timestamp now (Player.take_frame st)).
    exact H.
  - exact H.
  - exact H.
  - unfold cursor_ok, Player.destroy. cbn. exact I.
Qed.

Lemma run_cursor (ops : list Player.op) (st : Player.state) :
  cursor_ok st -> cursor_ok (Player.run ext st ops).
Proof.
  revert st. induction ops as [|o ops IH]; intros st H; [exact H|].
  cbn [Player.run fold_left]. apply IH. apply step_cursor. exact H.
Qed.

(** X17.  The cursor never leaves the session: in every state the
    player can reach the index of the next stroke is at most the
    number of strokes of the loaded session, and the progress
    reported lies between 0 and 1. *)
Theorem cursor_within_session (cfg_speed : option Q) (cfg_loop : option bool)
    (ops : list Player.op) :
  let st := Player.run ext (Player.create cfg_speed cfg_loop) ops in
  cursor_ok st /\ 0 <= Player.getProgress st <= 1.
Proof.
  intros st.
  assert (H : cursor_ok st) by (apply run_cursor; exact I).
  split; [exact H|].
  unfold cursor_ok in H. unfold Player.getProgress.
  destruct (Player.currentSession st) as [session|];
    [|split; discriminate].
  destruct (List.length (strokes session)) as [|n] eqn:En;
    [split; discriminate|].
  assert (Hpos : 0 < inject_Z (Z.of_nat (S n))).
  { change 0 with (inject_Z 0). rewrite <- Zlt_Qlt. lia. }
  apply (rnd_bounds _ 1); [reflexivity|].
  split.
  - apply Qle_shift_div_l; [exact Hpos|]. rewrite Qmult_0_l.
    change 0 with (inject_Z 0). rewrite <- Zle_Qle. lia.
  - apply Qle_shift_div_r; [exact Hpos|]. rewrite Qmult_1_l.
    rewrite <- Zle_Qle. lia.
Qed.

Lemma step_canvas (o : Player.op) (st : Player.state) (c : Player.Canvas) :
  keeps_canvas o = true -> Player.canvas st = Some c ->
  Player.canvas (Player.step ext st o) = Some c.
Proof.
  intros Hk Hc. destruct o; try discriminate Hk;
    try (match goal with
         | |- Player.canvas (Player.step ext st ?o) = _ =>
             rewrite (proj2 (step_static o st eq_refl)); exact Hc
         end).
  cbn [Player.step]. unfold Player.loadSession.
  destruct session as [s|]; [|exact Hc].
  destruct (strokes s); [exact Hc|]. cbn [snd].
  cbn [Player.set_index Player.set_session Player.canvas].
  rewrite Hc. exact Hc.
Qed.

(** X18.  The canvas is made once: when the player has a canvas, no
    call but [destroy] replaces or resizes it, and loading another
    session neither clears it nor draws on it. *)
Theorem canvas_sized_once (st : Player.state) (c : Player.Canvas)
    (ops : list Player.op) :
  Player.canvas st = Some c ->
  forallb keeps_canvas ops = true ->
  Player.canvas (Player.run ext st ops) = Some c /\
  forall session,
    Player.canvas (snd (Player.loadSession ext session st)) = Some c /\
    Player.drawn (snd (Player.loadSession ext session st)) = Player.drawn st.
Proof.
  intros Hc Hk. split.
  - revert st Hc. induction ops as [|o ops IH]; intros st Hc; [exact Hc|].
    cbn [forallb] in Hk. apply andb_prop in Hk. destruct Hk as [Ho Hk].
    cbn [Player.run fold_left]. apply (IH Hk).
    apply step_canvas; assumption.
  - intros session. unfold Player.loadSession.
    destruct session as [s|]; [|auto].
    destruct (strokes s); [auto|]. cbn [snd].
    cbn [Player.set_index Player.set_session Player.canvas].
    rewrite Hc. auto.
Qed.

End PlayerCursor.

(** X18: a second session does not change the canvas of the first. *)
Lemma canvas_sized_once_witness :
  let st := Player.run RefJSON.ToNumber_ext (Player.create None None)
              [Player.OpLoad (Some Frames.three)] in
  let other := mkSession "rec_2_other" 0 9 [Frames.p2] (JObj []) in
  Player.canvas
    (Player.run RefJSON.ToNumber_ext st
       [Player.OpSeek 1; Player.OpLoad (Some other); Player.OpPlay 0])
    = Some (Player.mkCanvas (Fin 130) (Fin 125)).
Proof.
  intros st other.
  destruct (canvas_sized_once RefJSON.ToNumber_ext st
              (Player.mkCanvas (Fin 130) (Fin 125))
              [Player.OpSeek 1; Player.OpLoad (Some other); Player.OpPlay 0])
    as [H _].
  - vm_compute. reflexivity.
  - reflexivity.
  - exact H.
Defined.

(* ================================================================== *)
(** ** What the canvas shows *)
(* ================================================================== *)

Lemma targets_chain (prev : option StrokePoint) (l : list StrokePoint) :
  targets (Player.chain_from prev l) = l.
Proof.
  revert prev. induction l as [|p l IH]; intros prev; [reflexivity|].
  destruct prev; cbn [Player.chain_from]; unfold targets in *;
    cbn [flat_map target opt_list app]; rewrite IH; reflexivity.
Qed.

Lemma visible_app_chain (log : list Player.canvas_op)
    (acc : list Player.canvas_op) (prev : option StrokePoint)
    (l : list StrokePoint) :
  Player.visible_from acc (log ++ Player.chain_from prev l)
  = Player.visible_from acc log ++ Player.chain_from prev l.
Proof.
  revert acc. induction log as [|o log IH]; intros acc.
  - apply chain_from_visible.
  - destruct o; cbn [app Player.visible_from]; apply IH.
Qed.

Lemma firstn_extend {A} (l : list A) (i b : nat) :
  firstn i l ++ firstn b (skipn i l)
  = firstn (i + List.length (firstn b (skipn i l))) l.
Proof.
  revert l. induction i as [|i IH]; intros l.
  - cbn [firstn skipn app Nat.add].
    revert l. induction b as [|b IHb]; intros l; [reflexivity|].
    destruct l as [|x l]; [reflexivity|].
    cbn [firstn List.length]. f_equal. apply IHb.
  - destruct l as [|x l]; [destruct b; reflexivity|].
    cbn [firstn skipn app Nat.add]. f_equal. apply IH.
Qed.

Section PlayerShows.

Local Open Scope Q_scope.

Variable ext : jsval -> number.

Lemma shows_transfer (st st' : Player.state) (session : RecordingSession) :
  Player.currentSession st' = Player.currentSession st ->
  Player.canvas st' = Player.canvas st ->
  Player.drawn st' = Player.drawn st ->
  Player.currentStrokeIndex st' = Player.currentStrokeIndex st ->
  shows st session -> shows st' session.
Proof. unfold shows, Player.visible. intros -> -> -> ->. auto. Qed.

Lemma seek_drawn (progress : Q) (st : Player.state)
    (session : RecordingSession) (c : Player.Canvas) :
  Player.currentSession st = Some session ->
  Player.canvas st = Some c ->
  let st' := snd (Player.seek progress st) in
  Player.drawn st' =
    Player.drawn st ++
    Player.Clear ::
      Player.chain (firstn (Player.currentStrokeIndex st') (strokes session)).
Proof.
  intros Hs Hc st'.
  destruct (seek_index progress st session Hs) as (_ & _ & Hi & Hle).
  fold st' in Hi, Hle. rewrite Hi in *. clear Hi.
  subst st'. unfold Player.seek. rewrite Hs. cbn [snd].
  set (t := Z.to_nat
              (Qfloor (Double.rnd (Player.Qclamp 0 1 progress
                                   * array_length (strokes session))))) in *.
  match goal with
  | |- context [Player._notifyStateChange ?nm ?s] =>
      destruct (notify_fields nm s) as (_ & _ & -> & _)
  end.
  cbn [Player.set_index Player.drawn].
  assert (Hclear : Player._clearCanvas st = Player.emit st Player.Clear)
    by (unfold Player._clearCanvas; now rewrite Hc).
  rewrite Hclear.
  rewrite (redraw_emits t 0 session None (Player.emit st Player.Clear) c Hc Hle).
  match goal with
  | |- context [Player.emits ?s ?l] =>
      destruct (emits_fields l s) as (-> & _)
  end.
  cbn [Player.emit Player.drawn skipn]. rewrite <- app_assoc. reflexivity.
Qed.

Lemma step_shows (o : Player.op) (st : Player.state)
    (session : RecordingSession) :
  keeps_session o = true -> shows st session ->
  shows (Player.step ext st o) session.
Proof.
  intros Hk Hs. pose proof Hs as (Hsess & Hcanvas & Hvis).
  destruct (Player.canvas st) as [c|] eqn:Hc; [clear Hcanvas|congruence].
  destruct o; try discriminate Hk; cbn [Player.step].
  - destruct (play_fields now st) as (H1 & H2 & H3 & H4 & _).
    apply (shows_transfer st); assumption.
  - destruct (pause_fields st) as (H1 & H2 & H3 & H4).
    apply (shows_transfer st); assumption.
  - destruct (resume_fields now st) as (H1 & H2 & H3 & H4).
    apply (shows_transfer st); assumption.
  - destruct (stop_effect st) as (H1 & H2 & H3).
    destruct (Player.isPlaying st); [|rewrite H3; exact Hs].
    destruct H3 as [H3 H4]. rewrite Hc in H4.
    unfold shows, Player.visible. rewrite H1, H2, H3, H4, Hc.
    rewrite visible_after_clear.
    repeat split; [exact Hsess | discriminate].
  - destruct (seek_index progress st session Hsess) as (H1 & H2 & _ & _).
    pose proof (seek_drawn progress st session c Hsess Hc) as H3.
    cbv zeta in H3.
    unfold shows, Player.visible. rewrite H1, H2, H3, Hc.
    rewrite visible_after_clear.
    unfold Player.chain. rewrite (chain_from_visible None _ []).
    cbn [app]. rewrite targets_chain.
    repeat split; discriminate.
  - apply (shows_transfer st); [reflexivity..|exact Hs].
  - unfold Player.frame.
    destruct (Player.pending st) as [|i rest]; [exact Hs|].
    set (st0 := Player.take_frame st).
    assert (Hs0 : shows st0 session)
      by (apply (shows_transfer st); [reflexivity..|exact Hs]).
    assert (Hc0 : Player.canvas st0 = Some c) by exact Hc.
    assert (Hsess0 : Player.currentSession st0 = Some session) by exact Hsess.
    clearbody st0.
    destruct (Player.isPlaying st0) eqn:Hp;
      [destruct (Player.isPaused st0) eqn:Hq|];
      try (unfold Player._animationLoop; rewrite Hp, ?Hq; exact Hs0).
    destruct (Nat.leb_spec (List.length (strokes session))
                (Player.currentStrokeIndex st0)) as [Hend|Hlt].
    + unfold Player._animationLoop. rewrite Hp, Hq. cbn [negb orb].
      cbn [Player.set_lastFrameTime Player.currentSession
           Player.currentStrokeIndex].
      rewrite Hsess0.
      apply Nat.leb_le in Hend. rewrite Hend.
      match goal with
      | |- shows (Player._onComplete ?n ?s) _ =>
          destruct (onComplete_fields n s) as (H1 & H2 & H3 & H4 & _)
      end.
      eapply shows_transfer; [exact H1 | exact H2 | exact H3 | exact H4|].
      apply (shows_transfer st0); [reflexivity..|exact Hs0].
    + destruct (animationLoop_draws timestamp now st0 session c Hp Hq Hsess0
                  Hc0 Hlt) as (H1 & H2 & H3 & H4).
      destruct Hs0 as (_ & _ & Hvis0).
      unfold shows, Player.visible in *. rewrite H1, H2, H3, H4, Hc0.
      unfold Player.chain. rewrite visible_app_chain.
      unfold targets in *. rewrite flat_map_app.
      fold (targets (Player.chain_from None
              (firstn (iterations
                         (Player._calculateStrokesPerFrame st0
                            (Double.sub (Fin timestamp)
                                        (Fin (Player.lastFrameTime st0))))
                         (List.length (strokes session)))
                 (skipn (Player.currentStrokeIndex st0) (strokes session))))).
      rewrite targets_chain, Hvis0.
      repeat split; [exact Hsess0 | discriminate | apply firstn_extend].
  - apply (shows_transfer st); [reflexivity..|exact Hs].
  - apply (shows_transfer st); [reflexivity..|exact Hs].
Qed.

Lemma run_shows (ops : list Player.op) (st : Player.state)
    (session : RecordingSession) :
  forallb keeps_session ops = true -> shows st session ->
  shows (Player.run ext st ops) session.
Proof.
  revert st. induction ops as [|o ops IH]; intros st Hk Hs; [exact Hs|].
  cbn [forallb] in Hk. apply andb_prop in Hk. destruct Hk as [Ho Hk].
  cbn [Player.run fold_left]. apply (IH _ Hk). apply step_shows; assumption.
Qed.


End PlayerShows.


(* ================================================================== *)
(** ** The loop option *)
(* ================================================================== *)

Section PlayerLoop.

Local Open Scope Q_scope.

Variable ext : jsval -> number.

Lemma frame_at_end_looping (timestamp now : Q) (st : Player.state) :
  at_end_looping st ->
  let st' := Player.frame timestamp now st in
  at_end_looping st' /\
  Player.drawn st' = Player.drawn st /\
  Player.currentStrokeIndex st' = Player.currentStrokeIndex st /\
  Player.completions st' = Player.completions st /\
  Player.onStateChangeCallback st' = Player.onStateChangeCallback st /\
  List.length (Player.state_changes st') =
    (List.length (Player.state_changes st) +
     if Player.onStateChangeCallback st then 1 else 0)%nat.
Proof.
  intros (Hloop & Hact & Hpend & session & Hsess & Hend) st'. subst st'.
  unfold Player.isPlayingActive in Hact.
  apply andb_prop in Hact. destruct Hact as [Hp Hq].
  apply Bool.negb_true_iff in Hq. apply Nat.leb_le in Hend.
  destruct st as [sp lp cs cv ip iq idx fid lft cbS cbC dr pd nf sc cm].
  cbn [Player.loop Player.isPlaying Player.isPaused Player.pending
       Player.currentSession Player.currentStrokeIndex] in *.
  subst lp ip iq cs.
  destruct pd as [|i rest]; [congruence|].
  unfold Player.frame, Player._animationLoop, Player._onComplete, Player.play,
    Player._notifyStateChange, at_end_looping, Player.isPlayingActive.
  cbn [Player.take_frame Player.set_lastFrameTime Player.set_flags
       Player.cancelAnimationFrame Player.requestAnimationFrame
       Player.log_change
       Player.speed Player.loop Player.currentSession Player.canvas
       Player.isPlaying Player.isPaused Player.currentStrokeIndex
       Player.animationFrameId Player.lastFrameTime
       Player.onStateChangeCallback Player.onCompleteCallback Player.drawn
       Player.pending Player.next_frame Player.state_changes
       Player.completions negb orb andb snd tl].
  rewrite Hend.
  cbn [Player.take_frame Player.set_lastFrameTime Player.set_flags
       Player.cancelAnimationFrame Player.requestAnimationFrame
       Player.log_change
       Player.speed Player.loop Player.currentSession Player.canvas
       Player.isPlaying Player.isPaused Player.currentStrokeIndex
       Player.animationFrameId Player.lastFrameTime
       Player.onStateChangeCallback Player.onCompleteCallback Player.drawn
       Player.pending Player.next_frame Player.state_changes
       Player.completions negb orb andb snd tl].
  assert (Hnonempty : forall l : list nat, l ++ [nf] <> [])
    by (intros l E; apply app_eq_nil in E; destruct E; discriminate).
  destruct cbS;
    cbn [Player.take_frame Player.set_lastFrameTime Player.set_flags
         Player.cancelAnimationFrame Player.requestAnimationFrame
         Player.log_change
         Player.speed Player.loop Player.currentSession Player.canvas
         Player.isPlaying Player.isPaused Player.currentStrokeIndex
         Player.animationFrameId Player.lastFrameTime
         Player.onStateChangeCallback Player.onCompleteCallback Player.drawn
         Player.pending Player.next_frame Player.state_changes
         Player.completions negb orb andb snd tl];
    (split;
     [split; [reflexivity|]; split; [reflexivity|];
      split; [apply Hnonempty|];
      exists session; split; [reflexivity | apply Nat.leb_le; exact Hend]
     |repeat split; rewrite ?length_app; cbn [List.length]; lia]).
Qed.

(** X20.  The loop option never replays: once the cursor is at the
    end of the session, every frame finds the replay complete and
    calls [play] again, which does not move the cursor, so the player
    goes on playing for ever, draws nothing more, never reports the
    completion, and tells its listener once per frame that it is
    playing. *)
Theorem loop_never_replays (st : Player.state) (fs : list (Q * Q)) :
  at_end_looping st ->
  let st' := Player.run ext st (frames fs) in
  at_end_looping st' /\
  Player.drawn st' = Player.drawn st /\
  Player.currentStrokeIndex st' = Player.currentStrokeIndex st /\
  Player.completions st' = Player.completions st /\
  List.length (Player.state_changes st') =
    (List.length (Player.state_changes st) +
     if Player.onStateChangeCallback st then List.length fs else 0)%nat.
Proof.
  revert st. induction fs as [|[t n] fs IH]; intros st H.
  - cbn [frames map Player.run fold_left List.length].
    split; [exact H|]. repeat split.
    destruct (Player.onStateChangeCallback st); rewrite Nat.add_0_r;
      reflexivity.
  - cbn [frames map Player.run fold_left Player.step fst snd].
    destruct (frame_at_end_looping t n st H) as (H1 & H2 & H3 & H4 & H5 & H6).
    specialize (IH _ H1). cbv zeta in IH.
    destruct IH as (I1 & I2 & I3 & I4 & I5).
    fold (frames fs). fold (Player.run ext (Player.frame t n st) (frames fs)).
    split; [exact I1|].
    rewrite I2, I3, I4, I5, H2, H3, H4, H5, H6.
    repeat split.
    destruct (Player.onStateChangeCallback st); cbn [List.length]; lia.
Qed.

End PlayerLoop.

(** X20 on the playback with the loop option, two frames later. *)
Lemma loop_never_replays_witness :
  let st := Player.run RefJSON.ToNumber_ext (Player.create None (Some true))
              Frames.playback in
  let st' := Player.run RefJSON.ToNumber_ext st
               (frames [(64, 64); (80, 80)]%Q) in
  Player.currentStrokeIndex st = 3%nat /\
  Player.isPlayingActive st' = true /\
  Player.drawn st' = Player.drawn st.
Proof.
  intros st st'.
  assert (H : at_end_looping st).
  { split; [reflexivity|]. split; [vm_compute; reflexivity|].
    split; [vm_compute; discriminate|].
    exists Frames.three.
    split; [vm_compute; reflexivity | vm_compute; apply le_n]. }
  destruct (loop_never_replays RefJSON.ToNumber_ext st [(64, 64); (80, 80)]%Q H)
    as ((_ & H1 & _) & H2 & _).
  split; [vm_compute; reflexivity|]. split; [exact H1 | exact H2].
Defined.

(* ================================================================== *)
(** ** Facts about the handlers of the player UI *)
(* ================================================================== *)

(** [loadSession] of a session with strokes, then [play]. *)
Lemma play_after_load (ext : jsval -> number) (play_now : Q)
    (session : RecordingSession) (player : Player.state) :
  strokes session <> [] ->
  let st := snd (Player.play play_now
                   (snd (Player.loadSession ext (Some session) player))) in
  Player.currentSession st = Some session /\
  Player.currentStrokeIndex st = 0%nat /\
  Player.isPlayingActive st = true /\
  Player.drawn st = Player.drawn player.
Proof.
  intros Hne. unfold Player.loadSession.
  destruct (strokes session) as [|p l] eqn:Es; [congruence|].
  cbn [snd].
  match goal with
  | |- context [Player.play play_now ?s] =>
      set (st1 := s);
      destruct (play_fields play_now st1) as (H1 & _ & H3 & H4 & _)
  end.
  cbv zeta. rewrite H1, H3, H4.
  assert (Hs1 : Player.currentSession st1 = Some session)
    by (subst st1; cbn [Player.set_index Player.set_session Player.canvas];
        destruct (Player.canvas player); reflexivity).
  assert (Hd1 : Player.drawn st1 = Player.drawn player)
    by (subst st1; cbn [Player.set_index Player.set_session Player.canvas];
        destruct (Player.canvas player); reflexivity).
  assert (Hi1 : Player.currentStrokeIndex st1 = 0%nat)
    by (subst st1; cbn [Player.set_index Player.set_session Player.canvas];
        destruct (Player.canvas player); reflexivity).
  repeat split; try assumption.
  clearbody st1. unfold Player.play, Player.isPlayingActive. rewrite Hs1.
  destruct (Player.isPlaying st1 && negb (Player.isPaused st1))%bool eqn:E;
    [exact E|].
  cbn [snd].
  match goal with
  | |- context [Player._notifyStateChange ?n ?s] =>
      destruct (notify_fields n s) as (_ & _ & _ & _ & -> & -> & _)
  end.
  reflexivity.
Qed.

Section UIFacts.

Local Open Scope Q_scope.

Variable ext : jsval -> number.
Variable parse_data : string -> option IO.ImportData.

(** X22.  The play/pause button pauses a playing player and takes it
    up again where it was: the second press goes through [play], which
    on a paused player does what [resume] does, so the cursor and the
    canvas are those of the moment of the first press. *)
Theorem play_pause_toggle (t1 t2 : Q) (st : Player.state) :
  Player.currentSession st <> None ->
  Player.isPlayingActive st = true ->
  let st1 := PlayerUI._handlePlayPause t1 st in
  let st2 := PlayerUI._handlePlayPause t2 st1 in
  st1 = snd (Player.pause st) /\
  Player.isPlaybackPaused st1 = true /\
  st2 = snd (Player.play t2 st1) /\
  Player.play t2 st1 = Player.resume t2 st1 /\
  Player.isPlayingActive st2 = true /\
  Player.currentStrokeIndex st2 = Player.currentStrokeIndex st /\
  Player.drawn st2 = Player.drawn st.
Proof.
  intros Hsess Hact.
  unfold Player.isPlayingActive in Hact.
  apply andb_prop in Hact. destruct Hact as [Hp Hq].
  apply Bool.negb_true_iff in Hq.
  destruct st as [sp lp cs cv ip iq idx fid lft cbS cbC dr pd nf sc cm].
  cbn [Player.isPlaying Player.isPaused Player.currentSession] in *.
  subst ip iq. destruct cs as [session|]; [clear Hsess | congruence].
  unfold PlayerUI._handlePlayPause, Player.isPlayingActive, Player.pause,
    Player.play, Player.resume, Player._notifyStateChange,
    Player.isPlaybackPaused.
  destruct cbS; cbn; repeat split; reflexivity.
Qed.



End UIFacts.

(** X22 one frame into the playback. *)
Lemma play_pause_toggle_witness :
  let st := Player.run RefJSON.ToNumber_ext (Player.create None None)
              [Player.OpLoad (Some Frames.three); Player.OpPlay 0;
               Player.OpFrame 16 16]%Q in
  let st2 := PlayerUI._handlePlayPause 40 (PlayerUI._handlePlayPause 20 st) in
  Player.isPlayingActive st2 = true /\
  Player.currentStrokeIndex st2 = 1%nat.
Proof.
  intros st st2.
  destruct (play_pause_toggle 20 40 st) as (_ & _ & _ & _ & H5 & H6 & _).
  - vm_compute. discriminate.
  - vm_compute. reflexivity.
  - split; [exact H5|]. fold st2 in H6. rewrite H6. vm_compute. reflexivity.
Defined.

(* ================================================================== *)
(** ** Facts about the gesture handler *)
(* ================================================================== *)

Lemma bracketed_snoc (l : list Gesture.call) (c : Gesture.call) (o b : bool) :
  Gesture.bracketed o l = Some b ->
  Gesture.bracketed o (l ++ [c]) =
    match c with
    | Gesture.OnStart _ => if b then None else Some true
    | Gesture.OnUpdate _ => if b then Some true else None
    | Gesture.OnEnd _ => if b then Some false else None
    end.
Proof.
  revert o. induction l as [|x l IH]; intros o H.
  - cbn in H. injection H as ->. destruct c, b; reflexivity.
  - destruct x, o; cbn [app Gesture.bracketed] in *;
      try discriminate; apply IH; exact H.
Qed.

Section GestureFacts.

Local Open Scope Q_scope.

Lemma emit_effect (h : Gesture.handler) (c : Gesture.call) :
  Gesture.config (snd (Gesture.emit h c)) = Gesture.config h /\
  Gesture.state (snd (Gesture.emit h c)) = Gesture.state h /\
  Gesture.returns (snd (Gesture.emit h c)) = Gesture.returns h /\
  Gesture.calls (snd (Gesture.emit h c)) = Gesture.calls h ++ [c] /\
  (Gesture.returns h c = true ->
   fst (Gesture.emit h c) = Normal tt).
Proof.
  unfold Gesture.emit. destruct (Gesture.returns h c); cbn; auto 10.
  repeat split; discriminate.
Qed.

(** The end of a gesture, whether [onEnd] returns or throws. *)
Lemma finish_inv (h : Gesture.handler) :
  gesture_inv h -> Gesture.isActive (Gesture.state h) = true ->
  gesture_inv (snd (Gesture.finish h)).
Proof.
  intros (H1 & H2 & H3 & H4) Ha.
  unfold Gesture.finish.
  destruct h as [cfg s ret log]. cbn [Gesture.state Gesture.calls] in *.
  rewrite Ha in *. cbn [andb] in H1.
  unfold Gesture.emit, Gesture.set_state, Gesture._resetState.
  cbn [Gesture.state Gesture.config Gesture.returns Gesture.calls].
  assert (Hb : Gesture.bracketed false
                 (log ++ [Gesture.OnEnd (Gesture.with_active s false)])
               = Some false)
    by (rewrite (bracketed_snoc _ _ _ _ H3); reflexivity).
  assert (Hall : Forall call_ok
                   (log ++ [Gesture.OnEnd (Gesture.with_active s false)])).
  { apply Forall_app. split; [exact H4|].
    constructor; [|constructor]. split; [reflexivity | exact H1]. }
  destruct (ret (Gesture.OnEnd (Gesture.with_active s false)));
    cbn [snd Gesture.state Gesture.calls Gesture.config Gesture.returns];
    unfold gesture_inv;
    cbn [Gesture.state Gesture.calls Gesture.with_active Gesture.isActive
         Gesture.isPrepared Gesture.triggerKey andb];
    repeat split; try assumption; try reflexivity; try discriminate.
Qed.

Lemma step_gesture_inv (o : Gesture.op) (h : Gesture.handler) :
  gesture_inv h -> gesture_inv (Gesture.step h o).
Proof.
  intros Hinv. pose proof Hinv as (H1 & H2 & H3 & H4).
  destruct o as [k|e v sn ax|e| |k|k|k| |v|a]; cbn [Gesture.step].
  - (* key down *)
    unfold Gesture.handleKeyDown.
    destruct (Gesture.has k (Gesture.triggerKeys (Gesture.config h))
              && negb (Gesture.isActive (Gesture.state h)))%bool eqn:E;
      [|exact Hinv].
    apply andb_prop in E. destruct E as [_ E].
    apply Bool.negb_true_iff in E. cbn [snd].
    unfold gesture_inv.
    cbn [Gesture.set_state Gesture.state Gesture.calls Gesture.with_prepared
         Gesture.isActive Gesture.isPrepared Gesture.triggerKey].
    rewrite E in *.
    repeat split; try assumption; try reflexivity; discriminate.
  - (* mouse down *)
    unfold Gesture.handleMouseDown.
    destruct ((Gesture.button e =? 0)%Z
              && Gesture.isPrepared (Gesture.state h)
              && negb (Gesture.isActive (Gesture.state h)))%bool eqn:E;
      [|exact Hinv].
    apply andb_prop in E. destruct E as [E Ea].
    apply andb_prop in E. destruct E as [_ Ep].
    apply Bool.negb_true_iff in Ea.
    destruct h as [cfg s ret log]. cbn [Gesture.state Gesture.calls] in *.
    assert (Hk : Gesture.triggerKey s <> None).
    { intros Hn. destruct (H2 Hn) as [_ Hp]. congruence. }
    rewrite Ea in H3.
    unfold Gesture.emit, Gesture.set_state.
    cbn [Gesture.state Gesture.config Gesture.returns Gesture.calls].
    match goal with
    | |- context [ret (Gesture.OnStart ?x)] =>
        set (s' := x);
        assert (Hb : Gesture.bracketed false (log ++ [Gesture.OnStart s'])
                     = Some true)
          by (rewrite (bracketed_snoc _ _ _ _ H3); reflexivity);
        assert (Hall : Forall call_ok (log ++ [Gesture.OnStart s']))
          by (apply Forall_app; split; [exact H4|];
              constructor; [|constructor];
              repeat split; try reflexivity; exact Hk);
        destruct (ret (Gesture.OnStart s'))
    end;
      cbn [snd]; unfold gesture_inv;
      cbn [Gesture.state Gesture.calls];
      (split; [reflexivity|]);
      (split; [intros Hn; exfalso; apply Hk; exact Hn|]);
      (split; [exact Hb | exact Hall]).
  - (* mouse move *)
    unfold Gesture.handleMouseMove.
    destruct (Gesture.isActive (Gesture.state h)) eqn:Ea; cbn [negb];
      [|exact Hinv].
    destruct h as [cfg s ret log]. cbn [Gesture.state Gesture.calls] in *.
    try rewrite Ea in *. cbn [andb] in H1.
    assert (Hk : Gesture.triggerKey s <> None).
    { intros Hn. destruct (H2 Hn) as [Hp _]. congruence. }
    unfold Gesture.emit, Gesture.set_state, Gesture._calculateValue.
    cbn [Gesture.state Gesture.config Gesture.returns Gesture.calls].
    match goal with
    | |- context [ret (Gesture.OnUpdate ?x)] =>
        set (s' := x);
        assert (Hb : Gesture.bracketed false (log ++ [Gesture.OnUpdate s'])
                     = Some true)
          by (rewrite (bracketed_snoc _ _ _ _ H3); reflexivity);
        assert (Hall : Forall call_ok (log ++ [Gesture.OnUpdate s']))
          by (apply Forall_app; split; [exact H4|];
              constructor; [|constructor];
              repeat split; try reflexivity; assumption);
        destruct (ret (Gesture.OnUpdate s'))
    end;
      cbn [snd]; unfold gesture_inv;
      cbn [Gesture.state Gesture.calls];
      (split; [exact H1|]);
      (split; [intros Hn; exfalso; apply Hk; exact Hn|]);
      (split; [exact Hb | exact Hall]).
  - (* mouse up *)
    unfold Gesture.handleMouseUp.
    destruct (Gesture.isActive (Gesture.state h)) eqn:Ea; [|exact Hinv].
    apply finish_inv; assumption.
  - (* key up *)
    unfold Gesture.handleKeyUp.
    destruct (Gesture.has k (Gesture.triggerKeys (Gesture.config h)));
      [|exact Hinv].
    destruct (Gesture.isActive (Gesture.state h)) eqn:Ea;
      [apply finish_inv; assumption|].
    destruct (Gesture.isPrepared (Gesture.state h)) eqn:Ep; [|exact Hinv].
    cbn [snd]. unfold gesture_inv.
    cbn [Gesture.set_state Gesture.state Gesture.calls Gesture.with_prepared
         Gesture.isActive Gesture.isPrepared Gesture.triggerKey].
    try rewrite Ea in *.
    repeat split; try assumption; try reflexivity; discriminate.
  - (* addTriggerKey *)
    unfold Gesture.addTriggerKey.
    destruct k as [| | |k| |]; try exact Hinv.
    destruct (String.eqb k ""); [exact Hinv|].
    destruct (Gesture.has k (Gesture.triggerKeys (Gesture.config h)));
      exact Hinv.
  - exact Hinv.
  - (* forceEnd *)
    unfold Gesture.forceEnd.
    destruct (Gesture.isActive (Gesture.state h)
              || Gesture.isPrepared (Gesture.state h))%bool eqn:E;
      [|exact Hinv].
    destruct h as [cfg s ret log]. cbn [Gesture.state Gesture.calls] in *.
    destruct (Gesture.isActive s) eqn:Ea.
    + unfold Gesture.emit, Gesture.set_state, Gesture._resetState.
      cbn [Gesture.state Gesture.config Gesture.returns Gesture.calls].
      match goal with
      | |- context [ret (Gesture.OnEnd ?x)] =>
          set (s' := x);
          assert (Hb : Gesture.bracketed false (log ++ [Gesture.OnEnd s'])
                       = Some false)
            by (rewrite (bracketed_snoc _ _ _ _ H3); reflexivity);
          assert (Hall : Forall call_ok (log ++ [Gesture.OnEnd s']))
            by (apply Forall_app; split; [exact H4|];
                constructor; [|constructor]; split; reflexivity);
          destruct (ret (Gesture.OnEnd s'))
      end;
        cbn [snd]; unfold gesture_inv;
        cbn [Gesture.state Gesture.calls Gesture.isActive Gesture.isPrepared
             Gesture.triggerKey andb];
        try subst s';
        cbn [Gesture.with_prepared Gesture.with_active Gesture.isActive
             Gesture.isPrepared Gesture.triggerKey andb];
        repeat split; try assumption; try reflexivity; try discriminate.
    + cbn [snd]. unfold gesture_inv, Gesture._resetState, Gesture.set_state.
      cbn [Gesture.state Gesture.calls Gesture.config Gesture.isActive
           Gesture.isPrepared Gesture.triggerKey andb].
      repeat split; try assumption; try reflexivity; discriminate.
  - (* setDefaultSensitivity *)
    unfold Gesture.setDefaultSensitivity.
    destruct v as [| |[q|t|]| | |]; exact Hinv.
  - (* setDefaultAxis *)
    unfold Gesture.setDefaultAxis.
    destruct (String.eqb a "x" || String.eqb a "y")%bool; exact Hinv.
Qed.

Lemma run_gesture_inv (ops : list Gesture.op) (h : Gesture.handler) :
  gesture_inv h -> gesture_inv (Gesture.run h ops).
Proof.
  revert h. induction ops as [|o ops IH]; intros h H; [exact H|].
  cbn [Gesture.run fold_left]. apply IH. apply step_gesture_inv. exact H.
Qed.

Lemma create_gesture_inv (callbacks : Gesture.call -> bool) :
  gesture_inv (Gesture.create callbacks).
Proof.
  unfold gesture_inv. cbn. repeat split; try reflexivity; try discriminate.
  constructor.
Qed.

(** X25.  A gesture is never prepared and active at once, and it is
    neither without a trigger key: whatever the page calls and whether
    the callbacks return or throw, the two flags are not both set, and
    they are both clear when no trigger key is remembered. *)
Theorem gesture_flags_exclusive (callbacks : Gesture.call -> bool)
    (ops : list Gesture.op) :
  let s := Gesture.state (Gesture.run (Gesture.create callbacks) ops) in
  (Gesture.isActive s && Gesture.isPrepared s = false)%bool /\
  match Gesture.triggerKey s with
  | Some _ => True
  | None => Gesture.isActive s = false /\ Gesture.isPrepared s = false
  end.
Proof.
  intros s.
  destruct (run_gesture_inv ops _ (create_gesture_inv callbacks))
    as (H1 & H2 & _).
  fold s in H1, H2. split; [exact H1|].
  destruct (Gesture.triggerKey s); [exact I | apply H2; reflexivity].
Qed.

(** X26.  The callbacks are called in brackets: in the log of calls
    every [onStart] is followed by any number of [onUpdate] and then
    one [onEnd] before the next [onStart], an [onUpdate] or [onEnd]
    never comes outside, and a gesture is open at the end exactly when
    the handler is active; [onStart] and [onUpdate] receive an active
    state with its trigger key, [onEnd] one that is no longer
    active. *)
Theorem gesture_callbacks_bracketed (callbacks : Gesture.call -> bool)
    (ops : list Gesture.op) :
  let h := Gesture.run (Gesture.create callbacks) ops in
  Gesture.bracketed false (Gesture.calls h)
    = Some (Gesture.isActive (Gesture.state h)) /\
  Forall call_ok (Gesture.calls h).
Proof.
  intros h.
  destruct (run_gesture_inv ops _ (create_gesture_inv callbacks))
    as (_ & _ & H3 & H4).
  split; assumption.
Qed.

End GestureFacts.

Section GestureRest.

Local Open Scope Q_scope.

Lemma step_returns (o : Gesture.op) (h : Gesture.handler) :
  Gesture.returns (Gesture.step h o) = Gesture.returns h.
Proof.
  destruct h as [cfg s ret log].
  destruct o as [k|e v sn ax|e| |k|k|k| |v|a]; cbn [Gesture.step].
  - unfold Gesture.handleKeyDown.
    destruct (_ && _)%bool; reflexivity.
  - unfold Gesture.handleMouseDown, Gesture.emit.
    cbn [Gesture.state Gesture.set_state Gesture.returns Gesture.config
         Gesture.calls].
    destruct (_ && _)%bool; [|reflexivity].
    destruct (ret _); reflexivity.
  - unfold Gesture.handleMouseMove, Gesture.emit.
    cbn [Gesture.state Gesture.set_state Gesture.returns Gesture.config
         Gesture.calls].
    destruct (negb _); [reflexivity|].
    destruct (ret _); reflexivity.
  - unfold Gesture.handleMouseUp, Gesture.finish, Gesture.emit.
    cbn [Gesture.state Gesture.set_state Gesture.returns Gesture.config
         Gesture.calls].
    destruct (Gesture.isActive s); [|reflexivity].
    destruct (ret _); reflexivity.
  - unfold Gesture.handleKeyUp, Gesture.finish, Gesture.emit.
    cbn [Gesture.state Gesture.set_state Gesture.returns Gesture.config
         Gesture.calls].
    destruct (Gesture.has k _); [|reflexivity].
    destruct (Gesture.isActive s);
      [destruct (ret _); reflexivity|].
    destruct (Gesture.isPrepared s); reflexivity.
  - unfold Gesture.addTriggerKey.
    destruct k as [| | |k| |]; try reflexivity.
    destruct (String.eqb k ""); [reflexivity|].
    destruct (Gesture.has k _); reflexivity.
  - reflexivity.
  - unfold Gesture.forceEnd, Gesture.emit.
    cbn [Gesture.state Gesture.set_state Gesture.returns Gesture.config
         Gesture.calls].
    destruct (_ || _)%bool; [|reflexivity].
    destruct (Gesture.isActive s); [|reflexivity].
    destruct (ret _); reflexivity.
  - unfold Gesture.setDefaultSensitivity.
    destruct v as [| |[q|t|]| | |]; reflexivity.
  - unfold Gesture.setDefaultAxis.
    destruct (_ || _)%bool; reflexivity.
Qed.

Lemma step_gesture_rest (o : Gesture.op) (h : Gesture.handler) :
  (forall c, Gesture.returns h c = true) ->
  gesture_rest_inv h -> gesture_rest_inv (Gesture.step h o).
Proof.
  intros Hret Hsame.
  destruct h as [cfg s ret log].
  cbn [Gesture.returns] in Hret.
  assert (Hreset : forall cfg' ret' log',
            gesture_rest_inv
              (Gesture._resetState (Gesture.mkHandler cfg' s ret' log'))).
  { intros. split; intros; [repeat split | reflexivity]. }
  assert (Hreset' : forall cfg' s' ret' log',
            gesture_rest_inv
              (Gesture._resetState (Gesture.mkHandler cfg' s' ret' log'))).
  { intros. split; intros; [repeat split | reflexivity]. }
  destruct o as [k|e v sn ax|e| |k|k|k| |v|a]; cbn [Gesture.step].
  - unfold Gesture.handleKeyDown.
    cbn [Gesture.state Gesture.config].
    destruct (_ && _)%bool; [|exact Hsame].
    cbn [snd]. destruct Hsame as [H1 H2]. unfold gesture_rest_inv.
    cbn [Gesture.set_state Gesture.state Gesture.with_prepared
         Gesture.isActive Gesture.isPrepared Gesture.triggerKey] in *.
    split; [exact H1 | intros _; discriminate].
  - unfold Gesture.handleMouseDown, Gesture.emit.
    cbn [Gesture.state Gesture.set_state Gesture.returns Gesture.config
         Gesture.calls].
    destruct (_ && _)%bool; [|exact Hsame].
    rewrite Hret. cbn [snd]. split; cbn; discriminate.
  - unfold Gesture.handleMouseMove, Gesture.emit.
    cbn [Gesture.state Gesture.set_state Gesture.returns Gesture.config
         Gesture.calls].
    destruct (Gesture.isActive s) eqn:Ea; cbn [negb]; [|exact Hsame].
    rewrite Hret. cbn [snd]. split; cbn; discriminate.
  - unfold Gesture.handleMouseUp, Gesture.finish, Gesture.emit.
    cbn [Gesture.state Gesture.set_state Gesture.returns Gesture.config
         Gesture.calls].
    destruct (Gesture.isActive s); [|exact Hsame].
    rewrite Hret. cbn [snd]. apply Hreset'.
  - unfold Gesture.handleKeyUp, Gesture.finish, Gesture.emit.
    cbn [Gesture.state Gesture.set_state Gesture.returns Gesture.config
         Gesture.calls].
    destruct (Gesture.has k _); [|exact Hsame].
    destruct (Gesture.isActive s) eqn:Ea;
      [rewrite Hret; cbn [snd]; apply Hreset'|].
    destruct (Gesture.isPrepared s); [|exact Hsame].
    cbn [snd]. destruct Hsame as [H1 H2]. unfold gesture_rest_inv.
    cbn [Gesture.state Gesture.with_prepared Gesture.isActive
         Gesture.isPrepared Gesture.triggerKey] in *.
    split; [exact H1 | reflexivity].
  - unfold Gesture.addTriggerKey.
    destruct k as [| | |k| |]; try (exact Hsame).
    destruct (String.eqb k ""); [exact Hsame|].
    cbn [Gesture.config].
    destruct (Gesture.has k _); exact Hsame.
  - exact Hsame.
  - unfold Gesture.forceEnd, Gesture.emit.
    cbn [Gesture.state Gesture.set_state Gesture.returns Gesture.config
         Gesture.calls].
    destruct (_ || _)%bool; [|exact Hsame].
    destruct (Gesture.isActive s);
      [rewrite Hret|]; cbn [snd]; apply Hreset'.
  - unfold Gesture.setDefaultSensitivity.
    destruct v as [| |[q|t|]| | |]; exact Hsame.
  - unfold Gesture.setDefaultAxis.
    destruct (_ || _)%bool; exact Hsame.
Qed.

Lemma run_gesture_rest (ops : list Gesture.op) (h : Gesture.handler) :
  (forall c, Gesture.returns h c = true) ->
  gesture_rest_inv h -> gesture_rest_inv (Gesture.run h ops).
Proof.
  revert h. induction ops as [|o ops IH]; intros h Hret H; [exact H|].
  cbn [Gesture.run fold_left]. apply IH.
  - rewrite step_returns. exact Hret.
  - apply step_gesture_rest; assumption.
Qed.

(** X28.  When the callbacks return, nothing of a gesture is left
    once it is over: whenever the handler is not active every
    coordinate, displacement and value of the state is 0, and when it
    is not prepared either no trigger key is remembered. *)
Theorem gesture_leaves_nothing_behind (callbacks : Gesture.call -> bool)
    (ops : list Gesture.op) :
  (forall c, callbacks c = true) ->
  let s := Gesture.state (Gesture.run (Gesture.create callbacks) ops) in
  Gesture.isActive s = false ->
  cleared s /\ (Gesture.isPrepared s = false -> Gesture.triggerKey s = None).
Proof.
  intros Hret s Ha.
  assert (H : gesture_rest_inv (Gesture.run (Gesture.create callbacks) ops)).
  { apply run_gesture_rest; [exact Hret|].
    split; intros; [repeat split | reflexivity]. }
  destruct H as [H1 H2]. fold s in H1, H2. auto.
Qed.

End GestureRest.

(** X28 after a drag of 3 along x has ended. *)
Lemma gesture_leaves_nothing_behind_witness :
  let s := Gesture.state
             (Gesture.run (Gesture.create (fun _ => true))
                [Gesture.KeyDown "Shift";
                 Gesture.MouseDown (Gesture.mkMouse 0 10 20) (Some (Fin 5))
                   (Some (Fin 2)) None;
                 Gesture.MouseMove (Gesture.mkMouse 0 13 40);
                 Gesture.MouseUp]) in
  cleared s /\ Gesture.triggerKey s = None.
Proof.
  intros s.
  destruct (gesture_leaves_nothing_behind (fun _ => true)
              [Gesture.KeyDown "Shift";
               Gesture.MouseDown (Gesture.mkMouse 0 10 20) (Some (Fin 5))
                 (Some (Fin 2)) None;
               Gesture.MouseMove (Gesture.mkMouse 0 13 40);
               Gesture.MouseUp]) as [H1 H2].
  - reflexivity.
  - reflexivity.
  - split; [exact H1 | apply H2; reflexivity].
Defined.


(* ================================================================== *)
(** ** Facts about the manager and the Timelapse module *)
(* ================================================================== *)

Section ManagerFacts.

Variable JSON_parse : string -> option jsval.
Variable ToNumber_ext : jsval -> number.

(** The module as registered, after some frames have been sent. *)
Lemma manager_step_idle (e : ModulesManager.event)
    (tr : list Recorder.frame) :
  ModulesManager.step JSON_parse ToNumber_ext true
    (Timelapse.set_world Timelapse.initial
       (Recorder.mkState false None [] None None [] Recorder.NativeSend tr []))
    e
  = Timelapse.set_world Timelapse.initial
      (Recorder.mkState false None [] None None [] Recorder.NativeSend
         (tr ++ match e with
                | ModulesManager.Send _ data => [data]
                | _ => []
                end)
         []).
Proof.
  destruct e; cbn; rewrite ?app_nil_r; reflexivity.
Qed.

(** X29.  [initAll] never starts the Timelapse module: it skips a
    module whose [isEnabled] reads false, and [init] of an enabled
    module returns at once, so [initAll] changes no state of the
    module.  Run as the strict code of an ES module, [enableModule]
    and [disableModule] throw at the assignment to the getter-only
    [isEnabled]; then after any calls of the manager and anything the
    page does the module is as it was registered: not enabled, without
    recorder, nothing recorded, and every frame sent went to the
    native [send].  Where the assignment is ignored instead,
    [enableModule] does initialize the module. *)
Theorem manager_never_starts_timelapse :
  (forall t p st, ModulesManager.initAll t p st = st) /\
  (forall es,
     let st := ModulesManager.run JSON_parse ToNumber_ext true
                 Timelapse.initial es in
     st = Timelapse.set_world Timelapse.initial
            (Recorder.mkState false None [] None None [] Recorder.NativeSend
               (ModulesManager.sent es) []) /\
     Timelapse.isEnabled st = false /\
     Recorder.transport (Timelapse.world st) = ModulesManager.sent es) /\
  (forall t p,
     Timelapse.isEnabled
       (snd (ModulesManager.enableModule false t p Timelapse.initial)) = true).
Proof.
  split; [|split].
  - intros t p st. unfold ModulesManager.initAll, Timelapse.init.
    destruct (Timelapse.isEnabled st); reflexivity.
  - intros es.
    assert (H : forall tr,
              fold_left (ModulesManager.step JSON_parse ToNumber_ext true) es
                (Timelapse.set_world Timelapse.initial
                   (Recorder.mkState false None [] None None []
                      Recorder.NativeSend tr []))
              = Timelapse.set_world Timelapse.initial
                  (Recorder.mkState false None [] None None []
                     Recorder.NativeSend (tr ++ ModulesManager.sent es) [])).
    { induction es as [|e es IH]; intros tr.
      - cbn [fold_left ModulesManager.sent flat_map].
        rewrite app_nil_r. reflexivity.
      - cbn [fold_left].
        rewrite (manager_step_idle e tr), IH, <- app_assoc. reflexivity. }
    specialize (H []). cbn [app] in H.
    change (Timelapse.set_world Timelapse.initial
              (Recorder.mkState false None [] None None []
                 Recorder.NativeSend [] []))
      with Timelapse.initial in H at 1.
    cbv zeta. unfold ModulesManager.run. rewrite H.
    repeat split; reflexivity.
  - intros t p. unfold ModulesManager.enableModule, Timelapse.init.
    cbn [Timelapse.initial Timelapse.isEnabled negb].
    destruct (negb (Timelapse.phase_eqb p Timelapse.Unknown)); reflexivity.
Qed.

End ManagerFacts.
